(** * hoyolab-api: the request core, the cookie parser, the modules and the clients

    A shallow embedding of the bundle [dist/index]: [Cookie], [Language],
    [Cache], [Request] and its helpers, [RedeemModule], [RecordModule],
    [DiaryModule.diaries], [Hoyolab], the region helpers and the
    constructors of the three game clients, together with the few
    JavaScript primitives they call.  Left out: [DailyModule], which reads
    the local calendar and writes into the response it was given,
    [DiaryModule.detail], a pagination loop without a bound, and the
    [create] factories built on them.

    Conventions.
    - A JavaScript string is the list of its UTF-16 code units ([jsstring]).
    - A JavaScript [number] that holds an integer is a [Z], the value of a
      double; [NaN] is kept apart and 2^1024 stands for [Infinity].  Every
      integer up to 2^53 - 1 in absolute value is a double; above,
      [parseInt10] rounds to the nearest double and [Number_toString]
      prints the shortest digits that read back as it, in exponent form
      from 10^21 on.
    - An object literal is the list of its own properties in insertion
      order ([obj]); the store inside node-cache is a finite map.
    - [async] functions are run to completion: a call returns its
      completion (a value or a thrown error), the new state of the objects
      it mutates, the new state of the outside world and the trace of
      observable events. *)

From stdpp Require Import base numbers list option gmap.
From Stdlib Require Import ZArith NArith List Ascii String Bool Lia.
Import ListNotations.

Local Open Scope Z_scope.

(* ===================================================================== *)
(** ** JavaScript values and primitives *)
(* ===================================================================== *)

Module Js.

(** UTF-16 code units. *)
Definition jsstring := list N.

Definition lit (s : string) : jsstring :=
  List.map N_of_ascii (list_ascii_of_string s).
#[global] Arguments lit : simpl never.

Definition str_eqb (a b : jsstring) : bool := bool_decide (a = b).

Inductive number :=
| NaN
| Num (z : Z).

#[local] Unset Elimination Schemes.
Inductive value :=
| VUndefined
| VNull
| VBool (b : bool)
| VNumber (n : number)
| VString (s : jsstring)
| VArray (items : list value)
| VObject (props : list (jsstring * value)).
#[local] Set Elimination Schemes.

(** An object: own enumerable properties, in insertion order. *)
Definition obj := list (jsstring * value).

(** [ToBoolean]. *)
Definition truthy (v : value) : bool :=
  match v with
  | VUndefined | VNull => false
  | VBool b => b
  | VNumber NaN => false
  | VNumber (Num z) => negb (z =? 0)
  | VString s => match s with [] => false | _ => true end
  | VArray _ | VObject _ => true
  end.

(** [o[k]]: [undefined] when [k] is not a property of [o]. *)
Fixpoint get (o : obj) (k : jsstring) : value :=
  match o with
  | [] => VUndefined
  | (k', v) :: rest => if str_eqb k' k then v else get rest k
  end.

Fixpoint has (o : obj) (k : jsstring) : bool :=
  match o with
  | [] => false
  | (k', _) :: rest => str_eqb k' k || has rest k
  end.

(** [o[k] = v]: an existing property keeps its place, a new one goes last. *)
Fixpoint set (o : obj) (k : jsstring) (v : value) : obj :=
  match o with
  | [] => [(k, v)]
  | (k', v') :: rest =>
      if str_eqb k' k then (k, v) :: rest else (k', v') :: set rest k v
  end.

(** [{ ...a, ...b }]. *)
Definition spread (a b : obj) : obj :=
  fold_left (fun acc kv => set acc (fst kv) (snd kv)) b a.

(** *** Characters *)

(** [WhiteSpace] and [LineTerminator] of ECMA-262, as removed by [trim]
    and skipped by [parseInt]. *)
Definition is_space (c : N) : bool :=
  (List.existsb (N.eqb c)
     [9; 10; 11; 12; 13; 32; 160; 5760; 8232; 8233; 8239; 8287; 12288; 65279]
   || ((8192 <=? c) && (c <=? 8202)))%N.

Definition is_digit (c : N) : bool := ((48 <=? c) && (c <=? 57))%N.
Definition is_upper (c : N) : bool := ((65 <=? c) && (c <=? 90))%N.
Definition is_lower (c : N) : bool := ((97 <=? c) && (c <=? 122))%N.

(** [toUpperCase] / [toLowerCase] on the ASCII letters; the library only
    applies them to its own ASCII property names. *)
Definition to_upper (c : N) : N := if is_lower c then (c - 32)%N else c.
Definition to_lower (c : N) : N := if is_upper c then (c + 32)%N else c.

Definition hex_digit (c : N) : option N :=
  if is_digit c then Some (c - 48)%N
  else if ((65 <=? c) && (c <=? 70))%N then Some (c - 55)%N
  else if ((97 <=? c) && (c <=? 102))%N then Some (c - 87)%N
  else None.

(** *** String methods *)

Fixpoint trimStart (s : jsstring) : jsstring :=
  match s with
  | c :: rest => if is_space c then trimStart rest else s
  | [] => []
  end.

Definition trimEnd (s : jsstring) : jsstring := rev (trimStart (rev s)).

Definition trim (s : jsstring) : jsstring := trimEnd (trimStart s).

(** None of the characters [chars] occurs in [s]. *)
Definition free_of (chars : list N) (s : jsstring) : Prop :=
  Forall (fun c => ~ In c chars) s.

(** The last character of [s] is white space. *)
Definition ends_with_space (s : jsstring) : bool :=
  match rev s with
  | c :: _ => is_space c
  | [] => false
  end.

(** [s.split(sep)] for a separator of one code unit; never empty. *)
Fixpoint split (sep : N) (s : jsstring) : list jsstring :=
  match s with
  | [] => [[]]
  | c :: rest =>
      if N.eqb c sep then [] :: split sep rest
      else match split sep rest with
           | w :: ws => (c :: w) :: ws
           | [] => [[c]]
           end
  end.

(** [parts.join(sep)]. *)
Fixpoint join (sep : jsstring) (parts : list jsstring) : jsstring :=
  match parts with
  | [] => []
  | [p] => p
  | p :: rest => p ++ sep ++ join sep rest
  end.

(** [s.slice(0, 1)]. *)
Definition slice01 (s : jsstring) : jsstring := firstn 1 s.

(** [s.replace(/c/g, by)] for a pattern that is one literal code unit. *)
Fixpoint replace_all (c : N) (by_ : jsstring) (s : jsstring) : jsstring :=
  match s with
  | [] => []
  | x :: rest =>
      if N.eqb x c then by_ ++ replace_all c by_ rest
      else x :: replace_all c by_ rest
  end.

(** *** Numbers *)

(** Decimal digits of a non-negative integer, most significant first. *)
Fixpoint digits_of (fuel : nat) (z : Z) : jsstring :=
  match fuel with
  | O => []
  | S fuel' =>
      if z <? 10 then [Z.to_N (48 + z)]
      else digits_of fuel' (z / 10) ++ [Z.to_N (48 + z mod 10)]
  end.

Definition digit_budget (z : Z) : nat :=
  match z with
  | Zpos p => S (Pos.size_nat p)
  | _ => 1%nat
  end.

(** [Number.MAX_SAFE_INTEGER], 2^53 - 1: every integer up to it is a
    double. *)
Definition max_safe_integer : Z := 9007199254740991.

(** The integer 2^1024, which no finite double reaches, stands for
    [Infinity]. *)
Definition infinity : Z := 2 ^ 1024.

(** The double nearest to a non-negative integer: its 53 leading bits,
    rounded to nearest with ties to even; [infinity] from
    2^1024 - 2^970 on. *)
Definition to_double (z : Z) : Z :=
  let shift := Z.log2 z - 52 in
  if shift <=? 0 then z
  else
    let q := Z.shiftr z shift in
    let r := z - Z.shiftl q shift in
    let half := Z.shiftl 1 (shift - 1) in
    let q' := if (half <? r) || ((r =? half) && Z.odd q) then q + 1 else q in
    let x := Z.shiftl q' shift in
    if infinity <=? x then infinity else x.
#[global] Arguments to_double : simpl never.

(** The digits chosen by [Number::toString] (ECMA-262, 6.1.6.1.20) for a
    double [x] of [n] decimal digits: the least [k], and with it the [s]
    of [k] digits, such that [s * 10^(n-k)] rounds to [x]; of two such [s]
    the one nearer to [x], and the even one when they are as near. *)
Fixpoint shortest (fuel k n : nat) (x : Z) : Z * nat :=
  match fuel with
  | O => (x, n)
  | S fuel' =>
      let scale := 10 ^ Z.of_nat (n - k) in
      let lo := x / scale in
      let hi := lo + 1 in
      let below := x - lo * scale in
      let above := hi * scale - x in
      let lo_ok := to_double (lo * scale) =? x in
      let hi_ok := (hi <? 10 ^ Z.of_nat k) && (to_double (hi * scale) =? x) in
      if lo_ok && (negb hi_ok || (below <? above) || ((below =? above) && Z.even lo))
      then (lo, k)
      else if hi_ok then (hi, k)
      else shortest fuel' (S k) n x
  end.

(** [d.ddd e+NN], the form taken from 10^21 on. *)
Definition exponent_form (digits : jsstring) (e : Z) : jsstring :=
  match digits with
  | [] => []
  | [d] => d :: lit "e+" ++ digits_of (digit_budget e) e
  | d :: rest => d :: 46%N :: rest ++ lit "e+" ++ digits_of (digit_budget e) e
  end.

(** A finite double above 2^53, printed: the shortest digits followed by
    zeros below 10^21, the exponent form from there on.  The power of
    ten just above [x] is tried first, as it has a single digit. *)
Definition print_double (x : Z) : jsstring :=
  let n := List.length (digits_of (digit_budget x) x) in
  let '(s, k, n) :=
    if to_double (10 ^ Z.of_nat n) =? x then (1, 1%nat, S n)
    else let '(s, k) := shortest n 1 n x in (s, k, n) in
  let digits := digits_of (digit_budget s) s in
  if (n <=? 21)%nat then digits ++ repeat 48%N (n - k)
  else exponent_form digits (Z.of_nat n - 1).

(** A non-negative number, printed: all its digits up to 2^53 - 1; above,
    what the nearest double prints as. *)
Definition print_magnitude (z : Z) : jsstring :=
  if z <=? max_safe_integer then digits_of (digit_budget z) z
  else if infinity <=? to_double z then lit "Infinity"
  else print_double (to_double z).

(** [Number.prototype.toString()] on integers. *)
Definition Number_toString (n : number) : jsstring :=
  match n with
  | NaN => lit "NaN"
  | Num z =>
      if z <? 0 then 45%N :: print_magnitude (- z)
      else print_magnitude z
  end.

(** The characters of a printed number: digits, and those of a sign, a
    fraction, an exponent and [Infinity]. *)
Definition printed (c : N) : Prop :=
  is_digit c = true \/ In c (lit "-.e+Infinity").

(** [Number(s)] on the strings of at most one code unit that
    [slice(0, 1)] produces: the empty string and white space give 0, a
    digit its value, anything else [NaN]. *)
Definition Number_of_char (s : jsstring) : number :=
  match s with
  | [] => Num 0
  | [c] =>
      if is_space c then Num 0
      else if is_digit c then Num (Z.of_N c - 48)
      else NaN
  | _ => NaN
  end.

(** Value of the longest prefix of decimal digits; [None] without one. *)
Fixpoint read_digits (acc : option Z) (s : jsstring) : option Z :=
  match s with
  | c :: rest =>
      if is_digit c
      then read_digits
             (Some (10 * match acc with Some a => a | None => 0 end
                    + (Z.of_N c - 48))) rest
      else acc
  | [] => acc
  end.

(** [parseInt(s, 10)]: the double nearest to the integer that the digits
    spell. *)
Definition parseInt10 (s : jsstring) : number :=
  let t := trimStart s in
  let '(sign, body) :=
    match t with
    | c :: rest =>
        if N.eqb c 45 then (-1, rest)
        else if N.eqb c 43 then (1, rest)
        else (1, t)
    | [] => (1, t)
    end in
  match read_digits None body with
  | Some z => Num (sign * to_double z)
  | None => NaN
  end.

(** [ToString] as used by template literals and [decodeURIComponent]. *)
Fixpoint ToString (v : value) : jsstring :=
  match v with
  | VUndefined => lit "undefined"
  | VNull => lit "null"
  | VBool true => lit "true"
  | VBool false => lit "false"
  | VNumber n => Number_toString n
  | VString s => s
  | VArray items =>
      join [44%N]
        (List.map (fun x => match x with
                            | VUndefined | VNull => []
                            | _ => ToString x
                            end) items)
  | VObject _ => lit "[object Object]"
  end.

(** *** decodeURIComponent *)

(** UTF-16 code units of a code point. *)
Definition utf16 (cp : N) : jsstring :=
  (if cp <? 65536 then [cp]
   else [55296 + (cp - 65536) / 1024; 56320 + (cp - 65536) mod 1024])%N.

(** The scanner of [Decode] (ECMA-262, 19.2.6.1.2) with an empty reserved
    set.  [pending] continuation octets of a UTF-8 sequence are still
    due, [cp] is the code point read so far and [lo] the least code
    point the sequence may denote.  [None] stands for [URIError]. *)
Fixpoint decode_from (pending : nat) (cp lo : N) (s : jsstring) : option jsstring :=
  match s with
  | [] => match pending with O => Some [] | S _ => None end
  | c :: rest =>
      if N.eqb c 37 then
        match rest with
        | h1 :: h2 :: rest' =>
            match hex_digit h1, hex_digit h2 with
            | Some a, Some b =>
                let B := (16 * a + b)%N in
                match pending with
                | O =>
                    if (B <? 128)%N then option_map (cons B) (decode_from 0 0 0 rest')
                    else if (B <? 192)%N then None
                    else if (B <? 224)%N then decode_from 1 (N.land B 31) 128 rest'
                    else if (B <? 240)%N then decode_from 2 (N.land B 15) 2048 rest'
                    else if (B <? 248)%N then decode_from 3 (N.land B 7) 65536 rest'
                    else None
                | S p =>
                    if ((128 <=? B) && (B <? 192))%N then
                      let cp' := (cp * 64 + N.land B 63)%N in
                      match p with
                      | O =>
                          if ((cp' <? lo) || (1114111 <? cp')
                              || ((55296 <=? cp') && (cp' <=? 57343)))%N
                          then None
                          else option_map (app (utf16 cp')) (decode_from 0 0 0 rest')
                      | S _ => decode_from p cp' lo rest'
                      end
                    else None
                end
            | _, _ => None
            end
        | _ => None
        end
      else
        match pending with
        | O => option_map (cons c) (decode_from 0 0 0 rest)
        | S _ => None
        end
  end.

Definition decodeURIComponent (s : jsstring) : option jsstring :=
  decode_from 0 0 0 s.

(** *** Comparisons *)

(** [a > b] and [a < b] on numbers: false as soon as one side is [NaN]. *)
Definition gt (a b : number) : bool :=
  match a, b with
  | Num x, Num y => y <? x
  | _, _ => false
  end.

Definition lt (a b : number) : bool := gt b a.

(** [a === b] on primitives, as [Array.prototype.includes] compares
    them when the array holds no [NaN]; an array or object is equal to
    nothing but itself, so never to a value of another origin. *)
Definition same_primitive (a b : value) : bool :=
  match a, b with
  | VUndefined, VUndefined => true
  | VNull, VNull => true
  | VBool x, VBool y => Bool.eqb x y
  | VNumber (Num x), VNumber (Num y) => x =? y
  | VString x, VString y => str_eqb x y
  | _, _ => false
  end.

End Js.

(* ===================================================================== *)
(** ** src/utils/error.ts *)
(* ===================================================================== *)

(** What a [throw] can carry in the modelled code.  [HoyolabError] is the
    library's own class; [URIError] is raised by [decodeURIComponent]. *)
Inductive exn :=
| HoyolabError (message : Js.jsstring)
| URIError.

(** Completion of a call: a value or a thrown error. *)
Inductive completion (A : Type) :=
| Return (a : A)
| Throw (e : exn).
Arguments Return {A} a.
Arguments Throw {A} e.

Definition bind {A B} (c : completion A) (k : A -> completion B) : completion B :=
  match c with
  | Return a => k a
  | Throw e => Throw e
  end.

Notation "'let*' x ':=' c 'in' k" := (bind c (fun x => k))
  (at level 10, x name, c at level 100, k at level 200).

(* ===================================================================== *)
(** ** src/games/gi *)
(* ===================================================================== *)

Module Genshin.
Import Js.

(** [enum GenshinRegion]. *)
Inductive GenshinRegion := USA | EUROPE | ASIA | CHINA_TAIWAN.

Definition region_code (r : GenshinRegion) : jsstring :=
  match r with
  | USA => lit "os_usa"
  | EUROPE => lit "os_euro"
  | ASIA => lit "os_asia"
  | CHINA_TAIWAN => lit "os_cht"
  end.

(** [throw new HoyolabError(`Given UID ${uid} is invalid !`)]. *)
Definition invalid_uid (uid : Z) : completion GenshinRegion :=
  Throw (HoyolabError
           (lit "Given UID " ++ Number_toString (Num uid) ++ lit " is invalid !")).

(** [getGenshinRegion(uid)]. *)
Definition getGenshinRegion (uid : Z) : completion GenshinRegion :=
  let server_region :=
    Number_of_char (slice01 (trim (Number_toString (Num uid)))) in
  match server_region with
  | Num 6 => Return USA
  | Num 7 => Return EUROPE
  | Num 8 => Return ASIA
  | Num 9 => Return CHINA_TAIWAN
  | _ => invalid_uid uid
  end.

End Genshin.


(* ===================================================================== *)
(** ** src/language *)
(* ===================================================================== *)

Module Language.
Import Js.

(** The values of [LanguageEnum], in declaration order. *)
Definition LanguageEnum : list jsstring :=
  List.map lit
    ["zh-cn"; "zh-tw"; "de-de"; "en-us"; "es-es"; "fr-fr"; "id-id"; "it-it";
     "ja-jp"; "ko-kr"; "pt-pt"; "ru-ru"; "th-th"; "tr-tr"; "vi-vn"]%string.

Definition ENGLISH : jsstring := lit "en-us".

(** [Language.parseLang(lang)]. *)
Definition parseLang (lang : value) : jsstring :=
  if negb (truthy lang) then ENGLISH
  else match lang with
       | VString l =>
           match List.find (str_eqb l) LanguageEnum with
           | Some matching => matching
           | None => ENGLISH
           end
       | _ => ENGLISH
       end.

End Language.

(* ===================================================================== *)
(** ** src/cookie *)
(* ===================================================================== *)

Module Cookie.
Import Js.

(** [toCamelCase(str)] of cookie.helper. *)
Definition capitalize (word : jsstring) : jsstring :=
  match word with
  | [] => []
  | c :: rest => to_upper c :: rest
  end.

Definition toCamelCase (str : jsstring) : jsstring :=
  match split 95 str with
  | [] => []
  | first :: others => join [] (first :: List.map capitalize others)
  end.

(** [toSnakeCase(text)]: a space before every capital, spaces turned into
    underscores, everything lowered. *)
Definition toSnakeCase (text : jsstring) : jsstring :=
  let spaced :=
    List.flat_map (fun c => if is_upper c then [32%N; c] else [c]) text in
  List.map to_lower (join [95%N] (split 32 spaced)).

Definition keys : list jsstring :=
  List.map lit ["ltoken"; "ltuid"; "account_id"; "cookie_token"; "mi18nLang"]%string.

Definition includes (l : list jsstring) (k : jsstring) : bool :=
  List.existsb (str_eqb k) l.

(** [const [cookieKey, cookieValue] = cookie.trim().split("=")]. *)
Definition key_of (cookie : jsstring) : jsstring :=
  List.nth 0 (split 61 (trim cookie)) [].

Definition raw_value (cookie : jsstring) : value :=
  match List.nth_error (split 61 (trim cookie)) 1 with
  | Some v => VString v
  | None => VUndefined
  end.

(** The assignments of the [forEach] callback of [parseCookieString],
    once the value of a recognised key is decoded. *)
Definition stored_field (cookies : obj) (cookieKey decoded : jsstring) : obj :=
  let name := toCamelCase cookieKey in
  let cookies := set cookies name (VString decoded) in
  if str_eqb cookieKey (lit "ltuid") || str_eqb cookieKey (lit "account_id")
  then set cookies name (VNumber (parseInt10 (ToString (get cookies name))))
  else if str_eqb cookieKey (lit "mi18nLang")
  then set cookies name
         (VString (Language.parseLang (VString (ToString (get cookies name)))))
  else cookies.

(** The [forEach] callback of [parseCookieString]. *)
Definition parse_entry (cookies : obj) (cookie : jsstring) : completion obj :=
  let cookieKey := key_of cookie in
  let cookieValue := raw_value cookie in
  if includes keys cookieKey then
    match decodeURIComponent (ToString cookieValue) with
    | None => Throw URIError
    | Some decoded => Return (stored_field cookies cookieKey decoded)
    end
  else Return cookies.

Fixpoint parse_entries (cookies : obj) (parts : list jsstring) : completion obj :=
  match parts with
  | [] => Return cookies
  | cookie :: rest =>
      let* cookies' := parse_entry cookies cookie in
      parse_entries cookies' rest
  end.

Definition missing_key_message : jsstring :=
  lit "Cookie key ltuid or ltoken doesnt exist !".

(** [Cookie.parseCookieString(cookieString)]. *)
Definition parseCookieString (cookieString : jsstring) : completion obj :=
  let* cookies := parse_entries [] (split 59 cookieString) in
  let cookies :=
    if truthy (get cookies (lit "ltuid")) && negb (truthy (get cookies (lit "accountId")))
    then set cookies (lit "accountId") (get cookies (lit "ltuid"))
    else if negb (truthy (get cookies (lit "ltuid"))) && truthy (get cookies (lit "accountId"))
    then set cookies (lit "ltuid") (get cookies (lit "accountId"))
    else cookies in
  if negb (truthy (get cookies (lit "ltoken"))) || negb (truthy (get cookies (lit "ltuid")))
  then Throw (HoyolabError missing_key_message)
  else Return cookies.

(** [`${key}=${value}`], with the key of [cookieToken] and [accountId]
    turned to snake case. *)
Definition entry_string (entry : jsstring * value) : jsstring :=
  let '(key, v) := entry in
  let key :=
    if includes [lit "cookieToken"; lit "accountId"] key
    then toSnakeCase key else key in
  key ++ [61%N] ++ ToString v.

(** One step of the [Object.entries(cookie).forEach] of [parseCookie]. *)
Definition push_entry (cookies : list jsstring) (entry : jsstring * value) : list jsstring :=
  if truthy (snd entry) then cookies ++ [entry_string entry] else cookies.

(** [Cookie.parseCookie(cookie)]: the cookie string, and the argument
    object as the call leaves it. *)
Definition parseCookie (cookie : obj) : jsstring * obj :=
  let cookie :=
    if negb (truthy (get cookie (lit "accountId")))
    then set cookie (lit "accountId") (get cookie (lit "ltuid"))
    else cookie in
  (join (lit "; ") (fold_left push_entry cookie []), cookie).

(** *** Reading a cookie string *)

(** The keys that occur in a cookie string. *)
Definition cookie_keys (cookieString : jsstring) : list jsstring :=
  List.map key_of (split 59 cookieString).

(** A key that starts with no blank and holds no "=". *)
Definition key_plain (key : jsstring) : bool :=
  match key with
  | c :: _ => negb (is_space c)
  | [] => false
  end && List.forallb (fun c => negb (N.eqb c 61)) key.

(** Characters that survive serialising and parsing untouched. *)
Definition plain_char (c : N) : bool :=
  negb (is_space c) && negb (N.eqb c 59) && negb (N.eqb c 61) && negb (N.eqb c 37).

(** A property as [parseCookieString] writes it: a string for [ltoken]
    and [cookieToken], a number for [ltuid] and [accountId], a language of
    [LanguageEnum] for [mi18nLang]. *)
Definition field_ok (entry : jsstring * value) : Prop :=
  let '(k, v) := entry in
  (k = lit "ltoken" /\ exists token, v = VString token) \/
  (k = lit "ltuid" /\ exists n, v = VNumber n) \/
  (k = lit "accountId" /\ exists n, v = VNumber n) \/
  (k = lit "cookieToken" /\ exists token, v = VString token) \/
  (k = lit "mi18nLang" /\ exists l, v = VString l /\ In l Language.LanguageEnum).

(** What the round trip through [parseCookie] needs of a property: an
    [ltoken] without ";", "=" and "%" that does not end in white space,
    a [cookieToken] without ";" and "%", and an [ltuid] that is a safe
    integer. *)
Definition roundtrip_safe (entry : jsstring * value) : Prop :=
  let '(k, v) := entry in
  (k = lit "ltoken" ->
   forall token, v = VString token ->
                 free_of [59%N; 61%N; 37%N] token /\ ends_with_space token = false) /\
  (k = lit "cookieToken" ->
   forall token, v = VString token -> free_of [59%N; 37%N] token) /\
  (k = lit "ltuid" ->
   forall u, v = VNumber (Num u) -> Z.abs u <= max_safe_integer).

(** An object whose properties are distinct and all of that kind. *)
Definition shaped (o : obj) : Prop :=
  NoDup (List.map fst o) /\ Forall field_ok o.

(** *** Identifiers in snake case *)

(** A word of ASCII lower-case letters and digits. *)
Definition snake_word (w : jsstring) : Prop :=
  Forall (fun c => is_lower c = true \/ is_digit c = true) w.

(** A word that starts with a lower-case letter. *)
Definition starts_lower (w : jsstring) : bool :=
  match w with
  | c :: _ => is_lower c
  | [] => false
  end.

(** The property names that [parseCookieString] can write. *)
Definition property_names : list jsstring :=
  List.map lit ["ltoken"; "ltuid"; "accountId"; "cookieToken"; "mi18nLang"]%string.

End Cookie.

(* ===================================================================== *)
(** ** The host: crypto, axios, the clock and Math.random *)
(* ===================================================================== *)

Inductive Method := GET | POST.

(** The object literal [{ url, method, body, params }] of [send]. *)
Record CacheKey := {
  key_url : Js.jsstring;
  key_method : Method;
  key_body : Js.obj;
  key_params : Js.obj
}.

(** The [config] object handed to [axios]; [data] is set for POST only. *)
Record AxiosConfig := {
  cfg_method : Method;
  cfg_params : Js.obj;
  cfg_headers : Js.obj;
  cfg_responseType : Js.jsstring;
  cfg_data : option Js.obj
}.

(** How the promise of one [axios(url, config)] call settles.
    [statusText] is a string in axios' [AxiosResponse], so the operand
    [result.data] of [request.statusText ?? result.data] is never used. *)
Inductive AxiosReply :=
| Resolved (status : Z) (statusText : Js.jsstring) (data : Js.value)
| RejectedAxios (code : option Js.jsstring) (message : Js.jsstring)
| RejectedOther.

(** Everything the code reads from outside itself.  The n-th exchange
    with the server is [axios n url config] and lasts [latency n]
    milliseconds; [random_index n] is the n-th value of
    [Math.floor(Math.random() * characters.length)]. *)
Record Host := {
  md5_hex : Js.jsstring -> Js.jsstring;
  JSON_stringify : CacheKey -> Js.jsstring;
  axios : nat -> Js.jsstring -> AxiosConfig -> AxiosReply;
  latency : nat -> N;
  random_index : nat -> N
}.

(** The part of the outside world that moves: [Date.now()] in
    milliseconds, the number of exchanges made and of random draws taken. *)
Record World := {
  now : Z;
  calls : nat;
  draws : nat
}.

Inductive event :=
| Log (line : Js.jsstring)
| AxiosCall (url : Js.jsstring) (config : AxiosConfig)
| Delay (seconds : Z).

(* ===================================================================== *)
(** ** src/request/request.cache.ts *)
(* ===================================================================== *)

Module NodeCache.
Import Js.

Record entry := { val : value; expires : Z }.

(** Modelled from the spec: the store of the npm package node-cache, which
    the repository only imports.  "In-memory TTL key/value store": an
    entry is kept with the instant at which it runs out, [ttl] seconds
    after it was set, and "expires automatically after TTL elapses";
    setting a key again overwrites its entry.  Conventions of node-cache
    that the spec does not mention (a ttl of 0, clones, statistics) are
    not part of the model. *)
Definition t := gmap jsstring entry.

Definition set (store : t) (key : jsstring) (v : value) (ttl : Z) (at_ : Z) : t :=
  <[ key := {| val := v; expires := at_ + ttl * 1000 |} ]> store.

Definition get (store : t) (key : jsstring) (at_ : Z) : value :=
  match store !! key with
  | Some e => if at_ <=? expires e then val e else VUndefined
  | None => VUndefined
  end.

(** Modelled from the spec: "has(key) -> bool" of the same store, whether
    the key holds an entry that has not run out. *)
Definition has (store : t) (key : jsstring) (at_ : Z) : bool :=
  match store !! key with
  | Some e => at_ <=? expires e
  | None => false
  end.

(** Modelled from the spec: "del(key) -> count removed" of the same store,
    the number of live entries that the call removed and the store it
    leaves. *)
Definition del (store : t) (key : jsstring) (at_ : Z) : Z * t :=
  (if has store key at_ then 1 else 0, delete key store).

End NodeCache.

Module Cache.
Import Js.

(** [stdTTL], the default time-to-live in seconds: a private field that
    the constructor sets and nothing assigns again. *)
Definition stdTTL : Z := 30.

Record t := { nodeCache : NodeCache.t }.

(** [new Cache()]. *)
Definition new : t := {| nodeCache := ∅ |}.

(** [generateKey(key)]. *)
Definition generateKey (h : Host) (key : CacheKey) : jsstring :=
  md5_hex h (JSON_stringify h key).

(** [set(key, value, ttl)]. *)
Definition set (h : Host) (c : t) (key : CacheKey) (v : value)
    (ttl : option Z) (at_ : Z) : t :=
  let ttl := match ttl with None => stdTTL | Some ttl => ttl end in
  {| nodeCache := NodeCache.set (nodeCache c) (generateKey h key) v ttl at_ |}.

(** [get(key)]. *)
Definition get (h : Host) (c : t) (key : CacheKey) (at_ : Z) : value :=
  NodeCache.get (nodeCache c) (generateKey h key) at_.

(** [has(key)]. *)
Definition has (h : Host) (c : t) (key : CacheKey) (at_ : Z) : bool :=
  NodeCache.has (nodeCache c) (generateKey h key) at_.

(** [del(key)]: the count that node-cache returns, and the cache after. *)
Definition del (h : Host) (c : t) (key : CacheKey) (at_ : Z) : Z * t :=
  let '(count, store) := NodeCache.del (nodeCache c) (generateKey h key) at_ in
  (count, {| nodeCache := store |}).

(** The time-to-live that [set] hands on, in seconds. *)
Definition ttl_or_default (ttl : option Z) : Z :=
  match ttl with
  | None => stdTTL
  | Some seconds => seconds
  end.

End Cache.

(* ===================================================================== *)
(** ** src/request *)
(* ===================================================================== *)

Module Request.
Import Js.

(** *** request.helper.ts *)

Definition salt : jsstring := lit "6s25p5ox5y14umn1p61aqyyvbvvl3lrt".
Definition characters : jsstring :=
  lit "abcdefghijklmnopqrstuvwxyzABCDEFGHIJKLMNOPQRSTUVWXYZ".

Definition charAt (s : jsstring) (i : N) : jsstring :=
  match List.nth_error s (N.to_nat i) with
  | Some c => [c]
  | None => []
  end.

Fixpoint random_chars (h : Host) (n : nat) (from : nat) : jsstring :=
  match n with
  | O => []
  | S n' => charAt characters (random_index h from) ++ random_chars h n' (S from)
  end.

(** [generateDS()]: the token and the world after the six draws. *)
Definition generateDS (h : Host) (w : World) : jsstring * World :=
  let time := Number_toString (Num (now w / 1000)) in
  let random := random_chars h 6 (draws w) in
  let hash :=
    md5_hex h (lit "salt=" ++ salt ++ lit "&t=" ++ time ++ lit "&r=" ++ random) in
  (time ++ [44%N] ++ random ++ [44%N] ++ hash,
   {| now := now w; calls := calls w; draws := (draws w + 6)%nat |}).

(** *** request.ts *)

Record t := {
  headers : obj;
  body : obj;
  params : obj;
  cache : Cache.t;
  ds : bool;
  retries : Z
}.

Definition user_agent : jsstring :=
  lit "Mozilla/5.0 (Windows NT 10.0; Win64; x64) AppleWebKit/537.36 (KHTML, like Gecko) Chrome/109.0.0.0 Safari/537.36".

(** [new Request(cookies)]; [None] is the default [null]. *)
Definition new (cookies : option jsstring) : t :=
  let headers :=
    [(lit "Content-Type", VString (lit "application/json"));
     (lit "User-Agent", VString user_agent);
     (lit "x-rpc-app_version", VString (lit "1.5.0"));
     (lit "x-rpc-client_type", VString (lit "5"));
     (lit "x-rpc-language", VString Language.ENGLISH)] in
  {| headers :=
       match cookies with
       | Some (c :: cs) => set headers (lit "Cookie") (VString (c :: cs))
       | _ => headers
       end;
     body := [];
     params := [];
     cache := Cache.new;
     ds := false;
     retries := 1 |}.

Definition with_headers (r : t) (hs : obj) : t :=
  {| headers := hs; body := body r; params := params r;
     cache := cache r; ds := ds r; retries := retries r |}.

Definition setReferer (r : t) (url : jsstring) : t :=
  with_headers r
    (set (set (headers r) (lit "Referer") (VString url)) (lit "Origin") (VString url)).

Definition setBody (r : t) (b : obj) : t :=
  {| headers := headers r; body := spread (body r) b; params := params r;
     cache := cache r; ds := ds r; retries := retries r |}.

Definition setParams (r : t) (p : obj) : t :=
  {| headers := headers r; body := body r; params := spread (params r) p;
     cache := cache r; ds := ds r; retries := retries r |}.

Definition setDs (r : t) (flag : bool) : t :=
  {| headers := headers r; body := body r; params := params r;
     cache := cache r; ds := flag; retries := retries r |}.

Definition setLang (r : t) (lang : jsstring) : t :=
  with_headers r (set (headers r) (lit "x-rpc-language") (VString lang)).

(** [v.name] for a name that no prototype defines: [None] is the
    [TypeError] of reading a property of [null] or [undefined]. *)
Definition member (v : value) (name : jsstring) : option value :=
  match v with
  | VUndefined | VNull => None
  | VObject props => Some (get props name)
  | _ => Some VUndefined
  end.

(** [v === n] for a number literal [n]. *)
Definition is_number (v : value) (n : Z) : bool :=
  match v with
  | VNumber (Num z) => z =? n
  | _ => false
  end.

(** The envelope returned when the [catch] swallows an error. *)
Definition swallowed : value :=
  VObject [(lit "retcode", VNumber (Num (-9999)));
           (lit "message", VString []);
           (lit "data", VNull)].

Definition request_error (code message : jsstring) : exn :=
  HoyolabError (lit "Request Error: [" ++ code ++ lit "] - " ++ message).

(** What one run of [send] leaves behind. *)
Record run := {
  result : completion value;
  request : t;
  world : World;
  trace : list event
}.

Definition after_exchange (h : Host) (w : World) : World :=
  {| now := now w + Z.of_N (latency h (calls w));
     calls := S (calls w);
     draws := draws w |}.

(** [await delay(seconds)]. *)
Definition delay (seconds : Z) (w : World) : World :=
  {| now := now w + seconds * 1000; calls := calls w; draws := draws w |}.

(** [const cacheKey = { url, method, body: this.body, params: this.params }]. *)
Definition cache_key (url : jsstring) (method : Method) (r : t) : CacheKey :=
  {| key_url := url; key_method := method;
     key_body := body r; key_params := params r |}.

(** [if (this.ds) this.headers.DS = generateDS()]. *)
Definition attach_ds (h : Host) (r : t) (w : World) : t * World :=
  if ds r then
    let '(token, w') := generateDS h w in
    (with_headers r (set (headers r) (lit "DS") (VString token)), w')
  else (r, w).

(** [const config = { method, params, headers, responseType: "json" }]
    and [if (method === "POST") config.data = this.body]. *)
Definition config_for (method : Method) (r : t) : AxiosConfig :=
  {| cfg_method := method; cfg_params := params r;
     cfg_headers := headers r; cfg_responseType := lit "json";
     cfg_data := match method with POST => Some (body r) | GET => None end |}.

(** [[200, 201].includes(request.status)]. *)
Definition ok_status (status : Z) : bool := (status =? 200) || (status =? 201).

(** [result.retcode === -2016 && this.retries <= 60]. *)
Definition must_retry (retcode : value) (r : t) : bool :=
  is_number retcode (-2016) && (retries r <=? 60).

(** [this.retries++]. *)
Definition retrying (r : t) : t :=
  {| headers := headers r; body := body r; params := params r;
     cache := cache r; ds := ds r; retries := retries r + 1 |}.

(** [this.cache.set(cacheKey, result, ttl); this.retries = 1; this.body = {}]. *)
Definition stored (h : Host) (key : CacheKey) (data : value) (ttl : option Z)
    (at_ : Z) (r : t) : t :=
  {| headers := headers r; body := []; params := params r;
     cache := Cache.set h (cache r) key data ttl at_;
     ds := ds r; retries := 1 |}.

Definition cached_line : jsstring := lit "Requet Cached".

(** [send(url, method, ttl)].  The recursion of the source is bounded by
    [fuel]; [None] only when the fuel runs out.  The promise of the inner
    [send] is returned without [await], so whatever it settles to is the
    outcome of the outer call and never reaches the outer [catch]. *)
Fixpoint send_in (fuel : nat) (h : Host) (url : jsstring) (method : Method)
    (ttl : option Z) (r : t) (w : World) : option run :=
  match fuel with
  | O => None
  | S fuel' =>
      let cacheKey := cache_key url method r in
      let cachedResult := Cache.get h (cache r) cacheKey (now w) in
      if truthy cachedResult then
        Some {| result := Return cachedResult; request := r; world := w;
                trace := [Log cached_line] |}
      else
        let '(r1, w1) := attach_ds h r w in
        let config := config_for method r1 in
        let reply := axios h (calls w1) url config in
        let w2 := after_exchange h w1 in
        let finish c r' :=
          Some {| result := c; request := r'; world := w2;
                  trace := [AxiosCall url config] |} in
        match reply with
        | RejectedAxios code message =>
            finish (Throw (request_error
                             (match code with
                              | Some c => c
                              | None => lit "undefined"
                              end) message)) r1
        | RejectedOther => finish (Return swallowed) r1
        | Resolved status statusText data =>
            if negb (ok_status status) then
              finish (Throw (request_error (Number_toString (Num status)) statusText)) r1
            else
              match member data (lit "retcode") with
              | None => finish (Return swallowed) r1
              | Some retcode =>
                  if must_retry retcode r1 then
                    match send_in fuel' h url method None (retrying r1) (delay 1 w2) with
                    | Some inner =>
                        Some {| result := result inner; request := request inner;
                                world := world inner;
                                trace := AxiosCall url config :: Delay 1 :: trace inner |}
                    | None => None
                    end
                  else
                    finish (Return data) (stored h cacheKey data ttl (now w2) r1)
              end
        end
  end.

(** Fuel that always suffices: one run plus one per retry still allowed. *)
Definition fuel_for (r : t) : nat := S (Z.to_nat (61 - retries r)).

Definition send (h : Host) (url : jsstring) (method : Method) (ttl : option Z)
    (r : t) (w : World) : option run :=
  send_in (fuel_for r) h url method ttl r w.

(** *** The same control flow, as a relation

    [sends h url method ttl r w e x]: the call [send(url, method, ttl)] on
    request [r] in world [w] leaves through exit [e] with run [x]. *)

Inductive exit :=
| Hit        (* served from the cache *)
| Failed     (* the [catch] rethrew a HoyolabError *)
| Swallowed  (* the [catch] returned the -9999 envelope *)
| Stored.    (* the response was cached and returned *)

Inductive sends (h : Host) (url : jsstring) (method : Method)
  : option Z -> t -> World -> exit -> run -> Prop :=
| sends_hit ttl r w :
    truthy (Cache.get h (cache r) (cache_key url method r) (now w)) = true ->
    sends h url method ttl r w Hit
      {| result := Return (Cache.get h (cache r) (cache_key url method r) (now w));
         request := r; world := w; trace := [Log cached_line] |}
| sends_rejected ttl r w r1 w1 code message :
    truthy (Cache.get h (cache r) (cache_key url method r) (now w)) = false ->
    attach_ds h r w = (r1, w1) ->
    axios h (calls w1) url (config_for method r1) = RejectedAxios code message ->
    sends h url method ttl r w Failed
      {| result := Throw (request_error
                            (match code with Some c => c | None => lit "undefined" end)
                            message);
         request := r1; world := after_exchange h w1;
         trace := [AxiosCall url (config_for method r1)] |}
| sends_status ttl r w r1 w1 status statusText data :
    truthy (Cache.get h (cache r) (cache_key url method r) (now w)) = false ->
    attach_ds h r w = (r1, w1) ->
    axios h (calls w1) url (config_for method r1) = Resolved status statusText data ->
    ok_status status = false ->
    sends h url method ttl r w Failed
      {| result := Throw (request_error (Number_toString (Num status)) statusText);
         request := r1; world := after_exchange h w1;
         trace := [AxiosCall url (config_for method r1)] |}
| sends_other ttl r w r1 w1 :
    truthy (Cache.get h (cache r) (cache_key url method r) (now w)) = false ->
    attach_ds h r w = (r1, w1) ->
    axios h (calls w1) url (config_for method r1) = RejectedOther ->
    sends h url method ttl r w Swallowed
      {| result := Return swallowed; request := r1; world := after_exchange h w1;
         trace := [AxiosCall url (config_for method r1)] |}
| sends_nullish ttl r w r1 w1 status statusText data :
    truthy (Cache.get h (cache r) (cache_key url method r) (now w)) = false ->
    attach_ds h r w = (r1, w1) ->
    axios h (calls w1) url (config_for method r1) = Resolved status statusText data ->
    ok_status status = true ->
    member data (lit "retcode") = None ->
    sends h url method ttl r w Swallowed
      {| result := Return swallowed; request := r1; world := after_exchange h w1;
         trace := [AxiosCall url (config_for method r1)] |}
| sends_retry ttl r w r1 w1 status statusText data retcode e inner :
    truthy (Cache.get h (cache r) (cache_key url method r) (now w)) = false ->
    attach_ds h r w = (r1, w1) ->
    axios h (calls w1) url (config_for method r1) = Resolved status statusText data ->
    ok_status status = true ->
    member data (lit "retcode") = Some retcode ->
    must_retry retcode r1 = true ->
    sends h url method None (retrying r1) (delay 1 (after_exchange h w1)) e inner ->
    sends h url method ttl r w e
      {| result := result inner; request := request inner; world := world inner;
         trace := AxiosCall url (config_for method r1) :: Delay 1 :: trace inner |}
| sends_stored ttl r w r1 w1 status statusText data retcode :
    truthy (Cache.get h (cache r) (cache_key url method r) (now w)) = false ->
    attach_ds h r w = (r1, w1) ->
    axios h (calls w1) url (config_for method r1) = Resolved status statusText data ->
    ok_status status = true ->
    member data (lit "retcode") = Some retcode ->
    must_retry retcode r1 = false ->
    sends h url method ttl r w Stored
      {| result := Return data;
         request := stored h (cache_key url method r) data ttl
                      (now (after_exchange h w1)) r1;
         world := after_exchange h w1;
         trace := [AxiosCall url (config_for method r1)] |}.

(** *** Reading a run *)

Definition is_delay (e : event) : bool :=
  match e with Delay _ => true | _ => false end.

Definition is_exchange (e : event) : bool :=
  match e with AxiosCall _ _ => true | _ => false end.

(** Number of retries, and of exchanges with the server, in a trace. *)
Definition retries_made (tr : list event) : nat := List.length (List.filter is_delay tr).
Definition exchanges_made (tr : list event) : nat := List.length (List.filter is_exchange tr).

(** The reply to the exchange a run ended on; [None] when the run ended
    without one, on a cache hit. *)
Definition final_reply (h : Host) (x : run) : option AxiosReply :=
  match List.last (trace x) (Log []) with
  | AxiosCall url config => Some (axios h (Nat.pred (calls (world x))) url config)
  | _ => None
  end.


(** The replies to the exchanges of a trace, in order, when the first of
    them is exchange number [n]. *)
Fixpoint replies (h : Host) (n : nat) (tr : list event) : list AxiosReply :=
  match tr with
  | [] => []
  | AxiosCall url config :: tr' => axios h n url config :: replies h (S n) tr'
  | _ :: tr' => replies h n tr'
  end.

(** The transport failed: axios rejected with an [AxiosError]. *)
Definition transport_failed (reply : AxiosReply) : Prop :=
  exists code message, reply = RejectedAxios code message.

(** The transport answered with a status that [send] does not accept. *)
Definition status_refused (reply : AxiosReply) : Prop :=
  exists status statusText data,
    reply = Resolved status statusText data /\ status <> 200 /\ status <> 201.

(** Something else than an [AxiosError] was thrown inside the [try]:
    axios rejected with another error, or the accepted response had no
    body to read [retcode] from. *)
Definition other_exception (reply : AxiosReply) : Prop :=
  reply = RejectedOther \/
  exists status statusText data,
    reply = Resolved status statusText data /\ (status = 200 \/ status = 201) /\
    member data (lit "retcode") = None.

(** An accepted response with a body. *)
Definition answered (reply : AxiosReply) (data : value) : Prop :=
  exists status statusText retcode,
    reply = Resolved status statusText data /\ (status = 200 \/ status = 201) /\
    member data (lit "retcode") = Some retcode.

(** The error [send] throws for a reply, if any: the [HoyolabError]
    "Request Error: [code] - message". *)
Definition error_of (reply : AxiosReply) : option exn :=
  match reply with
  | RejectedAxios code message =>
      Some (request_error (match code with Some c => c | None => lit "undefined" end)
              message)
  | Resolved status statusText _ =>
      if ok_status status then None
      else Some (request_error (Number_toString (Num status)) statusText)
  | RejectedOther => None
  end.

(** The time-to-live that reaches [cache.set]: the argument of the call
    if the response came without a retry, [undefined] after one. *)
Definition effective_ttl (ttl : option Z) (tr : list event) : option Z :=
  match retries_made tr with
  | O => ttl
  | S _ => None
  end.

(** An accepted response whose [retcode] is -2016. *)
Definition busy (reply : AxiosReply) : Prop :=
  exists status statusText data,
    reply = Resolved status statusText data /\ (status = 200 \/ status = 201) /\
    member data (lit "retcode") = Some (VNumber (Num (-2016))).

(** The exits, read off the run: the reply that ended it, the outcome,
    and the state left behind. *)
Definition exit_spec (h : Host) (url : jsstring) (method : Method)
    (ttl : option Z) (r : t) (e : exit) (x : run) : Prop :=
  match e with
  | Hit => True
  | Failed =>
      exists reply err,
        final_reply h x = Some reply /\
        (transport_failed reply \/ status_refused reply) /\
        error_of reply = Some err /\ result x = Throw err /\
        body (request x) = body r /\ cache (request x) = cache r /\
        retries (request x) = retries r + Z.of_nat (retries_made (trace x))
  | Swallowed =>
      exists reply,
        final_reply h x = Some reply /\ other_exception reply /\
        result x = Return swallowed /\
        body (request x) = body r /\ cache (request x) = cache r /\
        retries (request x) = retries r + Z.of_nat (retries_made (trace x))
  | Stored =>
      exists reply data,
        final_reply h x = Some reply /\ answered reply data /\
        result x = Return data /\
        body (request x) = [] /\ retries (request x) = 1 /\
        cache (request x) =
          Cache.set h (cache r) (cache_key url method r) data
            (effective_ttl ttl (trace x)) (now (world x))
  end.

(** *** Accounting of a run *)

(** Time spent in [count] exchanges, the first of which is exchange
    number [from]. *)
Fixpoint latencies (h : Host) (from count : nat) : Z :=
  match count with
  | O => 0
  | S count' => Z.of_N (latency h from) + latencies h (S from) count'
  end.

(** A letter of the ASCII alphabet. *)
Definition is_letter (c : N) : bool := is_lower c || is_upper c.

(** The DS token that [generateDS] builds from a time in seconds and a
    random string. *)
Definition ds_token (h : Host) (seconds : Z) (random : jsstring) : jsstring :=
  Number_toString (Num seconds) ++ [44%N] ++ random ++ [44%N]
  ++ md5_hex h (lit "salt=" ++ salt ++ lit "&t=" ++ Number_toString (Num seconds)
                ++ lit "&r=" ++ random).

(** The exchanges of a trace, in order: url and config of each. *)
Fixpoint exchanges (tr : list event) : list (jsstring * AxiosConfig) :=
  match tr with
  | [] => []
  | AxiosCall url config :: tr' => (url, config) :: exchanges tr'
  | _ :: tr' => exchanges tr'
  end.

(** The world in which attempt number [i] of a call begins, when the call
    itself began in [w] on request [r] and every earlier attempt was
    answered and followed by the pause of one second: [i] exchanges and
    [i] seconds later, six draws further for each signed exchange. *)
Definition world_at (h : Host) (r : t) (w : World) (i : nat) : World :=
  {| now := now w + latencies h (calls w) i + 1000 * Z.of_nat i;
     calls := calls w + i;
     draws := draws w + (if ds r then 6 * i else 0) |}.

(** The config that [send] builds on request [r] in attempt number [i]. *)
Definition config_at (h : Host) (method : Method) (r : t) (w : World) (i : nat)
    : AxiosConfig :=
  config_for method (fst (attach_ds h r (world_at h r w i))).

End Request.

(* ===================================================================== *)
(** ** src/modules/redeem *)
(* ===================================================================== *)

Module Redeem.
Import Js.

Definition hke : jsstring := lit "https://sg-hk4e-api.hoyolab.com".

(** [RedeemRoute.redeem()]. *)
Definition redeem_route : jsstring := hke ++ lit "/common/apicdkey/api/webExchangeCdkey".

(** The fields of a [RedeemModule] besides the shared [Request];
    [None] is [null]. *)
Record t := {
  lang : jsstring;
  game : jsstring;
  region : option jsstring;
  uid : option Z
}.

Definition missing_uid : exn :=
  HoyolabError (lit "UID parameter is missing or failed to be filled").

Definition nullable {A} (inj : A -> value) (o : option A) : value :=
  match o with Some a => inj a | None => VNull end.

(** The argument of [setParams] in [claim]. *)
Definition claim_params (m : t) (code : jsstring) : obj :=
  [(lit "uid", nullable (fun z => VNumber (Num z)) (uid m));
   (lit "region", nullable VString (region m));
   (lit "game_biz", VString (game m));
   (lit "cdkey", VString (replace_all 65533 [] code));
   (lit "lang", VString (lang m));
   (lit "sLangKey", VString (lang m))].

(** [claim(code)]: the run of the shared request, or the error thrown
    before the request is touched. *)
Definition claim (h : Host) (m : t) (code : jsstring) (r : Request.t) (w : World)
    : option Request.run :=
  if negb (truthy (nullable VString (region m)))
     || negb (truthy (nullable (fun z => VNumber (Num z)) (uid m)))
  then Some {| Request.result := Throw missing_uid; Request.request := r;
               Request.world := w; Request.trace := [] |}
  else Request.send h redeem_route GET None (Request.setParams r (claim_params m code)) w.

End Redeem.



(* ===================================================================== *)
(** ** src/games/hsr and src/games/hi: the region helpers *)
(* ===================================================================== *)

Module Hsr.
Import Js.

(** The keys of [enum HsrRegion]. *)
Inductive HsrRegion := USA | EUROPE | ASIA | CHINA_TAIWAN.

(** [HsrRegion[key]]. *)
Definition region_code (r : HsrRegion) : jsstring :=
  match r with
  | USA => lit "prod_official_asia"
  | EUROPE => lit "prod_official_euro"
  | ASIA => lit "prod_official_asia"
  | CHINA_TAIWAN => lit "prod_official_cht"
  end.

Definition invalid_uid (uid : number) : completion jsstring :=
  Throw (HoyolabError
           (lit "Given UID " ++ Number_toString uid ++ lit " is invalid !")).

(** [getHsrRegion(uid)]: the value of the enum member, a string. *)
Definition getHsrRegion (uid : number) : completion jsstring :=
  let server_region :=
    Number_of_char (slice01 (trim (Number_toString uid))) in
  match server_region with
  | Num 6 => Return (region_code USA)
  | Num 7 => Return (region_code EUROPE)
  | Num 8 => Return (region_code ASIA)
  | Num 9 => Return (region_code CHINA_TAIWAN)
  | _ => invalid_uid uid
  end.

End Hsr.

Module Honkai.
Import Js.

(** The keys of [enum HonkaiRegion]. *)
Inductive HonkaiRegion := USA | EUROPE | ASIA.

Definition region_code (r : HonkaiRegion) : jsstring :=
  match r with
  | USA => lit "usa01"
  | EUROPE => lit "eur01"
  | ASIA => lit "overseas01"
  end.

(** [HonkaiRegion[key]] for a key given by name: [undefined] for a name
    that the enum does not have. *)
Definition member_named (key : jsstring) : value :=
  if str_eqb key (lit "USA") then VString (region_code USA)
  else if str_eqb key (lit "EUROPE") then VString (region_code EUROPE)
  else if str_eqb key (lit "ASIA") then VString (region_code ASIA)
  else VUndefined.

Definition invalid_uid (uid : number) : completion value :=
  Throw (HoyolabError
           (lit "Given UID " ++ Number_toString uid ++ lit " is invalid !")).

(** [getHi3Region(uid)]. *)
Definition getHi3Region (uid : number) : completion value :=
  if gt uid (Num 10000000) && lt uid (Num 100000000)
  then Return (member_named (lit "ASIA"))
  else if gt uid (Num 100000000) && lt uid (Num 200000000)
  then Return (member_named (lit "USA"))
  else if gt uid (Num 200000000) && lt uid (Num 300000000)
  then Return (member_named (lit "EURO"))
  else invalid_uid uid.

End Honkai.


(* ===================================================================== *)
(** ** src/routes.ts *)
(* ===================================================================== *)

Module Routes.
Import Js.

Definition bbs : jsstring := lit "https://bbs-api-os.hoyolab.com".
Definition apiAccount : jsstring := lit "https://api-account-os.hoyolab.com".
Definition hke : jsstring := lit "https://sg-hk4e-api.hoyolab.com".
Definition sgPublic : jsstring := lit "https://sg-public-api.hoyolab.com".
Definition referer : jsstring := lit "https://act.hoyolab.com".

End Routes.

(* ===================================================================== *)
(** ** Methods of the modules and of the clients *)
(* ===================================================================== *)

(** How a method of a module settles: with a value, with an error of
    [exn], or with the [TypeError] that the engine raises when a property
    of [null] or [undefined] is read. *)
Inductive outcome (A : Type) :=
| Value (a : A)
| Raised (e : exn)
| TypeError.
Arguments Value {A} a.
Arguments Raised {A} e.
Arguments TypeError {A}.

(** What a call of such a method leaves behind: how it settled, the
    request that the modules of a client share, the world and the events
    of the call. *)
Record call (A : Type) := {
  returned : outcome A;
  request_after : Request.t;
  world_after : World;
  events : list event
}.
Arguments returned {A} c.
Arguments request_after {A} c.
Arguments world_after {A} c.
Arguments events {A} c.

Module Calls.
Import Js.

(** A [throw] before the request is touched. *)
Definition thrown {A} (e : exn) (r : Request.t) (w : World) : option (call A) :=
  Some {| returned := Raised e; request_after := r; world_after := w; events := [] |}.

(** [(await this.request.send(url, method)).data]. *)
Definition send_data (h : Host) (url : jsstring) (method : Method)
    (r : Request.t) (w : World) : option (call value) :=
  match Request.send h url method None r w with
  | None => None
  | Some x =>
      Some {| returned :=
                match Request.result x with
                | Throw e => Raised e
                | Return res =>
                    match Request.member res (lit "data") with
                    | Some data => Value data
                    | None => TypeError
                    end
                end;
              request_after := Request.request x;
              world_after := Request.world x;
              events := Request.trace x |}
  end.

Definition number_or_null (uid : option Z) : value :=
  Redeem.nullable (fun z => VNumber (Num z)) uid.

Definition string_or_null (region : option jsstring) : value :=
  Redeem.nullable VString region.

(** [!this.region || !this.uid]. *)
Definition unfilled (region : option jsstring) (uid : option Z) : bool :=
  negb (truthy (string_or_null region)) || negb (truthy (number_or_null uid)).

(** [Object.values(E).includes(v)] for an enum object [E], none of whose
    values is [NaN]. *)
Definition includes_value (values : list value) (v : value) : bool :=
  List.existsb (same_primitive v) values.

(** A parameter with a default: [undefined] takes the default. *)
Definition or_default (v default : value) : value :=
  match v with
  | VUndefined => default
  | _ => v
  end.

End Calls.

(* ===================================================================== *)
(** ** src/modules/records *)
(* ===================================================================== *)

Module Records.
Import Js Calls.

(** The fields of a [RecordModule] besides the shared [Request];
    [None] is [null]. *)
Record t := {
  lang : jsstring;
  region : option jsstring;
  uid : option Z
}.

(** The values of the object [AbyssScheduleEnum], a numeric enum: the
    names under the keys "1" and "2", then the numbers under the names. *)
Definition AbyssScheduleEnum : list value :=
  [VString (lit "CURRENT"); VString (lit "PREVIOUS");
   VNumber (Num 1); VNumber (Num 2)].

Definition baseUrl : jsstring := Routes.bbs ++ lit "/game_record/genshin/api".

(** [RecordRoute]. *)
Definition index_route : jsstring := baseUrl ++ lit "/index".
Definition character_route : jsstring := baseUrl ++ lit "/character".
Definition avatarBasicInfo_route : jsstring := baseUrl ++ lit "/avatarBasicInfo".
Definition spiralAbyss_route : jsstring := baseUrl ++ lit "/spiralAbyss".
Definition dailyNote_route : jsstring := baseUrl ++ lit "/dailyNote".

Definition invalid_schedule : exn :=
  HoyolabError (lit "The given scheduleType parameter is invalid !").

(** [records()]. *)
Definition records (h : Host) (m : t) (r : Request.t) (w : World)
    : option (call value) :=
  if unfilled (region m) (uid m) then thrown Redeem.missing_uid r w
  else
    send_data h index_route GET
      (Request.setDs
         (Request.setParams r
            [(lit "server", string_or_null (region m));
             (lit "role_id", number_or_null (uid m));
             (lit "lang", VString (lang m))])
         true) w.

(** [characters()]. *)
Definition characters (h : Host) (m : t) (r : Request.t) (w : World)
    : option (call value) :=
  if unfilled (region m) (uid m) then thrown Redeem.missing_uid r w
  else
    send_data h character_route POST
      (Request.setDs
         (Request.setBody r
            [(lit "server", string_or_null (region m));
             (lit "role_id", number_or_null (uid m))])
         true) w.

(** [charactersSummary(characterIds)]. *)
Definition charactersSummary (h : Host) (m : t) (characterIds : value)
    (r : Request.t) (w : World) : option (call value) :=
  if unfilled (region m) (uid m) then thrown Redeem.missing_uid r w
  else
    send_data h avatarBasicInfo_route POST
      (Request.setDs
         (Request.setBody r
            [(lit "character_ids", characterIds);
             (lit "role_id", number_or_null (uid m));
             (lit "server", string_or_null (region m))])
         true) w.

(** [spiralAbyss(scheduleType = AbyssScheduleEnum.CURRENT)]. *)
Definition spiralAbyss (h : Host) (m : t) (scheduleType : value)
    (r : Request.t) (w : World) : option (call value) :=
  let scheduleType := or_default scheduleType (VNumber (Num 1)) in
  if unfilled (region m) (uid m) then thrown Redeem.missing_uid r w
  else if negb (includes_value AbyssScheduleEnum scheduleType)
  then thrown invalid_schedule r w
  else
    send_data h spiralAbyss_route GET
      (Request.setDs
         (Request.setParams r
            [(lit "server", string_or_null (region m));
             (lit "role_id", number_or_null (uid m));
             (lit "schedule_type", scheduleType)])
         true) w.

(** [dailyNote()]. *)
Definition dailyNote (h : Host) (m : t) (r : Request.t) (w : World)
    : option (call value) :=
  if unfilled (region m) (uid m) then thrown Redeem.missing_uid r w
  else
    send_data h dailyNote_route GET
      (Request.setDs
         (Request.setParams r
            [(lit "server", string_or_null (region m));
             (lit "role_id", number_or_null (uid m))])
         true) w.

End Records.

(* ===================================================================== *)
(** ** src/modules/diary *)
(* ===================================================================== *)

Module Diary.
Import Js Calls.

(** The fields of a [DiaryModule] besides the shared [Request]. *)
Record t := {
  lang : jsstring;
  region : option jsstring;
  uid : option Z
}.

(** The values of the object [DiaryMonthEnum], a numeric enum. *)
Definition DiaryMonthEnum : list value :=
  [VString (lit "TWO_MONTH_AGO"); VString (lit "ONE_MONTH_AGO");
   VString (lit "CURRENT");
   VNumber (Num 3); VNumber (Num 2); VNumber (Num 1)].

(** [DiaryRoute.list()]. *)
Definition list_route : jsstring := Routes.hke ++ lit "/event/ysledgeros/month_info".

Definition invalid_month : exn :=
  HoyolabError (lit "The given month parameter is invalid !").

(** [diaries(month = DiaryMonthEnum.CURRENT)]. *)
Definition diaries (h : Host) (m : t) (month : value) (r : Request.t) (w : World)
    : option (call value) :=
  let month := or_default month (VNumber (Num 3)) in
  if unfilled (region m) (uid m) then thrown Redeem.missing_uid r w
  else if negb (includes_value DiaryMonthEnum month) then thrown invalid_month r w
  else
    send_data h list_route GET
      (Request.setDs
         (Request.setParams r
            [(lit "region", string_or_null (region m));
             (lit "uid", number_or_null (uid m));
             (lit "month", month)])
         true) w.

End Diary.

(* ===================================================================== *)
(** ** src/games/hoyolab *)
(* ===================================================================== *)

Module Hoyolab.
Import Js.

(** [options.cookie]: a cookie string or an [ICookie] object. *)
Inductive cookie_source :=
| CookieString (s : jsstring)
| CookieObject (o : obj).

(** [IHoyolabOptions]; a [lang] of [None] is [undefined]. *)
Record options := {
  cookie_option : cookie_source;
  lang_option : option jsstring
}.

Record t := {
  cookie : obj;
  request : Request.t;
  lang : jsstring
}.

(** [typeof options.cookie === "string"
      ? Cookie.parseCookieString(options.cookie) : options.cookie]. *)
Definition read_cookie (source : cookie_source) : completion obj :=
  match source with
  | CookieString s => Cookie.parseCookieString s
  | CookieObject o => Return o
  end.

(** [if (!options.lang) options.lang = Language.parseLang(cookie.mi18nLang)]. *)
Definition choose_lang (lang : option jsstring) (cookie : obj) : jsstring :=
  match lang with
  | Some (c :: rest) => c :: rest
  | _ => Language.parseLang (get cookie (lit "mi18nLang"))
  end.

(** [new Hoyolab(options)].  [this.cookie] is the object that
    [Cookie.parseCookie] has written to. *)
Definition new (o : options) : completion t :=
  let* cookie := read_cookie (cookie_option o) in
  let lang := choose_lang (lang_option o) cookie in
  let '(cookieString, cookie) := Cookie.parseCookie cookie in
  Return {| cookie := cookie;
            request := Request.setLang (Request.new (Some cookieString)) lang;
            lang := lang |}.

(** [HoyolabRoute.games()]. *)
Definition games_route : jsstring :=
  Routes.apiAccount ++ lit "/account/binding/api/getUserGameRolesByCookieToken".

Definition no_account : exn :=
  HoyolabError (lit "There is no game account on this hoyolab account !").

(** The request of [gamesList(game)] once its parameters are set. *)
Definition games_request (a : t) (game : option jsstring) : Request.t :=
  let r :=
    match game with
    | Some (c :: rest) =>
        Request.setParams (request a) [(lit "game_biz", VString (c :: rest))]
    | _ => request a
    end in
  Request.setParams r
    [(lit "uid", get (cookie a) (lit "ltuid"));
     (lit "sLangKey", get (cookie a) (lit "mi18nLang"))].

(** What [gamesList] makes of the value that [send] resolved to. *)
Definition games_of (res : value) : outcome value :=
  match Request.member res (lit "data") with
  | None => TypeError
  | Some data =>
      if negb (truthy data) then Raised no_account
      else match Request.member data (lit "list") with
           | None => TypeError
           | Some games =>
               if negb (truthy games) then Raised no_account else Value games
           end
  end.

(** [gamesList(game)]; a [game] of [None] is [undefined]. *)
Definition gamesList (h : Host) (a : t) (game : option jsstring) (w : World)
    : option (call value) :=
  match Request.send h games_route GET None (games_request a game) w with
  | None => None
  | Some x =>
      Some {| returned :=
                match Request.result x with
                | Throw e => Raised e
                | Return res => games_of res
                end;
              request_after := Request.request x;
              world_after := Request.world x;
              events := Request.trace x |}
  end.

(** The client after a call that left its request as [r]. *)
Definition with_request (a : t) (r : Request.t) : t :=
  {| cookie := cookie a; request := r; lang := lang a |}.

(** [IGame]. *)
Record IGame := {
  game_biz : jsstring;
  region : jsstring;
  game_uid : jsstring;
  nickname : jsstring;
  level : number;
  is_chosen : bool;
  region_name : jsstring;
  is_official : bool
}.

(** The callback of the [reduce] in [gameAccount]. *)
Definition higher (first second : IGame) : IGame :=
  if gt (level second) (level first) then second else first.

(** [gameAccount(game)], from the list that [gamesList(game)] resolved
    to, typed [IGame[]] as the source types it: the error on an empty list,
    and [games.reduce(...)] without an initial value. *)
Definition gameAccount_of (games : list IGame) : completion IGame :=
  match games with
  | [] => Throw no_account
  | first :: rest => Return (fold_left higher rest first)
  end.

End Hoyolab.

(* ===================================================================== *)
(** ** src/games/gi, src/games/hsr, src/games/hi: the clients *)
(* ===================================================================== *)

Module GenshinImpact.
Import Js.

(** [IGenshinOptions]; a [uid] of [None] is [undefined] or [null].  The
    constructor does not read [options.region]. *)
Record options := {
  cookie_option : Hoyolab.cookie_source;
  lang_option : option jsstring;
  uid_option : option Z
}.

Record t := {
  cookie : obj;
  request : Request.t;
  uid : option Z;
  region : option Genshin.GenshinRegion;
  lang : jsstring
}.

Definition game : jsstring := lit "hk4e_global".

(** [new GenshinImpact(options)].  The [DailyModule] that the constructor
    builds as well is given the game of the client, which its own
    constructor accepts, and is not part of the model. *)
Definition new (o : options) : completion t :=
  let* cookie := Hoyolab.read_cookie (cookie_option o) in
  let lang := Hoyolab.choose_lang (lang_option o) cookie in
  let '(cookieString, cookie) := Cookie.parseCookie cookie in
  let request :=
    Request.setLang
      (Request.setReferer (Request.new (Some cookieString)) Routes.referer) lang in
  let* region :=
    match uid_option o with
    | Some uid => let* found := Genshin.getGenshinRegion uid in Return (Some found)
    | None => Return None
    end in
  Return {| cookie := cookie; request := request; uid := uid_option o;
            region := region; lang := lang |}.

(** The modules that the constructor builds around the shared request. *)
Definition redeem (g : t) : Redeem.t :=
  {| Redeem.lang := lang g; Redeem.game := game;
     Redeem.region := option_map Genshin.region_code (region g);
     Redeem.uid := uid g |}.

Definition record (g : t) : Records.t :=
  {| Records.lang := lang g;
     Records.region := option_map Genshin.region_code (region g);
     Records.uid := uid g |}.

Definition diary (g : t) : Diary.t :=
  {| Diary.lang := lang g;
     Diary.region := option_map Genshin.region_code (region g);
     Diary.uid := uid g |}.

(** The client after a call that left the shared request as [r]. *)
Definition with_request (g : t) (r : Request.t) : t :=
  {| cookie := cookie g; request := r; uid := uid g; region := region g;
     lang := lang g |}.

(** [records()], [characters()], [charactersSummary(characterIds)],
    [spiralAbyss(scheduleType)], [dailyNote()], [diaries(month)] and
    [redeemCode(code)] hand over to the modules. *)
Definition records (h : Host) (g : t) (w : World) : option (call value) :=
  Records.records h (record g) (request g) w.

Definition characters (h : Host) (g : t) (w : World) : option (call value) :=
  Records.characters h (record g) (request g) w.

Definition charactersSummary (h : Host) (g : t) (characterIds : value) (w : World)
    : option (call value) :=
  Records.charactersSummary h (record g) characterIds (request g) w.

Definition spiralAbyss (h : Host) (g : t) (scheduleType : value) (w : World)
    : option (call value) :=
  Records.spiralAbyss h (record g) scheduleType (request g) w.

Definition dailyNote (h : Host) (g : t) (w : World) : option (call value) :=
  Records.dailyNote h (record g) (request g) w.

Definition diaries (h : Host) (g : t) (month : value) (w : World)
    : option (call value) :=
  Diary.diaries h (diary g) month (request g) w.

Definition redeemCode (h : Host) (g : t) (code : jsstring) (w : World)
    : option Request.run :=
  Redeem.claim h (redeem g) code (request g) w.

End GenshinImpact.

Module HonkaiStarRail.
Import Js.

(** [IHsrOptions]. *)
Record options := {
  cookie_option : Hoyolab.cookie_source;
  lang_option : option jsstring;
  uid_option : option Z
}.

Record t := {
  cookie : obj;
  request : Request.t;
  uid : option Z;
  region : option jsstring;
  lang : jsstring
}.

Definition game : jsstring := lit "hkrpg_global".

(** [new HonkaiStarRail(options)], without its [DailyModule]. *)
Definition new (o : options) : completion t :=
  let* cookie := Hoyolab.read_cookie (cookie_option o) in
  let lang := Hoyolab.choose_lang (lang_option o) cookie in
  let '(cookieString, cookie) := Cookie.parseCookie cookie in
  let request :=
    Request.setLang
      (Request.setReferer (Request.new (Some cookieString)) Routes.referer) lang in
  let* region :=
    match uid_option o with
    | Some uid => let* found := Hsr.getHsrRegion (Num uid) in Return (Some found)
    | None => Return None
    end in
  Return {| cookie := cookie; request := request; uid := uid_option o;
            region := region; lang := lang |}.

Definition redeem (g : t) : Redeem.t :=
  {| Redeem.lang := lang g; Redeem.game := game;
     Redeem.region := region g; Redeem.uid := uid g |}.

(** [redeemCode(code)]. *)
Definition redeemCode (h : Host) (g : t) (code : jsstring) (w : World)
    : option Request.run :=
  Redeem.claim h (redeem g) code (request g) w.

End HonkaiStarRail.

Module HonkaiImpact.
Import Js.

(** [IHi3Options]. *)
Record options := {
  cookie_option : Hoyolab.cookie_source;
  lang_option : option jsstring;
  uid_option : option Z
}.

(** [region] is what [getHi3Region] returned, a string or [undefined],
    or [null] without a UID. *)
Record t := {
  cookie : obj;
  request : Request.t;
  uid : option Z;
  region : value;
  lang : jsstring
}.

Definition game : jsstring := lit "bh3_global".

(** [new HonkaiImpact(options)], without its [DailyModule]. *)
Definition new (o : options) : completion t :=
  let* cookie := Hoyolab.read_cookie (cookie_option o) in
  let lang := Hoyolab.choose_lang (lang_option o) cookie in
  let '(cookieString, cookie) := Cookie.parseCookie cookie in
  let request :=
    Request.setLang
      (Request.setReferer (Request.new (Some cookieString)) Routes.referer) lang in
  let* region :=
    match uid_option o with
    | Some uid => Honkai.getHi3Region (Num uid)
    | None => Return VNull
    end in
  Return {| cookie := cookie; request := request; uid := uid_option o;
            region := region; lang := lang |}.

(** The [RedeemModule] of the client.  Its region is a string, [null] or
    [undefined]; [claim] refuses the last two alike before it reads the
    region, and both are [None] here. *)
Definition redeem (g : t) : Redeem.t :=
  {| Redeem.lang := lang g; Redeem.game := game;
     Redeem.region := match region g with VString code => Some code | _ => None end;
     Redeem.uid := uid g |}.

(** [redeemCode(code)]. *)
Definition redeemCode (h : Host) (g : t) (code : jsstring) (w : World)
    : option Request.run :=
  Redeem.claim h (redeem g) code (request g) w.

End HonkaiImpact.

(* ===================================================================== *)
(** ** Concrete hosts and inputs for the examples *)
(* ===================================================================== *)

Module Examples.
Import Js.

(** An envelope [{ retcode, message: "OK", data: null }]. *)
Definition envelope (retcode : Z) : value :=
  VObject [(lit "retcode", VNumber (Num retcode));
           (lit "message", VString (lit "OK"));
           (lit "data", VNull)].

Definition method_name (m : Method) : jsstring :=
  match m with GET => lit "GET" | POST => lit "POST" end.

Definition show_props (o : obj) : jsstring :=
  List.flat_map (fun kv => fst kv ++ [58%N] ++ ToString (snd kv) ++ [44%N]) o.

(** A host whose n-th exchange is answered by [script n] after 120 ms.
    Its serialiser and digest are stand-ins for [JSON.stringify] and MD5;
    the runs below use a single cache key and do not depend on them. *)
Definition scripted (script : nat -> AxiosReply) : Host :=
  {| md5_hex := fun s => s;
     JSON_stringify := fun k =>
       key_url k ++ [32%N] ++ method_name (key_method k) ++ [32%N]
       ++ show_props (key_body k) ++ [32%N] ++ show_props (key_params k);
     axios := fun n _ _ => script n;
     latency := fun _ => 120%N;
     random_index := fun n => (N.of_nat n mod 52)%N |}.

Definition ok (retcode : Z) : AxiosReply := Resolved 200 (lit "OK") (envelope retcode).

Definition always_busy : Host := scripted (fun _ => ok (-2016)).

(** One -2016 answer, then retcode 0. *)
Definition busy_once : Host :=
  scripted (fun n => match n with O => ok (-2016) | _ => ok 0 end).

(** One -2016 answer, then a network failure. *)
Definition busy_then_down : Host :=
  scripted (fun n => match n with
                     | O => ok (-2016)
                     | _ => RejectedAxios (Some (lit "ECONNRESET")) (lit "socket hang up")
                     end).

Definition down : Host :=
  scripted (fun _ => RejectedAxios (Some (lit "ECONNRESET")) (lit "socket hang up")).

(** HTTP 204: a status of the 2xx class that axios resolves. *)
Definition no_content : Host :=
  scripted (fun _ => Resolved 204 (lit "No Content") (VString [])).

(** HTTP 202 with an envelope whose retcode is -2016. *)
Definition busy_accepted : Host :=
  scripted (fun _ => Resolved 202 (lit "Accepted") (envelope (-2016))).

Definition info_url : jsstring := lit "https://sg-hk4e-api.hoyolab.com/event/sol/info".

Definition start : World := {| now := 1700000000000; calls := 0; draws := 0 |}.

(** The world [ms] milliseconds later. *)
Definition later (ms : Z) (w : World) : World :=
  {| now := now w + ms; calls := calls w; draws := draws w |}.

(** The cache key of a GET of [info_url] on a fresh request. *)
Definition info_key : CacheKey := Request.cache_key info_url GET (Request.new None).

(** A cache that holds an answer under [info_key], stored at [start]. *)
Definition warm : Cache.t :=
  Cache.set down Cache.new info_key (envelope 0) None (now start).

(** A fresh request on the cache [c]. *)
Definition on_cache (c : Cache.t) : Request.t :=
  {| Request.headers := Request.headers (Request.new None);
     Request.body := []; Request.params := [];
     Request.cache := c; Request.ds := false; Request.retries := 1 |}.

(** Three accounts of levels 10, 60 and 60. *)
Definition account (uid : string) (level : Z) : Hoyolab.IGame :=
  {| Hoyolab.game_biz := lit "hk4e_global"; Hoyolab.region := lit "os_usa";
     Hoyolab.game_uid := lit uid; Hoyolab.nickname := lit "Traveler";
     Hoyolab.level := Num level; Hoyolab.is_chosen := false;
     Hoyolab.region_name := lit "America Server"; Hoyolab.is_official := true |}.

Definition accounts : list Hoyolab.IGame :=
  [account "600000001" 10; account "600000002" 60; account "600000003" 60].

End Examples.
(* ===================================================================== *)
(** * Properties *)
(* ===================================================================== *)

(** ** Decimal printing and the leading digit *)

Module NumberFacts.
Import Js.

Lemma pos_lt_pow2_size (p : positive) : Zpos p < 2 ^ Z.of_nat (Pos.size_nat p).
Proof.
  induction p as [p IH | p IH |]; cbn [Pos.size_nat].
  - rewrite Nat2Z.inj_succ, Z.pow_succ_r by lia. lia.
  - rewrite Nat2Z.inj_succ, Z.pow_succ_r by lia. lia.
  - cbn. lia.
Qed.

Lemma pow10_ge_pow2 (k : nat) : 2 ^ Z.of_nat k <= 10 ^ Z.of_nat k.
Proof. apply Z.pow_le_mono_l. lia. Qed.

(** A number with [k + 1] decimal digits fits the budget. *)
Lemma digit_budget_enough (z : Z) (k : nat) :
  10 ^ Z.of_nat k <= z -> (k < digit_budget z)%nat.
Proof.
  intros Hz.
  assert (0 < 10 ^ Z.of_nat k) by (apply Z.pow_pos_nonneg; lia).
  destruct z as [| p | p]; try lia.
  cbn [digit_budget].
  pose proof (pos_lt_pow2_size p) as Hp.
  destruct (Nat.lt_ge_cases k (S (Pos.size_nat p))) as [|Hge]; [assumption|].
  exfalso.
  assert (10 ^ Z.of_nat (Pos.size_nat p) <= 10 ^ Z.of_nat k)
    by (apply Z.pow_le_mono_r; lia).
  pose proof (pow10_ge_pow2 (Pos.size_nat p)). lia.
Qed.

(** The first character printed is the leading decimal digit. *)
Lemma digits_of_head (k : nat) :
  forall fuel d z,
    1 <= d <= 9 ->
    d * 10 ^ Z.of_nat k <= z < (d + 1) * 10 ^ Z.of_nat k ->
    (k < fuel)%nat ->
    exists tail, digits_of fuel z = Z.to_N (48 + d) :: tail.
Proof.
  induction k as [|k IH]; intros fuel d z Hd Hz Hfuel;
    (destruct fuel as [|fuel]; [lia|]); cbn [digits_of].
  - cbn in Hz. assert (z = d) by lia. subst z.
    destruct (Z.ltb_spec d 10); [|lia]. now exists [].
  - rewrite Nat2Z.inj_succ, Z.pow_succ_r in Hz by lia.
    assert (0 < 10 ^ Z.of_nat k) by (apply Z.pow_pos_nonneg; lia).
    destruct (Z.ltb_spec z 10); [nia|].
    destruct (IH fuel d (z / 10) Hd) as [tail Htail]; [|lia|].
    + split.
      * apply Z.div_le_lower_bound; nia.
      * apply Z.div_lt_upper_bound; nia.
    + rewrite Htail. now eexists.
Qed.

Lemma trimStart_keeps_last (c : N) (s : jsstring) :
  is_space c = false -> exists s', trimStart (s ++ [c]) = s' ++ [c].
Proof.
  intros Hc. induction s as [|x s IH]; cbn.
  - rewrite Hc. now exists [].
  - destruct (is_space x); [assumption|]. now exists (x :: s).
Qed.

(** [trim] keeps a first character that is not white space. *)
Lemma trim_head (c : N) (s : jsstring) :
  is_space c = false -> exists s', trim (c :: s) = c :: s'.
Proof.
  intros Hc. unfold trim, trimEnd. cbn [trimStart]. rewrite Hc.
  cbn [rev]. destruct (trimStart_keeps_last c (rev s) Hc) as [s' ->].
  rewrite rev_app_distr. cbn. now eexists.
Qed.

Lemma digit_char (d : Z) :
  0 <= d <= 9 ->
  is_space (Z.to_N (48 + d)) = false /\
  is_digit (Z.to_N (48 + d)) = true /\
  Z.of_N (Z.to_N (48 + d)) - 48 = d.
Proof.
  intros Hd.
  assert (Hcases : d = 0 \/ d = 1 \/ d = 2 \/ d = 3 \/ d = 4 \/ d = 5 \/
                   d = 6 \/ d = 7 \/ d = 8 \/ d = 9) by lia.
  repeat (destruct Hcases as [-> | Hcases]; [now vm_compute|]).
  subst. now vm_compute.
Qed.

(** Up to 2^53 - 1 every integer is a double, and prints with all its
    digits. *)
Lemma to_double_safe (z : Z) : 0 <= z <= max_safe_integer -> to_double z = z.
Proof.
  intros Hz. unfold to_double.
  destruct (Z.leb_spec (Z.log2 z - 52) 0) as [|Hbig]; [reflexivity|].
  exfalso. destruct (Z.eq_dec z 0) as [-> | Hpos]; [now cbn in Hbig|].
  destruct (Z.log2_spec z ltac:(lia)) as [Hlow _].
  assert (2 ^ 53 <= 2 ^ Z.log2 z) by (apply Z.pow_le_mono_r; lia).
  unfold max_safe_integer in Hz. change (2 ^ 53) with 9007199254740992 in *. lia.
Qed.

Lemma print_magnitude_safe (z : Z) :
  z <= max_safe_integer -> print_magnitude z = digits_of (digit_budget z) z.
Proof.
  intros Hz. unfold print_magnitude.
  now destruct (Z.leb_spec z max_safe_integer); [|lia].
Qed.

Lemma Number_toString_safe (z : Z) :
  0 <= z <= max_safe_integer ->
  Number_toString (Num z) = digits_of (digit_budget z) z.
Proof.
  intros Hz. unfold Number_toString.
  destruct (Z.ltb_spec z 0); [lia|]. apply print_magnitude_safe. lia.
Qed.

(** What [getGenshinRegion] reads off a positive UID, a safe integer:
    its leading digit. *)
Lemma server_region_of_uid (uid d : Z) (k : nat) :
  1 <= d <= 9 ->
  d * 10 ^ Z.of_nat k <= uid < (d + 1) * 10 ^ Z.of_nat k ->
  uid <= max_safe_integer ->
  Number_of_char (slice01 (trim (Number_toString (Num uid)))) = Num d.
Proof.
  intros Hd Huid Hsafe.
  assert (0 < 10 ^ Z.of_nat k) by (apply Z.pow_pos_nonneg; lia).
  rewrite Number_toString_safe by nia.
  destruct (digits_of_head k (digit_budget uid) d uid Hd Huid) as [tail ->].
  { apply digit_budget_enough. nia. }
  destruct (digit_char d) as (Hs & Hdig & Hval); [lia|].
  destruct (trim_head _ tail Hs) as [s' ->].
  cbn [slice01 firstn Number_of_char]. now rewrite Hs, Hdig, Hval.
Qed.

Lemma server_region_of_nonpositive (uid : Z) :
  uid <= 0 ->
  Number_of_char (slice01 (trim (Number_toString (Num uid)))) = Num 0 \/
  Number_of_char (slice01 (trim (Number_toString (Num uid)))) = NaN.
Proof.
  intros Huid. unfold Number_toString.
  destruct (Z.ltb_spec uid 0).
  - right. destruct (trim_head 45%N (print_magnitude (- uid)))
      as [s' ->]; [reflexivity|]. reflexivity.
  - left. assert (uid = 0) by lia. subst. reflexivity.
Qed.

(** *** Printing and reading back *)

Lemma digit_budget_bound (z : Z) : 0 <= z -> z < 10 ^ Z.of_nat (digit_budget z).
Proof.
  intros Hz. destruct z as [| p | p]; [reflexivity | | lia].
  cbn [digit_budget]. pose proof (pos_lt_pow2_size p).
  pose proof (pow10_ge_pow2 (Pos.size_nat p)).
  rewrite Nat2Z.inj_succ, Z.pow_succ_r by lia. lia.
Qed.

Lemma digits_of_are_digits (fuel : nat) :
  forall z, 0 <= z -> Forall (fun c => is_digit c = true) (digits_of fuel z).
Proof.
  induction fuel as [|fuel IH]; intros z Hz; cbn [digits_of]; [constructor|].
  destruct (Z.ltb_spec z 10).
  - constructor; [|constructor]. apply digit_char. lia.
  - apply Forall_app. split.
    + apply IH. apply Z.div_pos; lia.
    + constructor; [|constructor]. apply digit_char.
      pose proof (Z.mod_pos_bound z 10). lia.
Qed.

Lemma digits_of_nonempty (fuel : nat) (z : Z) : digits_of (S fuel) z <> [].
Proof.
  cbn [digits_of]. destruct (z <? 10); [discriminate|].
  intros H. apply app_eq_nil in H as [_ H]. discriminate.
Qed.

Lemma read_digits_step (acc : Z) (d : Z) (rest : jsstring) :
  0 <= d <= 9 ->
  read_digits (Some acc) (Z.to_N (48 + d) :: rest)
  = read_digits (Some (10 * acc + d)) rest.
Proof.
  intros Hd. destruct (digit_char d Hd) as (_ & Hdig & Hval).
  cbn [read_digits]. now rewrite Hdig, Hval.
Qed.

Lemma budget_succ (z : Z) : digit_budget z = S (Nat.pred (digit_budget z)).
Proof. now destruct z. Qed.

Lemma digits_of_S (fuel : nat) (z : Z) :
  digits_of (S fuel) z
  = if z <? 10 then [Z.to_N (48 + z)]
    else digits_of fuel (z / 10) ++ [Z.to_N (48 + z mod 10)].
Proof. reflexivity. Qed.

(** Reading the digits just printed gives the number back. *)
Lemma read_digits_of (fuel : nat) :
  forall z rest,
    0 <= z < 10 ^ Z.of_nat (S fuel) ->
    read_digits None (digits_of (S fuel) z ++ rest) = read_digits (Some z) rest.
Proof.
  induction fuel as [|fuel IH]; intros z rest Hz;
    rewrite Nat2Z.inj_succ, Z.pow_succ_r in Hz by lia;
    rewrite digits_of_S; destruct (Z.ltb_spec z 10).
  - cbn [app]. destruct (digit_char z ltac:(lia)) as (_ & Hdig & Hval).
    cbn [read_digits]. rewrite Hdig, Hval. repeat f_equal; lia.
  - cbn in Hz. lia.
  - cbn [app]. destruct (digit_char z ltac:(lia)) as (_ & Hdig & Hval).
    cbn [read_digits]. rewrite Hdig, Hval. repeat f_equal; lia.
  - rewrite <- app_assoc, IH.
    + cbn [app]. rewrite read_digits_step by (pose proof (Z.mod_pos_bound z 10); lia).
      repeat f_equal; pose proof (Z.div_mod z 10); lia.
    + split; [apply Z.div_pos; lia | apply Z.div_lt_upper_bound; lia].
Qed.

(** *** The characters of a printed number *)

Lemma to_double_nonneg (z : Z) : 0 <= z -> 0 <= to_double z.
Proof.
  intros Hz. unfold to_double.
  destruct (Z.log2 z - 52 <=? 0); [assumption|].
  match goal with |- 0 <= (if ?c then _ else _) => destruct c end;
    [now vm_compute|].
  apply Z.shiftl_nonneg.
  assert (0 <= Z.shiftr z (Z.log2 z - 52)) by now apply Z.shiftr_nonneg.
  destruct (_ || _); lia.
Qed.

Lemma shortest_nonneg (fuel : nat) :
  forall k n x, 0 <= x -> 0 <= fst (shortest fuel k n x).
Proof.
  induction fuel as [|fuel IH]; intros k n x Hx; cbn [shortest]; [assumption|].
  assert (0 < 10 ^ Z.of_nat (n - k)) by (apply Z.pow_pos_nonneg; lia).
  assert (0 <= x / 10 ^ Z.of_nat (n - k)) by (apply Z.div_pos; lia).
  destruct (_ && _); [assumption|].
  destruct (_ && _); [cbn [fst]; lia|]. now apply IH.
Qed.

Lemma digits_printed (z : Z) :
  0 <= z -> Forall printed (digits_of (digit_budget z) z).
Proof.
  intros Hz. eapply Forall_impl; [|now apply digits_of_are_digits].
  intros c Hc. now left.
Qed.

Lemma literal_printed (l : jsstring) :
  List.forallb (fun c => List.existsb (N.eqb c) (lit "-.e+Infinity")) l = true ->
  Forall printed l.
Proof.
  intros Hl. apply Forall_forall. intros c Hc. right.
  rewrite forallb_forall in Hl. specialize (Hl c Hc).
  apply existsb_exists in Hl as (x & Hx & Heq).
  apply N.eqb_eq in Heq. now subst.
Qed.

Lemma exponent_form_printed (digits : jsstring) (e : Z) :
  Forall printed digits -> 0 <= e -> Forall printed (exponent_form digits e).
Proof.
  intros Hd He.
  assert (Hexp : Forall printed (lit "e+" ++ digits_of (digit_budget e) e)).
  { apply Forall_app. split; [|now apply digits_printed].
    now apply literal_printed. }
  unfold exponent_form. destruct digits as [|d [|d' rest]]; [constructor| |].
  - inversion Hd; subst. now constructor.
  - inversion Hd as [|? ? Hd0 Hrest]; subst.
    constructor; [assumption|].
    apply (Forall_app _ [46%N]). split; [now apply literal_printed|].
    apply Forall_app. now split.
Qed.

Lemma print_double_printed (x : Z) : 0 <= x -> Forall printed (print_double x).
Proof.
  intros Hx. unfold print_double.
  set (n := List.length (digits_of (digit_budget x) x)).
  assert (Hzeros : forall m, Forall printed (repeat 48%N m)).
  { intros m. induction m; cbn [repeat]; constructor; [now left | assumption]. }
  destruct (to_double (10 ^ Z.of_nat n) =? x).
  - destruct (S n <=? 21)%nat.
    + apply Forall_app. split; [now apply digits_printed | apply Hzeros].
    + apply exponent_form_printed; [now apply digits_printed | lia].
  - pose proof (shortest_nonneg n 1 n x Hx) as Hs.
    destruct (shortest n 1 n x) as [s k]. cbn [fst] in Hs.
    destruct (n <=? 21)%nat eqn:Hn.
    + apply Forall_app. split; [now apply digits_printed | apply Hzeros].
    + apply exponent_form_printed; [now apply digits_printed|].
      apply Nat.leb_gt in Hn. lia.
Qed.

Lemma print_magnitude_printed (z : Z) : 0 <= z -> Forall printed (print_magnitude z).
Proof.
  intros Hz. unfold print_magnitude.
  destruct (z <=? max_safe_integer); [now apply digits_printed|].
  destruct (infinity <=? to_double z).
  - now apply literal_printed.
  - apply print_double_printed. now apply to_double_nonneg.
Qed.

(** The characters of a printed integer. *)
Lemma Number_toString_chars (u : Z) : Forall printed (Number_toString (Num u)).
Proof.
  unfold Number_toString. destruct (Z.ltb_spec u 0).
  - apply (Forall_app _ [45%N]). split; [now apply literal_printed|].
    apply print_magnitude_printed. lia.
  - now apply print_magnitude_printed.
Qed.

Lemma digit_plain (c : N) :
  is_digit c = true ->
  is_space c = false /\ c <> 59%N /\ c <> 61%N /\ c <> 37%N /\ c <> 43%N /\ c <> 45%N.
Proof.
  intros Hd.
  unfold is_digit in Hd. apply andb_prop in Hd as [Hlo Hhi].
  apply N.leb_le in Hlo, Hhi.
  repeat split; try lia.
  unfold is_space. apply orb_false_intro.
  - cbn [List.existsb].
    repeat (apply orb_false_intro; [apply N.eqb_neq; lia|]). reflexivity.
  - apply andb_false_intro1. apply N.leb_gt. lia.
Qed.

(** None of them is white space, ";", "=" or "%". *)
Lemma printed_plain (c : N) :
  printed c -> is_space c = false /\ c <> 59%N /\ c <> 61%N /\ c <> 37%N.
Proof.
  intros [Hd | Hin].
  - destruct (digit_plain c Hd) as (? & ? & ? & ? & _). tauto.
  - vm_compute in Hin.
    repeat (destruct Hin as [<- | Hin];
            [repeat split; (reflexivity || discriminate)|]).
    destruct Hin.
Qed.

(** [parseInt] reads a printed safe integer back. *)
Lemma parseInt10_toString (u : Z) :
  Z.abs u <= max_safe_integer -> parseInt10 (Number_toString (Num u)) = Num u.
Proof.
  intros Hsafe. unfold parseInt10, Number_toString. destruct (Z.ltb_spec u 0).
  - rewrite print_magnitude_safe by lia.
    cbn [trimStart]. change (is_space 45) with false. cbv iota.
    change (45 =? 45)%N with true. cbv iota.
    rewrite <- (app_nil_r (digits_of _ _)), budget_succ, read_digits_of.
    + cbn [read_digits]. rewrite to_double_safe by lia. f_equal; lia.
    + rewrite <- budget_succ. split; [lia | apply digit_budget_bound; lia].
  - rewrite print_magnitude_safe by lia.
    pose proof (digits_of_are_digits (digit_budget u) u ltac:(lia)) as Hd.
    destruct (digits_of (digit_budget u) u) as [|c tail] eqn:E.
    { exfalso. unfold digit_budget in E.
      destruct u; eapply digits_of_nonempty; exact E. }
    inversion Hd as [|? ? Hc _]; subst.
    destruct (digit_plain c Hc) as (Hs & _ & _ & _ & Hplus & Hminus).
    cbn [trimStart]. rewrite Hs.
    destruct (N.eqb_spec c 45); [contradiction|].
    destruct (N.eqb_spec c 43); [contradiction|].
    rewrite <- E, <- (app_nil_r (digits_of _ _)), budget_succ, read_digits_of.
    + cbn [read_digits]. rewrite to_double_safe by lia. f_equal; lia.
    + rewrite <- budget_succ. split; [lia | apply digit_budget_bound; lia].
Qed.

(** *** Beyond the safe integers *)

(** From 10^21 on a number prints in exponent form, and the double just
    below 10^23 prints as that power of ten. *)
Lemma Number_toString_large :
  Number_toString (Num (10 ^ 21)) = lit "1e+21" /\
  Number_toString (Num 99999999999999991611392) = lit "1e+23" /\
  Number_toString (Num (2 ^ 64)) = lit "18446744073709552000" /\
  Number_toString (Num (- 2 ^ 70)) = lit "-1.1805916207174113e+21" /\
  Number_toString (Num (2 ^ 1024)) = lit "Infinity" /\
  parseInt10 (lit "999999999999999999999") = Num (10 ^ 21) /\
  parseInt10 (lit "9007199254740993") = Num 9007199254740992.
Proof. repeat split; now vm_compute. Qed.

End NumberFacts.

(** ** Region resolver *)

Module GenshinFacts.
Import Js Genshin NumberFacts.

(** C8, amended.  A UID that is a safe integer (at most 2^53 - 1) and
    whose leading decimal digit is 6, 7, 8 or 9 resolves to USA
    ("os_usa"), EUROPE ("os_euro"), ASIA ("os_asia") or CHINA_TAIWAN
    ("os_cht"); a safe integer with any other leading digit, and every
    UID that is not positive, makes the resolver throw the HoyolabError
    "Given UID ... is invalid !".  In particular 601234567 is USA,
    701234567 is EUROPE and a UID starting with 1 is refused. *)
Theorem getGenshinRegion_leading_digit :
  (forall (uid d : Z) (k : nat),
      1 <= d <= 9 ->
      d * 10 ^ Z.of_nat k <= uid < (d + 1) * 10 ^ Z.of_nat k ->
      uid <= max_safe_integer ->
      getGenshinRegion uid =
        if d =? 6 then Return USA
        else if d =? 7 then Return EUROPE
        else if d =? 8 then Return ASIA
        else if d =? 9 then Return CHINA_TAIWAN
        else invalid_uid uid) /\
  (forall uid, uid <= 0 -> getGenshinRegion uid = invalid_uid uid) /\
  region_code USA = lit "os_usa" /\
  region_code EUROPE = lit "os_euro" /\
  region_code ASIA = lit "os_asia" /\
  region_code CHINA_TAIWAN = lit "os_cht" /\
  getGenshinRegion 601234567 = Return USA /\
  getGenshinRegion 701234567 = Return EUROPE /\
  getGenshinRegion 101234567 = invalid_uid 101234567.
Proof.
  split; [|split].
  - intros uid d k Hd Huid Hsafe. unfold getGenshinRegion, invalid_uid.
    rewrite (server_region_of_uid uid d k Hd Huid Hsafe).
    assert (Hcases : d = 1 \/ d = 2 \/ d = 3 \/ d = 4 \/ d = 5 \/
                     d = 6 \/ d = 7 \/ d = 8 \/ d = 9) by lia.
    repeat (destruct Hcases as [-> | Hcases]; [reflexivity|]).
    subst. reflexivity.
  - intros uid Huid. unfold getGenshinRegion, invalid_uid.
    destruct (server_region_of_nonpositive uid Huid) as [-> | ->]; reflexivity.
  - repeat split; reflexivity.
Qed.

Lemma getGenshinRegion_leading_digit_witness :
  (1 <= 6 <= 9) /\
  (6 * 10 ^ Z.of_nat 8 <= 601234567 < (6 + 1) * 10 ^ Z.of_nat 8) /\
  601234567 <= max_safe_integer /\
  getGenshinRegion 601234567 = Return USA.
Proof.
  split; [lia|]. split; [cbn; lia|]. split; [now vm_compute|].
  apply (proj1 getGenshinRegion_leading_digit 601234567 6 8%nat);
    [lia | cbn; lia | now vm_compute].
Defined.

(** C8, as stated, fails beyond the safe integers: the resolver reads the
    first character of the printed number, and from 10^21 on a number
    prints in exponent form.  The double 99999999999999991611392, whose
    leading decimal digit is 9, prints as "1e+23" and is refused. *)
Lemma getGenshinRegion_reads_the_printed_form :
  9 * 10 ^ 22 <= 99999999999999991611392 < (9 + 1) * 10 ^ 22 /\
  to_double 99999999999999991611392 = 99999999999999991611392 /\
  Number_toString (Num 99999999999999991611392) = lit "1e+23" /\
  getGenshinRegion 99999999999999991611392
  = Throw (HoyolabError (lit "Given UID 1e+23 is invalid !")) /\
  getGenshinRegion 99999999999999991611392 <> Return CHINA_TAIWAN.
Proof.
  split; [lia|]. split; [now vm_compute|]. split; [now vm_compute|].
  split; [now vm_compute|]. vm_compute. discriminate.
Qed.

End GenshinFacts.

(** ** Objects *)

Module ObjFacts.
Import Js.

Lemma str_eqb_eq (a b : jsstring) : str_eqb a b = true <-> a = b.
Proof. unfold str_eqb. apply bool_decide_eq_true. Qed.

Lemma str_eqb_refl (a : jsstring) : str_eqb a a = true.
Proof. now apply str_eqb_eq. Qed.

Lemma str_eqb_neq (a b : jsstring) : a <> b -> str_eqb a b = false.
Proof. intros H. unfold str_eqb. now apply bool_decide_eq_false. Qed.

Lemma get_set_same (o : obj) (k : jsstring) (v : value) : get (set o k v) k = v.
Proof.
  induction o as [|[k' v'] o IH]; cbn.
  - now rewrite str_eqb_refl.
  - destruct (str_eqb k' k) eqn:E; cbn.
    + now rewrite str_eqb_refl.
    + now rewrite E.
Qed.

Lemma get_set_other (o : obj) (k k' : jsstring) (v : value) :
  k <> k' -> get (set o k v) k' = get o k'.
Proof.
  intros Hne. induction o as [|[k0 v0] o IH]; cbn.
  - now rewrite str_eqb_neq.
  - destruct (str_eqb k0 k) eqn:E; cbn.
    + apply str_eqb_eq in E. subst k0. now rewrite !str_eqb_neq.
    + destruct (str_eqb k0 k'); [reflexivity | assumption].
Qed.

End ObjFacts.

(** ** Strings *)

Module StringFacts.
Import Js.

Lemma Forall_trimStart (P : N -> Prop) (s : jsstring) :
  Forall P s -> Forall P (trimStart s).
Proof.
  induction 1 as [|c s Hc Hs IH]; cbn; [constructor|].
  destruct (is_space c); [assumption | now constructor].
Qed.

Lemma Forall_trim (P : N -> Prop) (s : jsstring) : Forall P s -> Forall P (trim s).
Proof.
  intros H. unfold trim, trimEnd.
  apply Forall_rev, Forall_trimStart, Forall_rev, Forall_trimStart, H.
Qed.

Lemma Forall_split (P : N -> Prop) (sep : N) (s : jsstring) :
  Forall P s -> Forall (Forall P) (split sep s).
Proof.
  induction 1 as [|c s Hc Hs IH]; cbn; [repeat constructor|].
  destruct (N.eqb c sep); [now repeat constructor|].
  destruct (split sep s) as [|w ws]; [repeat constructor; assumption|].
  inversion IH; subst. constructor; [now constructor | assumption].
Qed.

(** Without a percent sign there is nothing to decode. *)
Lemma decode_plain (s : jsstring) :
  Forall (fun c => c <> 37%N) s -> decodeURIComponent s = Some s.
Proof.
  unfold decodeURIComponent. induction 1 as [|c s Hc Hs IH]; cbn [decode_from];
    [reflexivity|].
  destruct (N.eqb_spec c 37); [contradiction|]. now rewrite IH.
Qed.

Lemma Forall_trimEnd (P : N -> Prop) (s : jsstring) :
  Forall P s -> Forall P (trimEnd s).
Proof. intros H. unfold trimEnd. apply Forall_rev, Forall_trimStart, Forall_rev, H. Qed.

Lemma split_nonempty (sep : N) (s : jsstring) : split sep s <> [].
Proof.
  destruct s as [|c s]; cbn; [discriminate|].
  destruct (N.eqb c sep); [discriminate|]. destruct (split sep s); discriminate.
Qed.

(** Splitting a string that has no separator. *)
Lemma split_none (sep : N) (s : jsstring) :
  Forall (fun c => c <> sep) s -> split sep s = [s].
Proof.
  induction 1 as [|c s Hc Hs IH]; cbn; [reflexivity|].
  destruct (N.eqb_spec c sep); [contradiction|]. now rewrite IH.
Qed.

(** Splitting at the first separator. *)
Lemma split_app (sep : N) (a b : jsstring) :
  Forall (fun c => c <> sep) a -> split sep (a ++ sep :: b) = a :: split sep b.
Proof.
  induction 1 as [|c a Hc Ha IH]; cbn.
  - now rewrite N.eqb_refl.
  - destruct (N.eqb_spec c sep); [contradiction|]. now rewrite IH.
Qed.

Lemma trimStart_app (a : jsstring) (c : N) (b : jsstring) :
  is_space c = false -> trimStart (a ++ c :: b) = trimStart a ++ c :: b.
Proof.
  intros Hc. induction a as [|x a IH]; cbn.
  - now rewrite Hc.
  - destruct (is_space x); [assumption | reflexivity].
Qed.

(** [trimEnd] stops at a character that is not white space. *)
Lemma trimEnd_app (a : jsstring) (c : N) (b : jsstring) :
  is_space c = false -> trimEnd (a ++ c :: b) = a ++ c :: trimEnd b.
Proof.
  intros Hc. unfold trimEnd.
  rewrite rev_app_distr. cbn [rev]. rewrite <- app_assoc. cbn [app].
  rewrite trimStart_app by assumption.
  rewrite rev_app_distr. cbn [rev]. rewrite rev_involutive, <- app_assoc. reflexivity.
Qed.

Lemma trimEnd_clean (s : jsstring) :
  ends_with_space s = false -> trimEnd s = s.
Proof.
  unfold ends_with_space, trimEnd. destruct (rev s) as [|c t] eqn:E.
  - intros _. cbn. apply (f_equal (@rev N)) in E. now rewrite rev_involutive in E.
  - intros Hc. cbn [trimStart]. rewrite Hc, <- E. apply rev_involutive.
Qed.

Lemma no_space_clean (s : jsstring) :
  Forall (fun c => is_space c = false) s -> ends_with_space s = false.
Proof.
  intros H. unfold ends_with_space. apply Forall_rev in H.
  destruct (rev s); [reflexivity|]. now inversion H.
Qed.

(** Splitting what [join] glued with "; ". *)
Lemma split_join (first : jsstring) (rest : list jsstring) :
  Forall (Forall (fun c => c <> 59%N)) (first :: rest) ->
  split 59 (join (lit "; ") (first :: rest)) = first :: List.map (cons 32%N) rest.
Proof.
  revert first. induction rest as [|next rest IH]; intros first Hall.
  - cbn [join List.map]. apply split_none. now inversion Hall.
  - inversion Hall as [|? ? Hfirst Hrest]; subst.
    change (join (lit "; ") (first :: next :: rest))
      with (first ++ 59%N :: 32%N :: join (lit "; ") (next :: rest)).
    rewrite split_app by assumption.
    cbn [split]. change (32 =? 59)%N with false. cbv iota.
    rewrite (IH next Hrest). reflexivity.
Qed.

End StringFacts.

(** ** Cookies *)

Module CookieFacts.
Import Js Cookie ObjFacts StringFacts.

Lemma set_set (o : obj) (k : jsstring) (v v' : value) :
  set (set o k v) k v' = set o k v'.
Proof.
  induction o as [|[k0 v0] o IH]; cbn.
  - now rewrite str_eqb_refl.
  - destruct (str_eqb k0 k) eqn:E; cbn.
    + now rewrite str_eqb_refl.
    + now rewrite E, IH.
Qed.

Lemma includes_keys (k : jsstring) :
  includes keys k = true ->
  k = lit "ltoken" \/ k = lit "ltuid" \/ k = lit "account_id" \/
  k = lit "cookie_token" \/ k = lit "mi18nLang".
Proof.
  unfold includes, keys. cbn [List.map List.existsb]. intros H.
  repeat (apply orb_prop in H as [H | H];
          [apply str_eqb_eq in H; subst; auto 6|]).
  discriminate.
Qed.

(** One part of the cookie string changes at most the property named
    after its key. *)
Lemma parse_entry_sets cookies cookie cookies' :
  parse_entry cookies cookie = Return cookies' ->
  cookies' = cookies \/
  (includes keys (key_of cookie) = true /\
   exists v, cookies' = set cookies (toCamelCase (key_of cookie)) v).
Proof.
  unfold parse_entry, stored_field.
  destruct (includes keys (key_of cookie)); [|intros [= <-]; now left].
  destruct (decodeURIComponent _) as [decoded|]; [|discriminate].
  destruct (_ || _); [|destruct (str_eqb _ _)]; intros [= <-]; right;
    (split; [reflexivity|]); rewrite ?set_set; eauto.
Qed.

Lemma parse_entry_throws cookies cookie e :
  parse_entry cookies cookie = Throw e -> e = URIError.
Proof.
  unfold parse_entry. destruct (includes _ _); [|discriminate].
  destruct (decodeURIComponent _); [discriminate | now intros [= <-]].
Qed.

Lemma parse_entries_throws parts : forall cookies e,
  parse_entries cookies parts = Throw e -> e = URIError.
Proof.
  induction parts as [|cookie parts IH]; intros cookies e; cbn; [discriminate|].
  destruct (parse_entry cookies cookie) as [cookies'|e'] eqn:E; cbn.
  - apply IH.
  - intros [= <-]. eapply parse_entry_throws, E.
Qed.

(** A property keeps its value while no part carries its key. *)
Lemma parse_entries_get parts : forall cookies cookies' name,
  parse_entries cookies parts = Return cookies' ->
  (forall cookie, In cookie parts -> includes keys (key_of cookie) = true ->
                  toCamelCase (key_of cookie) <> name) ->
  get cookies' name = get cookies name.
Proof.
  induction parts as [|cookie parts IH]; intros cookies cookies' name; cbn.
  - now intros [= <-].
  - destruct (parse_entry cookies cookie) as [mid|] eqn:E; cbn; [|discriminate].
    intros Hrest Hkeys. rewrite (IH _ _ _ Hrest) by (intros; apply Hkeys; auto).
    destruct (parse_entry_sets _ _ _ E) as [-> | (Hin & v & ->)]; [reflexivity|].
    apply get_set_other, Hkeys; auto.
Qed.

(** Without a percent sign no part can fail. *)
Lemma parse_entries_plain parts : forall cookies,
  Forall (Forall (fun c => c <> 37%N)) parts ->
  exists cookies', parse_entries cookies parts = Return cookies'.
Proof.
  induction parts as [|cookie parts IH]; intros cookies Hplain; cbn; [eauto|].
  inversion Hplain as [|? ? Hc Hrest]; subst.
  assert (Hentry : exists mid, parse_entry cookies cookie = Return mid).
  { unfold parse_entry. destruct (includes _ _); [|eauto].
    rewrite decode_plain; [eauto|]. unfold raw_value.
    pose proof (Forall_split _ 61 _ (Forall_trim _ _ Hc)) as Hparts.
    { destruct (List.nth_error _ 1) as [v|] eqn:Ev; cbn [ToString].
      + rewrite Forall_forall in Hparts. eapply Hparts, nth_error_In, Ev.
      + vm_compute. repeat constructor; discriminate. } }
  destruct Hentry as [mid ->]. cbn. apply IH, Hrest.
Qed.

Lemma absent_key_not_set (s : jsstring) (key : jsstring) :
  ~ In key (cookie_keys s) ->
  forall cookie, In cookie (split 59 s) -> key_of cookie <> key.
Proof.
  intros Habsent cookie Hin Heq. apply Habsent. unfold cookie_keys.
  rewrite <- Heq. now apply in_map.
Qed.

(** Absence of a key, by computation. *)
Lemma absent_by_check (key : jsstring) (s : jsstring) :
  includes (cookie_keys s) key = false -> ~ In key (cookie_keys s).
Proof.
  unfold includes. intros Hcheck Hin.
  assert (List.existsb (str_eqb key) (cookie_keys s) = true); [|congruence].
  apply existsb_exists. exists key. split; [assumption | apply str_eqb_refl].
Qed.

Ltac camel_differs :=
  match goal with
  | Hin : includes keys (key_of ?c) = true |- _ =>
      destruct (includes_keys _ Hin) as [Hk | [Hk | [Hk | [Hk | Hk]]]];
      rewrite Hk in *; try congruence; now vm_compute
  end.

(** C6, amended.  [parseCookieString] fails on every cookie string that
    has no [ltoken] key, and on every cookie string that has neither an
    [ltuid] nor an [account_id] key (with [account_id] alone, [ltuid] is
    derived from it).  The failure is the HoyolabError "Cookie key ltuid or
    ltoken doesnt exist !", unless [decodeURIComponent] raised a URIError
    on the value of a recognised key first, which needs a percent sign in
    the string. *)
Theorem parseCookieString_requires_keys (s : jsstring) :
  ~ In (lit "ltoken") (cookie_keys s) \/
  (~ In (lit "ltuid") (cookie_keys s) /\ ~ In (lit "account_id") (cookie_keys s)) ->
  (parseCookieString s = Throw (HoyolabError missing_key_message) \/
   parseCookieString s = Throw URIError) /\
  (Forall (fun c => c <> 37%N) s ->
   parseCookieString s = Throw (HoyolabError missing_key_message)).
Proof.
  intros Habsent.
  assert (Hcases : forall cookies,
             parse_entries [] (split 59 s) = Return cookies ->
             parseCookieString s = Throw (HoyolabError missing_key_message)).
  { intros cookies Hparse. unfold parseCookieString. rewrite Hparse. cbn [bind].
    destruct Habsent as [Htoken | [Huid Hacc]].
    - assert (Hget : get cookies (lit "ltoken") = VUndefined).
      { rewrite (parse_entries_get _ _ _ _ Hparse); [reflexivity|].
        intros cookie Hin Hkey.
        pose proof (absent_key_not_set _ _ Htoken _ Hin). camel_differs. }
      destruct (_ && _); [|destruct (_ && _)];
        rewrite ?get_set_other by (now vm_compute); now rewrite Hget.
    - assert (Hget1 : get cookies (lit "ltuid") = VUndefined).
      { rewrite (parse_entries_get _ _ _ _ Hparse); [reflexivity|].
        intros cookie Hin Hkey.
        pose proof (absent_key_not_set _ _ Huid _ Hin). camel_differs. }
      assert (Hget2 : get cookies (lit "accountId") = VUndefined).
      { rewrite (parse_entries_get _ _ _ _ Hparse); [reflexivity|].
        intros cookie Hin Hkey.
        pose proof (absent_key_not_set _ _ Hacc _ Hin). camel_differs. }
      rewrite Hget1, Hget2. cbn [truthy andb negb]. rewrite Hget1.
      cbn [truthy negb]. now rewrite orb_true_r. }
  split.
  - destruct (parse_entries [] (split 59 s)) as [cookies|e] eqn:Hparse.
    + left. eapply Hcases. reflexivity.
    + right. unfold parseCookieString. rewrite Hparse. cbn [bind].
      now rewrite (parse_entries_throws _ _ _ Hparse).
  - intros Hplain.
    destruct (parse_entries_plain (split 59 s) [] (Forall_split _ _ _ Hplain))
      as [cookies Hparse].
    eapply Hcases, Hparse.
Qed.

Lemma parseCookieString_requires_keys_witness :
  parseCookieString (lit "ltuid=123456789; mi18nLang=en-us")
  = Throw (HoyolabError missing_key_message).
Proof.
  apply (proj2 (parseCookieString_requires_keys
                  (lit "ltuid=123456789; mi18nLang=en-us")
                  (or_introl (absent_by_check (lit "ltoken")
                                (lit "ltuid=123456789; mi18nLang=en-us") eq_refl)))).
  vm_compute. repeat constructor; discriminate.
Defined.

(** C6, as stated, fails: without an [ltuid] key but with [account_id],
    the cookie string is accepted. *)
Lemma parseCookieString_accepts_account_id :
  ~ In (lit "ltuid") (cookie_keys (lit "ltoken=abc; account_id=123")) /\
  parseCookieString (lit "ltoken=abc; account_id=123")
  = Return [(lit "ltoken", VString (lit "abc"));
            (lit "accountId", VNumber (Num 123));
            (lit "ltuid", VNumber (Num 123))].
Proof. split; [now apply absent_by_check | reflexivity]. Qed.

(** *** The shape of a parsed credential *)

Lemma has_In (o : obj) (k : jsstring) : has o k = true <-> In k (List.map fst o).
Proof.
  induction o as [|[k' v'] o IH]; cbn; [split; [discriminate | tauto]|].
  rewrite orb_true_iff, IH, str_eqb_eq. tauto.
Qed.

Lemma keys_of_set (o : obj) (k : jsstring) (v : value) :
  List.map fst (set o k v)
  = if has o k then List.map fst o else List.map fst o ++ [k].
Proof.
  induction o as [|[k' v'] o IH]; cbn; [reflexivity|].
  destruct (str_eqb k' k) eqn:E; cbn.
  - apply str_eqb_eq in E. now subst.
  - rewrite IH. now destruct (has o k).
Qed.

Lemma set_NoDup (o : obj) (k : jsstring) (v : value) :
  NoDup (List.map fst o) -> NoDup (List.map fst (set o k v)).
Proof.
  intros Hnd. rewrite keys_of_set. destruct (has o k) eqn:E; [assumption|].
  apply NoDup_app; [assumption | repeat constructor; intros [] |].
  intros x Hx [<- | []]. apply has_In in Hx. congruence.
Qed.

Lemma set_Forall (P : jsstring * value -> Prop) (o : obj) (k : jsstring) (v : value) :
  Forall P o -> P (k, v) -> Forall P (set o k v).
Proof.
  intros Ho Hkv. induction Ho as [|[k' v'] o Hx Ho IH]; cbn.
  - now repeat constructor.
  - destruct (str_eqb k' k); now constructor.
Qed.

Lemma set_shaped (o : obj) (k : jsstring) (v : value) :
  shaped o -> field_ok (k, v) -> shaped (set o k v).
Proof. intros [Hnd Hall] Hkv. split; [now apply set_NoDup | now apply set_Forall]. Qed.

Lemma get_absent (o : obj) (k : jsstring) : has o k = false -> get o k = VUndefined.
Proof.
  induction o as [|[k' v'] o IH]; cbn; [reflexivity|].
  destruct (str_eqb k' k); cbn; [discriminate | assumption].
Qed.

Lemma get_In (o : obj) (k : jsstring) : has o k = true -> In (k, get o k) o.
Proof.
  induction o as [|[k' v'] o IH]; cbn; [discriminate|].
  destruct (str_eqb k' k) eqn:E; cbn.
  - apply str_eqb_eq in E. subst. now left.
  - intros H. right. now apply IH.
Qed.

Lemma In_get (o : obj) (k : jsstring) (v : value) :
  NoDup (List.map fst o) -> In (k, v) o -> get o k = v.
Proof.
  induction o as [|[k' v'] o IH]; cbn; [tauto|].
  intros Hnd [[= -> ->] | Hin].
  - now rewrite str_eqb_refl.
  - inversion Hnd as [|? ? Hnotin Hnd']; subst.
    rewrite str_eqb_neq; [now apply IH|].
    intros ->. apply Hnotin. now apply (in_map fst) in Hin.
Qed.

Lemma shaped_get (o : obj) (k : jsstring) :
  shaped o -> get o k = VUndefined \/ field_ok (k, get o k).
Proof.
  intros [_ Hall]. destruct (has o k) eqn:E.
  - right. rewrite Forall_forall in Hall. now apply Hall, get_In.
  - left. now apply get_absent.
Qed.

(** Two distinct literal names are told apart by computation. *)
Ltac name_clash :=
  match goal with
  | H : lit _ = lit _ |- _ => exfalso; vm_compute in H; discriminate H
  end.

Ltac field_cases H :=
  destruct H as [[? ?] | [[? ?] | [[? ?] | [[? ?] | [? ?]]]]]; try name_clash.

Lemma number_field (k : jsstring) (v : value) :
  k = lit "ltuid" \/ k = lit "accountId" ->
  field_ok (k, v) -> exists n, v = VNumber n.
Proof. intros [-> | ->] H; field_cases H; assumption. Qed.

Lemma parseLang_in_enum (v : value) : In (Language.parseLang v) Language.LanguageEnum.
Proof.
  assert (Heng : In Language.ENGLISH Language.LanguageEnum) by (vm_compute; tauto).
  unfold Language.parseLang. destruct (negb (truthy v)); [assumption|].
  destruct v; try assumption.
  destruct (List.find _ _) as [l|] eqn:E; [|assumption].
  now apply find_some in E.
Qed.

(** What a recognised key stores. *)
Lemma stored_ltoken cookies d :
  stored_field cookies (lit "ltoken") d = set cookies (lit "ltoken") (VString d).
Proof. reflexivity. Qed.

Lemma stored_cookie_token cookies d :
  stored_field cookies (lit "cookie_token") d
  = set cookies (lit "cookieToken") (VString d).
Proof. reflexivity. Qed.

Lemma stored_ltuid cookies d :
  stored_field cookies (lit "ltuid") d
  = set cookies (lit "ltuid") (VNumber (parseInt10 d)).
Proof.
  change (stored_field cookies (lit "ltuid") d)
    with (set (set cookies (lit "ltuid") (VString d)) (lit "ltuid")
            (VNumber (parseInt10
                        (ToString (get (set cookies (lit "ltuid") (VString d))
                                     (lit "ltuid")))))).
  now rewrite get_set_same, set_set.
Qed.

Lemma stored_account_id cookies d :
  stored_field cookies (lit "account_id") d
  = set cookies (lit "accountId") (VNumber (parseInt10 d)).
Proof.
  change (stored_field cookies (lit "account_id") d)
    with (set (set cookies (lit "accountId") (VString d)) (lit "accountId")
            (VNumber (parseInt10
                        (ToString (get (set cookies (lit "accountId") (VString d))
                                     (lit "accountId")))))).
  now rewrite get_set_same, set_set.
Qed.

Lemma stored_mi18nLang cookies d :
  stored_field cookies (lit "mi18nLang") d
  = set cookies (lit "mi18nLang") (VString (Language.parseLang (VString d))).
Proof.
  change (stored_field cookies (lit "mi18nLang") d)
    with (set (set cookies (lit "mi18nLang") (VString d)) (lit "mi18nLang")
            (VString (Language.parseLang
                        (VString (ToString (get (set cookies (lit "mi18nLang") (VString d))
                                              (lit "mi18nLang"))))))).
  now rewrite get_set_same, set_set.
Qed.

Lemma stored_field_shaped cookies key d :
  shaped cookies -> includes keys key = true -> shaped (stored_field cookies key d).
Proof.
  intros Hs Hin.
  destruct (includes_keys _ Hin) as [-> | [-> | [-> | [-> | ->]]]].
  - rewrite stored_ltoken. apply set_shaped; [assumption|]. left. eauto.
  - rewrite stored_ltuid. apply set_shaped; [assumption|]. right. left. eauto.
  - rewrite stored_account_id. apply set_shaped; [assumption|]. do 2 right. left. eauto.
  - rewrite stored_cookie_token. apply set_shaped; [assumption|]. do 3 right. left. eauto.
  - rewrite stored_mi18nLang. apply set_shaped; [assumption|]. do 4 right.
    split; [reflexivity|]. eexists. split; [reflexivity | apply parseLang_in_enum].
Qed.

Lemma parse_entries_shaped parts : forall cookies cookies',
  shaped cookies -> parse_entries cookies parts = Return cookies' -> shaped cookies'.
Proof.
  induction parts as [|cookie parts IH]; intros cookies cookies' Hs; cbn.
  - now intros [= <-].
  - destruct (parse_entry cookies cookie) as [mid|] eqn:E; cbn; [|discriminate].
    apply IH. unfold parse_entry in E.
    destruct (includes keys (key_of cookie)) eqn:Hin; [|now injection E as <-].
    destruct (decodeURIComponent _); [|discriminate]. injection E as <-.
    now apply stored_field_shaped.
Qed.

(** What [parseCookieString] returns: a shaped object with a truthy
    [ltoken], [ltuid] and [accountId]. *)
Lemma parseCookieString_shaped (s : jsstring) (c : obj) :
  parseCookieString s = Return c ->
  shaped c /\ truthy (get c (lit "ltoken")) = true /\
  truthy (get c (lit "ltuid")) = true /\ truthy (get c (lit "accountId")) = true.
Proof.
  unfold parseCookieString.
  destruct (parse_entries [] (split 59 s)) as [cookies|] eqn:Hparse; cbn [bind];
    [|discriminate].
  assert (Hs : shaped cookies).
  { eapply parse_entries_shaped; [|exact Hparse]. split; constructor. }
  assert (Hderive : forall k k', k = lit "ltuid" \/ k = lit "accountId" ->
                                 k' = lit "ltuid" \/ k' = lit "accountId" ->
                                 truthy (get cookies k) = true ->
                                 shaped (set cookies k' (get cookies k))).
  { intros k k' Hk Hk' Ht. apply set_shaped; [assumption|].
    destruct (shaped_get cookies k Hs) as [Hu | Hf]; [rewrite Hu in Ht; discriminate|].
    destruct (number_field _ _ Hk Hf) as [n ->].
    destruct Hk' as [-> | ->]; [right; left | do 2 right; left]; eauto. }
  destruct (truthy (get cookies (lit "ltuid"))) eqn:Huid;
    destruct (truthy (get cookies (lit "accountId"))) eqn:Hacc; cbn [andb negb].
  - rewrite Huid. destruct (truthy (get cookies (lit "ltoken"))) eqn:Htok;
      cbn [negb orb]; [|discriminate].
    intros [= <-]. auto.
  - rewrite get_set_other by (now vm_compute).
    rewrite (get_set_other _ _ (lit "ltuid")) by (now vm_compute). rewrite Huid.
    destruct (truthy (get cookies (lit "ltoken"))) eqn:Htok;
      cbn [negb orb]; [|discriminate].
    intros [= <-]. rewrite get_set_same, !get_set_other by (now vm_compute).
    split; [apply Hderive; auto | repeat split; auto].
  - rewrite get_set_same, Hacc, get_set_other by (now vm_compute).
    destruct (truthy (get cookies (lit "ltoken"))) eqn:Htok;
      cbn [negb orb]; [|discriminate].
    intros [= <-]. rewrite get_set_same, !get_set_other by (now vm_compute).
    split; [apply Hderive; auto | repeat split; auto].
  - rewrite Huid. cbn [negb]. rewrite orb_true_r. discriminate.
Qed.

(** *** Serialising, and parsing the result *)

Lemma fold_push_entry (o : obj) : forall acc,
  fold_left push_entry o acc
  = acc ++ List.map entry_string (List.filter (fun e => truthy (snd e)) o).
Proof.
  induction o as [|e o IH]; intros acc; cbn [fold_left List.filter List.map].
  - now rewrite app_nil_r.
  - rewrite IH. unfold push_entry. destruct (truthy (snd e)); cbn [List.map].
    + now rewrite <- app_assoc.
    + reflexivity.
Qed.

(** The blank that follows each "; " is trimmed away. *)
Lemma parse_entry_pad cookies part :
  parse_entry cookies (32%N :: part) = parse_entry cookies part.
Proof. reflexivity. Qed.

Lemma parse_entries_pad parts : forall cookies,
  parse_entries cookies (List.map (cons 32%N) parts) = parse_entries cookies parts.
Proof.
  induction parts as [|part parts IH]; intros cookies; cbn [List.map parse_entries];
    [reflexivity|].
  rewrite parse_entry_pad. destruct (parse_entry cookies part); cbn [bind]; auto.
Qed.

Lemma Forall_forallb (f : N -> bool) (P : N -> Prop) (s : jsstring) :
  (forall c, f c = true -> P c) -> List.forallb f s = true -> Forall P s.
Proof.
  intros Hf. induction s as [|c s IH]; cbn; [constructor|].
  intros H. apply andb_prop in H as [Hc Hs]. constructor; auto.
Qed.

(** How [key=value] is read back. *)
Lemma entry_parts (key v : jsstring) :
  key_plain key = true ->
  key_of (key ++ 61%N :: v) = key /\
  raw_value (key ++ 61%N :: v) = VString (List.hd [] (split 61 (trimEnd v))).
Proof.
  intros Hkey. unfold key_plain in Hkey. apply andb_prop in Hkey as [Hhead Hrest].
  assert (Hno : Forall (fun c => c <> 61%N) key).
  { eapply Forall_forallb; [|exact Hrest]. intros c Hc.
    apply negb_true_iff, N.eqb_neq in Hc. exact Hc. }
  assert (Htrim : trim (key ++ 61%N :: v) = key ++ 61%N :: trimEnd v).
  { unfold trim. destruct key as [|c key]; [discriminate|].
    cbn [app trimStart]. apply negb_true_iff in Hhead. rewrite Hhead.
    apply (trimEnd_app (c :: key) 61%N v). reflexivity. }
  unfold key_of, raw_value. rewrite Htrim, split_app by assumption.
  cbn [List.nth List.nth_error].
  destruct (split 61 (trimEnd v)) as [|p ps] eqn:E; [|now split].
  now destruct (split_nonempty _ _ E).
Qed.

Lemma plain_char_spec (c : N) :
  plain_char c = true ->
  is_space c = false /\ c <> 59%N /\ c <> 61%N /\ c <> 37%N.
Proof.
  unfold plain_char. rewrite !andb_true_iff, !negb_true_iff, !N.eqb_neq. tauto.
Qed.

Lemma plain_value (v : jsstring) :
  List.forallb plain_char v = true ->
  Forall (fun c => c <> 59%N) v /\ Forall (fun c => c <> 37%N) v /\
  List.hd [] (split 61 (trimEnd v)) = v.
Proof.
  intros Hv.
  assert (H59 : Forall (fun c => c <> 59%N) v)
    by (eapply Forall_forallb; [|exact Hv]; intros c Hc; now apply plain_char_spec).
  assert (H37 : Forall (fun c => c <> 37%N) v)
    by (eapply Forall_forallb; [|exact Hv]; intros c Hc; now apply plain_char_spec).
  assert (H61 : Forall (fun c => c <> 61%N) v)
    by (eapply Forall_forallb; [|exact Hv]; intros c Hc; now apply plain_char_spec).
  assert (Hsp : Forall (fun c => is_space c = false) v)
    by (eapply Forall_forallb; [|exact Hv]; intros c Hc; now apply plain_char_spec).
  repeat split; try assumption.
  now rewrite (trimEnd_clean _ (no_space_clean _ Hsp)), split_none.
Qed.

Lemma number_plain (u : Z) : List.forallb plain_char (Number_toString (Num u)) = true.
Proof.
  apply forallb_forall. intros c Hc.
  pose proof (NumberFacts.Number_toString_chars u) as Hall.
  rewrite Forall_forall in Hall.
  destruct (NumberFacts.printed_plain c (Hall c Hc)) as (Hs & H59 & H61 & H37).
  unfold plain_char. rewrite Hs. cbn [negb andb].
  now rewrite !andb_true_iff, !negb_true_iff, !N.eqb_neq.
Qed.

Lemma language_plain (l : jsstring) :
  In l Language.LanguageEnum ->
  List.forallb plain_char l = true /\ Language.parseLang (VString l) = l.
Proof.
  unfold Language.LanguageEnum. cbn [List.map In]. intros H.
  repeat (destruct H as [<- | H]; [split; reflexivity|]). destruct H.
Qed.

Lemma free_of_Forall (chars : list N) (c : N) (s : jsstring) :
  free_of chars s -> In c chars -> Forall (fun x => x <> c) s.
Proof.
  unfold free_of. intros Hfree Hin. eapply Forall_impl; [|exact Hfree].
  cbn. intros x Hx ->. contradiction.
Qed.

Lemma literal_no_semicolon (key : jsstring) :
  List.forallb (fun c => negb (N.eqb c 59)) key = true ->
  Forall (fun c => c <> 59%N) key.
Proof.
  apply Forall_forallb. intros c Hc. now apply negb_true_iff, N.eqb_neq in Hc.
Qed.

Lemma truthy_number (n : number) :
  truthy (VNumber n) = true -> exists u, n = Num u.
Proof. destruct n; [discriminate | eauto]. Qed.

(** One property, serialised and parsed again: the part sets the same
    property, and [ltoken] and [ltuid] get their value back. *)
Lemma reparse_entry cookies (k : jsstring) (v : value) :
  field_ok (k, v) -> truthy v = true -> roundtrip_safe (k, v) ->
  Forall (fun c => c <> 59%N) (entry_string (k, v)) /\
  exists v',
    parse_entry cookies (entry_string (k, v)) = Return (set cookies k v') /\
    (k = lit "ltoken" \/ k = lit "ltuid" -> v' = v).
Proof.
  intros Hf Ht (Hsafe_token & Hsafe_cookie & Hsafe_uid). field_cases Hf; subst k.
  - (* ltoken *)
    destruct H0 as [token ->].
    destruct (Hsafe_token eq_refl token eq_refl) as [Hfree Hend].
    change (entry_string (lit "ltoken", VString token))
      with (lit "ltoken" ++ 61%N :: token).
    split.
    { apply Forall_app. split; [now apply literal_no_semicolon|].
      constructor; [discriminate|]. eapply free_of_Forall; [exact Hfree|]. cbn. tauto. }
    exists (VString token). split; [|reflexivity].
    unfold parse_entry. destruct (entry_parts (lit "ltoken") token eq_refl) as [-> ->].
    change (includes keys (lit "ltoken")) with true. cbv iota. cbn [ToString].
    rewrite (trimEnd_clean _ Hend), split_none
      by (eapply free_of_Forall; [exact Hfree|]; cbn; tauto).
    cbn [List.hd]. rewrite decode_plain
      by (eapply free_of_Forall; [exact Hfree|]; cbn; tauto).
    now rewrite stored_ltoken.
  - (* ltuid *)
    destruct H0 as [n ->]. destruct (truthy_number _ Ht) as [u ->].
    change (entry_string (lit "ltuid", VNumber (Num u)))
      with (lit "ltuid" ++ 61%N :: Number_toString (Num u)).
    destruct (plain_value _ (number_plain u)) as (H59 & H37 & Hhd).
    split.
    { apply Forall_app. split; [now apply literal_no_semicolon|].
      constructor; [discriminate | assumption]. }
    exists (VNumber (Num u)). split; [|reflexivity].
    unfold parse_entry.
    destruct (entry_parts (lit "ltuid") (Number_toString (Num u)) eq_refl) as [-> ->].
    change (includes keys (lit "ltuid")) with true. cbv iota. cbn [ToString].
    rewrite Hhd, decode_plain by assumption.
    rewrite stored_ltuid, NumberFacts.parseInt10_toString; [reflexivity|].
    now apply Hsafe_uid.
  - (* accountId *)
    destruct H0 as [n ->]. destruct (truthy_number _ Ht) as [u ->].
    change (entry_string (lit "accountId", VNumber (Num u)))
      with (lit "account_id" ++ 61%N :: Number_toString (Num u)).
    destruct (plain_value _ (number_plain u)) as (H59 & H37 & Hhd).
    split.
    { apply Forall_app. split; [now apply literal_no_semicolon|].
      constructor; [discriminate | assumption]. }
    exists (VNumber (parseInt10 (Number_toString (Num u)))).
    split; [|intros [H | H]; name_clash].
    unfold parse_entry.
    destruct (entry_parts (lit "account_id") (Number_toString (Num u)) eq_refl)
      as [-> ->].
    change (includes keys (lit "account_id")) with true. cbv iota. cbn [ToString].
    rewrite Hhd, decode_plain by assumption.
    now rewrite stored_account_id.
  - (* cookieToken *)
    destruct H0 as [token ->].
    pose proof (Hsafe_cookie eq_refl token eq_refl) as Hfree.
    change (entry_string (lit "cookieToken", VString token))
      with (lit "cookie_token" ++ 61%N :: token).
    split.
    { apply Forall_app. split; [now apply literal_no_semicolon|].
      constructor; [discriminate|]. eapply free_of_Forall; [exact Hfree|]. cbn. tauto. }
    eexists. split; [|intros [H | H]; name_clash].
    unfold parse_entry. destruct (entry_parts (lit "cookie_token") token eq_refl) as [-> ->].
    change (includes keys (lit "cookie_token")) with true. cbv iota. cbn [ToString].
    rewrite decode_plain.
    + now rewrite stored_cookie_token.
    + assert (H37 : Forall (fun c => c <> 37%N) token)
        by (eapply free_of_Forall; [exact Hfree|]; cbn; tauto).
      pose proof (Forall_split _ 61 _ (Forall_trimEnd _ _ H37)) as Hparts.
      destruct (split 61 (trimEnd token)) as [|p ps]; [constructor|].
      now inversion Hparts.
  - (* mi18nLang *)
    destruct H0 as (l & -> & Hl). destruct (language_plain l Hl) as [Hplain Hlang].
    change (entry_string (lit "mi18nLang", VString l))
      with (lit "mi18nLang" ++ 61%N :: l).
    destruct (plain_value _ Hplain) as (H59 & H37 & Hhd).
    split.
    { apply Forall_app. split; [now apply literal_no_semicolon|].
      constructor; [discriminate | assumption]. }
    eexists. split; [|intros [H | H]; name_clash].
    unfold parse_entry. destruct (entry_parts (lit "mi18nLang") l eq_refl) as [-> ->].
    change (includes keys (lit "mi18nLang")) with true. cbv iota. cbn [ToString].
    rewrite Hhd, decode_plain by assumption.
    now rewrite stored_mi18nLang.
Qed.

(** All the properties, serialised and parsed again. *)
Lemma reparse_entries (entries : obj) : forall acc,
  Forall field_ok entries ->
  Forall (fun e => truthy (snd e) = true) entries ->
  Forall roundtrip_safe entries ->
  NoDup (List.map fst entries) ->
  exists result,
    parse_entries acc (List.map entry_string entries) = Return result /\
    (forall k, ~ In k (List.map fst entries) -> get result k = get acc k) /\
    (forall k v, In (k, v) entries -> k = lit "ltoken" \/ k = lit "ltuid" ->
                 get result k = v).
Proof.
  induction entries as [|[k0 v0] entries IH]; intros acc Hok Htruthy Hsafe Hnd.
  - exists acc. cbn. repeat split; tauto.
  - inversion Hok as [|? ? Hok0 Hok']; subst.
    inversion Htruthy as [|? ? Ht0 Ht']; subst.
    inversion Hsafe as [|? ? Hs0 Hs']; subst.
    inversion Hnd as [|? ? Hfresh Hnd']; subst.
    destruct (reparse_entry acc k0 v0 Hok0 Ht0 Hs0) as (_ & v' & Hentry & Hsame).
    destruct (IH (set acc k0 v') Hok' Ht' Hs' Hnd') as (result & Hrest & Hout & Hin).
    exists result. cbn [List.map parse_entries]. rewrite Hentry. cbn [bind].
    split; [exact Hrest|]. split.
    + intros k Hk. cbn in Hk. rewrite Hout by tauto.
      apply get_set_other. intros ->. tauto.
    + intros k v [[= -> ->] | Hmem] Hk.
      * rewrite (Hout _ Hfresh), get_set_same. now apply Hsame.
      * now apply Hin.
Qed.

Lemma NoDup_keys_filter (f : jsstring * value -> bool) (o : obj) :
  NoDup (List.map fst o) -> NoDup (List.map fst (List.filter f o)).
Proof.
  induction o as [|e o IH]; cbn; intros Hnd; [constructor|].
  inversion Hnd as [|? ? Hfresh Hnd']; subst.
  destruct (f e); cbn; [|now apply IH].
  constructor; [|now apply IH].
  intros Hin. apply Hfresh. apply in_map_iff in Hin as (x & Hx & Hin).
  apply filter_In in Hin as [Hin _]. rewrite <- Hx. now apply in_map.
Qed.

(** A truthy property is one of the entries that are serialised. *)
Lemma truthy_entry (o : obj) (k : jsstring) :
  truthy (get o k) = true ->
  In (k, get o k) (List.filter (fun e => truthy (snd e)) o).
Proof.
  intros Ht. apply filter_In. split; [|exact Ht].
  apply get_In. destruct (has o k) eqn:E; [reflexivity|].
  rewrite (get_absent _ _ E) in Ht. discriminate.
Qed.

(** C7, amended.  [parseCookie] writes to the object it is given: when
    [accountId] is absent or falsy it sets [accountId] to the value of
    [ltuid] on the object itself; every other property is left as it was,
    and an object that already has a truthy [accountId] is not changed at
    all.  The string returned is built from the object as the call leaves
    it, one "key=value" part for each truthy property, joined by "; ": so
    when [accountId] was derived from a truthy [ltuid], the string carries
    the part "account_id=" followed by that [ltuid]. *)
Theorem parseCookie_writes_accountId (cookie : obj) :
  (truthy (get cookie (lit "accountId")) = true -> snd (parseCookie cookie) = cookie) /\
  (truthy (get cookie (lit "accountId")) = false ->
   snd (parseCookie cookie) = set cookie (lit "accountId") (get cookie (lit "ltuid")) /\
   get (snd (parseCookie cookie)) (lit "accountId") = get cookie (lit "ltuid")) /\
  (forall k, k <> lit "accountId" ->
             get (snd (parseCookie cookie)) k = get cookie k) /\
  fst (parseCookie cookie)
  = join (lit "; ")
      (List.map entry_string
         (List.filter (fun e => truthy (snd e)) (snd (parseCookie cookie)))) /\
  (truthy (get cookie (lit "accountId")) = false ->
   truthy (get cookie (lit "ltuid")) = true ->
   In (lit "account_id=" ++ ToString (get cookie (lit "ltuid")))
      (List.map entry_string
         (List.filter (fun e => truthy (snd e)) (snd (parseCookie cookie))))).
Proof.
  assert (Hstring :
            fst (parseCookie cookie)
            = join (lit "; ")
                (List.map entry_string
                   (List.filter (fun e => truthy (snd e)) (snd (parseCookie cookie))))).
  { unfold parseCookie. cbn [fst snd]. now rewrite fold_push_entry. }
  unfold parseCookie in *. cbn [snd] in *.
  destruct (truthy (get cookie (lit "accountId"))); cbn [negb] in *.
  - repeat split; try discriminate; try reflexivity. exact Hstring.
  - split; [discriminate|]. split; [split; [reflexivity | apply get_set_same]|].
    split; [intros k Hk; apply get_set_other; congruence|].
    split; [exact Hstring|]. intros _ Huid.
    pose proof (truthy_entry (set cookie (lit "accountId") (get cookie (lit "ltuid")))
                  (lit "accountId")) as Hin.
    rewrite get_set_same in Hin.
    apply (in_map entry_string) in Hin; [|exact Huid].
    exact Hin.
Qed.

Lemma parseCookie_writes_accountId_witness :
  fst (parseCookie [(lit "ltoken", VString (lit "abc"));
                    (lit "ltuid", VNumber (Num 123))])
  = lit "ltoken=abc; ltuid=123; account_id=123" /\
  In (lit "account_id=123")
     (List.map entry_string
        (List.filter (fun e => truthy (snd e))
           (snd (parseCookie [(lit "ltoken", VString (lit "abc"));
                              (lit "ltuid", VNumber (Num 123))])))) /\
  get (snd (parseCookie [(lit "ltoken", VString (lit "abc"));
                         (lit "ltuid", VNumber (Num 123))])) (lit "accountId")
  = VNumber (Num 123).
Proof.
  destruct (parseCookie_writes_accountId
              [(lit "ltoken", VString (lit "abc")); (lit "ltuid", VNumber (Num 123))])
    as (_ & Hset & _ & Hstring & Hpart).
  split; [rewrite Hstring; reflexivity|].
  split; [exact (Hpart eq_refl eq_refl) | exact (proj2 (Hset eq_refl))].
Defined.

(** C7, as stated, fails: serialising a credential without [accountId]
    adds the property to the object. *)
Lemma parseCookie_mutates_its_argument :
  parseCookie [(lit "ltoken", VString (lit "abc")); (lit "ltuid", VNumber (Num 123))]
  = (lit "ltoken=abc; ltuid=123; account_id=123",
     [(lit "ltoken", VString (lit "abc")); (lit "ltuid", VNumber (Num 123));
      (lit "accountId", VNumber (Num 123))]) /\
  snd (parseCookie [(lit "ltoken", VString (lit "abc"));
                    (lit "ltuid", VNumber (Num 123))])
  <> [(lit "ltoken", VString (lit "abc")); (lit "ltuid", VNumber (Num 123))].
Proof. split; [reflexivity | vm_compute; discriminate]. Qed.

Lemma free_of_check (chars : list N) (s : jsstring) :
  List.forallb (fun c => negb (List.existsb (N.eqb c) chars)) s = true ->
  free_of chars s.
Proof.
  apply Forall_forallb. intros c Hc Hin. apply negb_true_iff in Hc.
  assert (List.existsb (N.eqb c) chars = true); [|congruence].
  apply existsb_exists. exists c. split; [assumption | apply N.eqb_refl].
Qed.

(** C5, amended.  Let [parseCookieString] accept a cookie string, with a
    decoded [ltoken] that holds no ";", "=" or "%" and does not end in
    white space, a decoded [cookie_token] (if any) that holds no ";" or "%",
    and an [ltuid] that is a safe integer (at most 2^53 - 1 in absolute
    value).  Then serialising the credential with [parseCookie] and parsing
    the string again succeeds and gives the same [ltoken] and the same
    [ltuid]. *)
Theorem parse_serialize_parse (s : jsstring) (c1 : obj) :
  parseCookieString s = Return c1 ->
  (forall token, get c1 (lit "ltoken") = VString token ->
                 free_of [59%N; 61%N; 37%N] token /\ ends_with_space token = false) ->
  (forall token, get c1 (lit "cookieToken") = VString token ->
                 free_of [59%N; 37%N] token) ->
  (forall u, get c1 (lit "ltuid") = VNumber (Num u) ->
             Z.abs u <= max_safe_integer) ->
  exists c2,
    parseCookieString (fst (parseCookie c1)) = Return c2 /\
    get c2 (lit "ltoken") = get c1 (lit "ltoken") /\
    get c2 (lit "ltuid") = get c1 (lit "ltuid").
Proof.
  intros Hparse Htoken Hcookie Hnumber.
  destruct (parseCookieString_shaped _ _ Hparse) as ([Hnd Hall] & Htok & Huid & Hacc).
  set (entries := List.filter (fun e => truthy (snd e)) c1).
  assert (Hserial : fst (parseCookie c1) = join (lit "; ") (List.map entry_string entries)).
  { unfold parseCookie. rewrite Hacc. cbn [negb fst]. now rewrite fold_push_entry. }
  assert (Hok : Forall field_ok entries).
  { apply Forall_forall. intros e He. apply filter_In in He as [He _].
    rewrite Forall_forall in Hall. now apply Hall. }
  assert (Htruthy : Forall (fun e => truthy (snd e) = true) entries).
  { apply Forall_forall. intros e He. now apply filter_In in He as [_ He]. }
  assert (Hsafe : Forall roundtrip_safe entries).
  { apply Forall_forall. intros [k v] He. apply filter_In in He as [He _].
    pose proof (In_get _ _ _ Hnd He) as Hget. split; [|split].
    - intros -> token ->. now apply Htoken.
    - intros -> token ->. now apply Hcookie.
    - intros -> u ->. now apply Hnumber. }
  assert (Hkeys : NoDup (List.map fst entries)) by now apply NoDup_keys_filter.
  destruct (reparse_entries entries [] Hok Htruthy Hsafe Hkeys)
    as (result & Hresult & _ & Hback).
  assert (Hsemis : Forall (Forall (fun c => c <> 59%N)) (List.map entry_string entries)).
  { apply Forall_forall. intros part Hpart.
    apply in_map_iff in Hpart as ([k v] & <- & He).
    rewrite Forall_forall in Hok, Htruthy, Hsafe.
    apply (reparse_entry [] k v (Hok _ He) (Htruthy _ He) (Hsafe _ He)). }
  assert (Hsplit : parse_entries [] (split 59 (fst (parseCookie c1))) = Return result).
  { rewrite Hserial. destruct entries as [|e rest] eqn:E.
    - pose proof (truthy_entry c1 (lit "ltoken") Htok) as Hin.
      fold entries in Hin. rewrite E in Hin. destruct Hin.
    - cbn [List.map] in Hsemis |- *. rewrite split_join by exact Hsemis.
      cbn [List.map parse_entries] in Hresult |- *.
      destruct (parse_entry [] (entry_string e)); cbn [bind] in Hresult |- *;
        [|discriminate]. now rewrite parse_entries_pad. }
  assert (Hrtok : get result (lit "ltoken") = get c1 (lit "ltoken")).
  { apply Hback; [|now left]. now apply truthy_entry. }
  assert (Hruid : get result (lit "ltuid") = get c1 (lit "ltuid")).
  { apply Hback; [|now right]. now apply truthy_entry. }
  unfold parseCookieString. rewrite Hsplit. cbn [bind].
  rewrite Hruid, Huid. cbn [negb andb].
  destruct (truthy (get result (lit "accountId"))); cbn [negb andb].
  - rewrite Hruid, Huid, Hrtok, Htok. cbn [negb orb]. eauto.
  - rewrite !get_set_other by (now vm_compute).
    rewrite Hruid, Huid, Hrtok, Htok. cbn [negb orb].
    eexists. split; [reflexivity|].
    now rewrite !get_set_other by (now vm_compute).
Qed.

Lemma parse_serialize_parse_witness :
  exists c2,
    parseCookieString
      (lit "ltoken=abc; ltuid=123; mi18nLang=ja-jp; account_id=123") = Return c2 /\
    get c2 (lit "ltoken") = VString (lit "abc") /\
    get c2 (lit "ltuid") = VNumber (Num 123).
Proof.
  apply (parse_serialize_parse
           (lit "ltoken=abc; ltuid=123; mi18nLang=ja-jp")
           [(lit "ltoken", VString (lit "abc"));
            (lit "ltuid", VNumber (Num 123));
            (lit "mi18nLang", VString (lit "ja-jp"));
            (lit "accountId", VNumber (Num 123))]).
  - reflexivity.
  - intros token H. vm_compute in H. injection H as <-.
    split; [apply free_of_check|]; reflexivity.
  - intros token H. vm_compute in H. discriminate.
  - intros u H. vm_compute in H. injection H as <-. now vm_compute.
Defined.

(** C5, as stated, fails: [parseCookieString] decodes percent escapes and
    [parseCookie] does not encode, so an [ltoken] with an escaped "=" comes
    back cut short. *)
Lemma escaped_ltoken_does_not_survive :
  exists c1 c2,
    parseCookieString (lit "ltoken=ab%3Dcd; ltuid=123") = Return c1 /\
    get c1 (lit "ltoken") = VString (lit "ab=cd") /\
    fst (parseCookie c1) = lit "ltoken=ab=cd; ltuid=123; account_id=123" /\
    parseCookieString (fst (parseCookie c1)) = Return c2 /\
    get c2 (lit "ltoken") = VString (lit "ab") /\
    get c2 (lit "ltoken") <> get c1 (lit "ltoken").
Proof.
  eexists _, _. split; [reflexivity|]. split; [reflexivity|].
  split; [reflexivity|]. split; [reflexivity|]. split; [reflexivity|].
  vm_compute. discriminate.
Qed.

(** Nor does an [ltuid] of 10^21 or more survive: it is read as the
    nearest double, written in exponent form and read back as its first
    digits. *)
Lemma large_ltuid_does_not_survive :
  let c1 := [(lit "ltoken", VString (lit "abc"));
             (lit "ltuid", VNumber (Num (10 ^ 21)));
             (lit "accountId", VNumber (Num (10 ^ 21)))] in
  parseCookieString (lit "ltoken=abc; ltuid=999999999999999999999") = Return c1 /\
  fst (parseCookie c1) = lit "ltoken=abc; ltuid=1e+21; account_id=1e+21" /\
  parseCookieString (fst (parseCookie c1))
  = Return [(lit "ltoken", VString (lit "abc"));
            (lit "ltuid", VNumber (Num 1));
            (lit "accountId", VNumber (Num 1))].
Proof. repeat split; now vm_compute. Qed.

End CookieFacts.

(** ** The cache *)

Module CacheFacts.
Import Js.

Lemma set_lookup (store : NodeCache.t) (key : jsstring) (v : value) (ttl at_ : Z) :
  NodeCache.set store key v ttl at_ !! key
  = Some {| NodeCache.val := v; NodeCache.expires := at_ + ttl * 1000 |}.
Proof. unfold NodeCache.set, NodeCache.t, jsstring. apply lookup_insert_eq. Qed.

(** A value just set is read back until its time is up, and not after. *)
Lemma get_set (store : NodeCache.t) (key : jsstring) (v : value) (ttl at_ t : Z) :
  NodeCache.get (NodeCache.set store key v ttl at_) key t
  = if t <=? at_ + ttl * 1000 then v else VUndefined.
Proof. unfold NodeCache.get. now rewrite set_lookup. Qed.

End CacheFacts.

(** ** The request core *)

Module RequestFacts.
Import Js Request ObjFacts.

Lemma ok_status_false (status : Z) :
  ok_status status = false <-> status <> 200 /\ status <> 201.
Proof. unfold ok_status. lia. Qed.

Lemma ok_status_true (status : Z) :
  ok_status status = true <-> status = 200 \/ status = 201.
Proof. unfold ok_status. lia. Qed.

(** *** Attaching the signature *)

Lemma attach_ds_frame h r w r1 w1 :
  attach_ds h r w = (r1, w1) ->
  body r1 = body r /\ params r1 = params r /\ cache r1 = cache r /\
  ds r1 = ds r /\ retries r1 = retries r /\
  now w1 = now w /\ calls w1 = calls w.
Proof.
  unfold attach_ds, generateDS. destruct (ds r) eqn:E; intros [= <- <-]; cbn; auto 10.
Qed.

Lemma attach_ds_off h r w : ds r = false -> attach_ds h r w = (r, w).
Proof. unfold attach_ds. now intros ->. Qed.

Lemma attach_ds_headers h r w r1 w1 k :
  attach_ds h r w = (r1, w1) -> k <> lit "DS" ->
  get (headers r1) k = get (headers r) k.
Proof.
  unfold attach_ds, generateDS. destruct (ds r); intros [= <- <-] Hk; cbn; [|reflexivity].
  now apply get_set_other.
Qed.

(** *** The function and the relation agree *)

Lemma send_in_sends h url method fuel :
  forall ttl r w x,
    send_in fuel h url method ttl r w = Some x ->
    exists e, sends h url method ttl r w e x.
Proof.
  induction fuel as [|fuel IH]; intros ttl r w x; cbn [send_in]; [discriminate|].
  destruct (truthy _) eqn:Hcache.
  { intros [= <-]. exists Hit. now constructor. }
  destruct (attach_ds h r w) as [r1 w1] eqn:Hds.
  destruct (axios h (calls w1) url (config_for method r1)) as [status st data|code msg|] eqn:Hreply.
  - destruct (ok_status status) eqn:Hst; cbn [negb].
    + destruct (member data (lit "retcode")) as [retcode|] eqn:Hm.
      * destruct (must_retry retcode r1) eqn:Hretry.
        -- destruct (send_in fuel _ _ _ _ _ _) as [inner|] eqn:Hinner; [|discriminate].
           intros [= <-]. destruct (IH _ _ _ _ Hinner) as [e He].
           exists e. eapply sends_retry; eauto.
        -- intros [= <-]. exists Stored. eapply sends_stored; eauto.
      * intros [= <-]. exists Swallowed. eapply sends_nullish; eauto.
    + intros [= <-]. exists Failed. eapply sends_status; eauto.
  - intros [= <-]. exists Failed. eapply sends_rejected; eauto.
  - intros [= <-]. exists Swallowed. eapply sends_other; eauto.
Qed.

Lemma sends_send_in h url method ttl r w e x :
  sends h url method ttl r w e x ->
  forall fuel, (Z.to_nat (61 - retries r) < fuel)%nat ->
               send_in fuel h url method ttl r w = Some x.
Proof.
  induction 1 as [ ttl r w Hc
                 | ttl r w r1 w1 code msg Hc Hds Hr
                 | ttl r w r1 w1 status st data Hc Hds Hr Hst
                 | ttl r w r1 w1 Hc Hds Hr
                 | ttl r w r1 w1 status st data Hc Hds Hr Hst Hm
                 | ttl r w r1 w1 status st data retcode e inner Hc Hds Hr Hst Hm Hretry Hin IH
                 | ttl r w r1 w1 status st data retcode Hc Hds Hr Hst Hm Hretry ];
    intros fuel Hfuel; (destruct fuel as [|fuel]; [lia|]); cbn [send_in];
    rewrite Hc; try rewrite Hds; try rewrite Hr; try rewrite Hst; cbn [negb];
    try rewrite Hm; try rewrite Hretry; try reflexivity.
  rewrite IH; [reflexivity|].
  destruct (attach_ds_frame _ _ _ _ _ Hds) as (_ & _ & _ & _ & Hret & _).
  unfold must_retry in Hretry. apply andb_prop in Hretry as [_ Hle].
  cbn [retrying retries]. lia.
Qed.

Lemma send_in_total h url method fuel :
  forall ttl r w,
    (Z.to_nat (61 - retries r) < fuel)%nat ->
    exists x, send_in fuel h url method ttl r w = Some x.
Proof.
  induction fuel as [|fuel IH]; intros ttl r w Hfuel; [lia|]. cbn [send_in].
  destruct (truthy _); [eauto|].
  destruct (attach_ds h r w) as [r1 w1] eqn:Hds.
  destruct (attach_ds_frame _ _ _ _ _ Hds) as (_ & _ & _ & _ & Hret & _).
  destruct (axios _ _ _ _) as [status st data|code msg|]; eauto.
  destruct (ok_status status); cbn [negb]; eauto.
  destruct (member _ _) as [retcode|]; eauto.
  destruct (must_retry retcode r1) eqn:Hretry; eauto.
  unfold must_retry in Hretry. apply andb_prop in Hretry as [_ Hle].
  destruct (IH None (retrying r1) (delay 1 (after_exchange h w1))) as [inner ->].
  { cbn [retrying retries]. lia. }
  eauto.
Qed.

(** [send] always settles. *)
Lemma send_total h url method ttl r w :
  exists x, send h url method ttl r w = Some x.
Proof. apply send_in_total. unfold fuel_for. lia. Qed.

Lemma send_sends h url method ttl r w x :
  send h url method ttl r w = Some x <-> exists e, sends h url method ttl r w e x.
Proof.
  split.
  - apply send_in_sends.
  - intros [e He]. eapply sends_send_in; [exact He|]. unfold fuel_for. lia.
Qed.

(** *** What every run preserves *)

Ltac attach_facts :=
  try match goal with
      | H : attach_ds _ _ _ = (_, _) |- _ =>
          let Hb := fresh "Hbody" in
          let Hp := fresh "Hparams" in
          let Hc := fresh "Hcache" in
          let Hd := fresh "Hds" in
          let Hr := fresh "Hretries" in
          let Hn := fresh "Hnow" in
          let Hk := fresh "Hcalls" in
          destruct (attach_ds_frame _ _ _ _ _ H) as (Hb & Hp & Hc & Hd & Hr & Hn & Hk)
      end.

Lemma miss_persists h c key t t' :
  truthy (Cache.get h c key t) = false -> t <= t' ->
  truthy (Cache.get h c key t') = false.
Proof.
  unfold Cache.get, NodeCache.get. intros Hmiss Hle.
  destruct (Cache.nodeCache c !! Cache.generateKey h key) as [entry|]; [|reflexivity].
  destruct (Z.leb_spec t' (NodeCache.expires entry)); [|reflexivity].
  destruct (Z.leb_spec t (NodeCache.expires entry)); [assumption | lia].
Qed.

Lemma sends_frame h url method ttl r w e x :
  sends h url method ttl r w e x ->
  params (request x) = params r /\ ds (request x) = ds r /\
  (forall k, k <> lit "DS" -> get (headers (request x)) k = get (headers r) k) /\
  (ds r = false -> headers (request x) = headers r).
Proof.
  induction 1; attach_facts; cbn;
    try (repeat split; try assumption; try reflexivity;
         [ intros k Hk; eapply attach_ds_headers; eassumption
         | intros Hoff; rewrite attach_ds_off in * by assumption; congruence ]).
  - auto.
  - destruct IHsends as (IHp & IHd & IHh & IHo). cbn in *.
    repeat split; try congruence.
    + intros k Hk. rewrite IHh by assumption. eapply attach_ds_headers; eassumption.
    + intros Hoff. rewrite attach_ds_off in * by assumption.
      rewrite IHo by congruence. congruence.
Qed.

Lemma sends_clock h url method ttl r w e x :
  sends h url method ttl r w e x ->
  now w <= now (world x) /\
  calls (world x) = (calls w + exchanges_made (trace x))%nat.
Proof.
  induction 1; attach_facts; cbn in *; try lia.
  unfold exchanges_made in *. cbn. lia.
Qed.

(** A miss stays a miss while the call retries, so only the first
    invocation of a cycle can be served from the cache. *)
Lemma sends_hit_inv h url method ttl r w e x :
  sends h url method ttl r w e x -> e = Hit ->
  truthy (Cache.get h (cache r) (cache_key url method r) (now w)) = true /\
  x = {| result := Return (Cache.get h (cache r) (cache_key url method r) (now w));
         request := r; world := w; trace := [Log cached_line] |}.
Proof.
  induction 1; attach_facts; intros He; try discriminate; [now split|].
  exfalso. destruct (IHsends He) as [Hhit _].
  assert (Hmiss : truthy (Cache.get h (cache r) (cache_key url method r)
                            (now (delay 1 (after_exchange h w1)))) = false).
  { eapply miss_persists; [eassumption|]. cbn. lia. }
  unfold cache_key in *. cbn in Hhit, Hmiss.
  rewrite Hcache, Hbody, Hparams in Hhit. congruence.
Qed.


Lemma sends_retries_bound h url method ttl r w e x :
  sends h url method ttl r w e x ->
  (retries_made (trace x) <= Z.to_nat (61 - retries r))%nat.
Proof.
  induction 1; attach_facts; unfold retries_made in *; cbn in *; try lia.
  match goal with H : must_retry _ _ = true |- _ =>
    unfold must_retry in H; apply andb_prop in H as [_ Hle] end.
  lia.
Qed.

(** *** How a run ends *)

Lemma final_reply_leaf h c r' w1 url config :
  final_reply h {| result := c; request := r'; world := after_exchange h w1;
                   trace := [AxiosCall url config] |}
  = Some (axios h (calls w1) url config).
Proof. reflexivity. Qed.

Lemma final_reply_retry h inner a b reply :
  final_reply h inner = Some reply ->
  final_reply h {| result := result inner; request := request inner;
                   world := world inner; trace := a :: b :: trace inner |}
  = Some reply.
Proof.
  unfold final_reply. cbn [trace world].
  destruct (trace inner) as [|ev tr]; [discriminate|]. now cbn.
Qed.

Lemma retries_made_retry a tr :
  retries_made (a :: Delay 1 :: tr) = S (retries_made (a :: tr)).
Proof. unfold retries_made. cbn. now destruct (is_delay a). Qed.

Lemma retries_made_cons_call url config tr :
  retries_made (AxiosCall url config :: tr) = retries_made tr.
Proof. reflexivity. Qed.

Lemma sends_exit h url method ttl r w e x :
  sends h url method ttl r w e x -> exit_spec h url method ttl r e x.
Proof.
  induction 1; attach_facts; unfold exit_spec; cbn [result request world trace];
    try exact I.
  - (* rejected *)
    eexists (RejectedAxios code message), _. rewrite final_reply_leaf.
    split; [congruence|]. split; [left; now eexists _, _|].
    split; [reflexivity|]. cbn [retries_made List.filter is_delay List.length].
    repeat split; try assumption. lia.
  - (* status *)
    eexists (Resolved status statusText data), _. rewrite final_reply_leaf.
    split; [congruence|]. split.
    { right. eexists _, _, _. split; [reflexivity|]. now apply ok_status_false. }
    split. { cbn [error_of]. match goal with H : ok_status _ = false |- _ => now rewrite H end. }
    cbn [retries_made List.filter is_delay List.length].
    repeat split; try assumption. lia.
  - (* other *)
    exists RejectedOther. rewrite final_reply_leaf.
    split; [congruence|]. split; [now left|].
    cbn [retries_made List.filter is_delay List.length].
    repeat split; try assumption. lia.
  - (* nullish *)
    exists (Resolved status statusText data). rewrite final_reply_leaf.
    split; [congruence|]. split.
    { right. eexists _, _, _. split; [reflexivity|]. split; [|assumption].
      now apply ok_status_true. }
    cbn [retries_made List.filter is_delay List.length].
    repeat split; try assumption. lia.
  - (* retry *)
    assert (Hkey : cache_key url method (retrying r1) = cache_key url method r).
    { unfold cache_key. cbn. now rewrite Hbody, Hparams. }
    unfold exit_spec in IHsends. destruct e; try exact I.
    + destruct IHsends as (reply & err & Hf & Hkind & Herr & Hres & Hb & Hc & Hr).
      exists reply, err. rewrite (final_reply_retry _ _ _ _ _ Hf), retries_made_retry.
      rewrite retries_made_cons_call. cbn in Hb, Hc, Hr.
      repeat split; try assumption; try congruence. lia.
    + destruct IHsends as (reply & Hf & Hkind & Hres & Hb & Hc & Hr).
      exists reply. rewrite (final_reply_retry _ _ _ _ _ Hf), retries_made_retry.
      rewrite retries_made_cons_call. cbn in Hb, Hc, Hr.
      repeat split; try assumption; try congruence. lia.
    + destruct IHsends as (reply & payload & Hf & Hkind & Hres & Hb & Hr & Hc).
      exists reply, payload. rewrite (final_reply_retry _ _ _ _ _ Hf).
      repeat split; try assumption.
      rewrite Hc, Hkey. cbn [retrying cache]. rewrite Hcache.
      unfold effective_ttl. rewrite retries_made_retry.
      now destruct (retries_made (trace inner)).
  - (* stored *)
    exists (Resolved status statusText data), data. rewrite final_reply_leaf.
    split; [congruence|]. split.
    { eexists _, _, _. split; [reflexivity|]. split; [|eassumption].
      now apply ok_status_true. }
    unfold effective_ttl, stored.
    cbn [retries_made List.filter is_delay List.length body retries cache].
    repeat split. now rewrite Hcache.
Qed.

Lemma exit_eq_dec (a b : exit) : {a = b} + {a <> b}.
Proof. decide equality. Defined.

(** The kinds of reply exclude one another. *)
Lemma refused_not_other reply :
  transport_failed reply \/ status_refused reply -> other_exception reply -> False.
Proof.
  intros [(c & m & ->) | (s & st & d & -> & Hs)] [Ho | (s' & st' & d' & Ho & Hs' & _)];
    try discriminate.
  injection Ho as <- <- <-. lia.
Qed.

Lemma refused_not_answered reply data :
  transport_failed reply \/ status_refused reply -> answered reply data -> False.
Proof.
  intros [(c & m & ->) | (s & st & d & -> & Hs)] (s' & st' & rc & Ha & Hs' & _);
    try discriminate.
  injection Ha as <- <- <-. lia.
Qed.

Lemma other_not_answered reply data :
  other_exception reply -> answered reply data -> False.
Proof.
  intros [-> | (s & st & d & -> & _ & Hm)] (s' & st' & rc & Ha & _ & Hm');
    try discriminate.
  injection Ha as <- <- <-. congruence.
Qed.

Lemma busy_answered reply :
  busy reply -> exists data, answered reply data /\
                             member data (lit "retcode") = Some (VNumber (Num (-2016))).
Proof.
  intros (s & st & d & -> & Hs & Hm). exists d. split; [|assumption].
  now exists s, st, (VNumber (Num (-2016))).
Qed.

Lemma answered_data reply data data' :
  answered reply data -> answered reply data' -> data = data'.
Proof.
  intros (s & st & rc & -> & _) (s' & st' & rc' & Ha & _). now injection Ha.
Qed.

(** The exit of a run can be told from the reply it ended on. *)
Lemma sends_exit_of_reply h url method ttl r w e x :
  sends h url method ttl r w e x ->
  (final_reply h x = None -> e = Hit) /\
  (forall reply, final_reply h x = Some reply ->
     (transport_failed reply \/ status_refused reply -> e = Failed) /\
     (other_exception reply -> e = Swallowed) /\
     (forall data, answered reply data -> e = Stored)).
Proof.
  intros Hs. pose proof (sends_exit _ _ _ _ _ _ _ _ Hs) as Hspec.
  destruct e; cbn [exit_spec] in Hspec.
  - destruct (sends_hit_inv _ _ _ _ _ _ _ _ Hs eq_refl) as [_ ->].
    split; [reflexivity|]. intros reply Hf. discriminate.
  - destruct Hspec as (reply & err & Hf & Hkind & _).
    split; [congruence|]. intros reply' Hf'.
    assert (reply' = reply) by congruence. subst reply'.
    repeat split; try reflexivity.
    + intros Ho. destruct (refused_not_other _ Hkind Ho).
    + intros d Ha. destruct (refused_not_answered _ _ Hkind Ha).
  - destruct Hspec as (reply & Hf & Hkind & _).
    split; [congruence|]. intros reply' Hf'.
    assert (reply' = reply) by congruence. subst reply'.
    repeat split; try reflexivity.
    + intros Hr. destruct (refused_not_other _ Hr Hkind).
    + intros d Ha. destruct (other_not_answered _ _ Hkind Ha).
  - destruct Hspec as (reply & data & Hf & Hkind & _).
    split; [congruence|]. intros reply' Hf'.
    assert (reply' = reply) by congruence. subst reply'.
    repeat split; try reflexivity.
    + intros Hr. destruct (refused_not_answered _ _ Hr Hkind).
    + intros Ho. destruct (other_not_answered _ _ Ho Hkind).
Qed.

(** Only a reply with [retcode] -2016 is followed by another exchange. *)
Lemma sends_replies h url method ttl r w e x :
  sends h url method ttl r w e x -> e <> Hit ->
  exists earlier reply,
    replies h (calls w) (trace x) = earlier ++ [reply] /\
    Forall busy earlier /\
    final_reply h x = Some reply /\
    List.length earlier = retries_made (trace x).
Proof.
  induction 1; attach_facts; intros Hne; try congruence;
    try (exists [], (axios h (calls w1) url (config_for method r1));
         cbn [replies trace app]; rewrite final_reply_leaf, Hcalls;
         repeat split; constructor).
  destruct (IHsends Hne) as (earlier & reply & Hrep & Hbusy & Hf & Hlen).
  exists (axios h (calls w1) url (config_for method r1) :: earlier), reply.
  cbn [replies trace]. cbn [delay after_exchange calls] in Hrep.
  rewrite <- Hcalls, Hrep, (final_reply_retry _ _ _ _ _ Hf), retries_made_retry.
  rewrite retries_made_cons_call, <- Hlen.
  repeat split; try reflexivity.
  constructor; [|assumption].
  match goal with H : axios _ _ _ _ = _ |- _ => rewrite H end.
  eexists _, _, _. split; [reflexivity|]. split; [now apply ok_status_true|].
  match goal with H : must_retry _ _ = true |- _ =>
    unfold must_retry in H; apply andb_prop in H as [Hnum _] end.
  destruct retcode as [| | |[|z]| | |]; try discriminate.
  cbn in Hnum. apply Z.eqb_eq in Hnum. now subst.
Qed.

(** The reply a run ended on answers its last exchange. *)
Lemma sends_final_reply_index h url method ttl r w e x :
  sends h url method ttl r w e x -> e <> Hit ->
  exists config,
    final_reply h x = Some (axios h (Nat.pred (calls (world x))) url config).
Proof.
  induction 1; intros Hne; try congruence;
    try (eexists; rewrite final_reply_leaf; reflexivity).
  destruct (IHsends Hne) as [config Hf]. exists config.
  now rewrite (final_reply_retry _ _ _ _ _ Hf).
Qed.

(** *** The signature a run leaves *)

Lemma attach_ds_draws h r w r1 w1 :
  attach_ds h r w = (r1, w1) ->
  draws w1 = (draws w + (if ds r then 6 else 0))%nat.
Proof.
  unfold attach_ds, generateDS. destruct (ds r); intros [= <- <-]; cbn; lia.
Qed.

Lemma world_at_0 h r w : world_at h r w 0 = w.
Proof.
  destruct w as [n c d]. unfold world_at. cbn [now calls draws latencies].
  f_equal; try lia. destruct (ds r); lia.
Qed.

Lemma world_at_retry h r w r1 w1 i :
  attach_ds h r w = (r1, w1) ->
  world_at h (retrying r1) (delay 1 (after_exchange h w1)) i = world_at h r w (S i).
Proof.
  intros Hds. pose proof (attach_ds_draws _ _ _ _ _ Hds) as Hdraws. attach_facts.
  unfold world_at. cbn [retrying ds delay after_exchange now calls draws latencies].
  rewrite Hds0, Hnow, Hcalls, Hdraws. f_equal; try lia. destruct (ds r); lia.
Qed.

Lemma attach_ds_signature h r w r1 w1 :
  attach_ds h r w = (r1, w1) ->
  headers r1 = if ds r
               then set (headers r) (lit "DS") (VString (fst (generateDS h w)))
               else headers r.
Proof.
  unfold attach_ds. destruct (ds r); [|now intros [= <- <-]].
  destruct (generateDS h w) as [token w']. now intros [= <- <-].
Qed.

(** A run that went to the server in signature mode leaves in the DS
    header the token generated for its last attempt. *)
Lemma sends_signature h url method ttl r w e x :
  sends h url method ttl r w e x -> e <> Hit ->
  headers (request x)
  = if ds r
    then set (headers r) (lit "DS")
           (VString (fst (generateDS h (world_at h r w (retries_made (trace x))))))
    else headers r.
Proof.
  induction 1 as [ ttl r w Hc
                 | ttl r w r1 w1 code msg Hc Hds Hr
                 | ttl r w r1 w1 status st data Hc Hds Hr Hst
                 | ttl r w r1 w1 Hc Hds Hr
                 | ttl r w r1 w1 status st data Hc Hds Hr Hst Hm
                 | ttl r w r1 w1 status st data retcode e inner Hc Hds Hr Hst Hm Hretry Hin IH
                 | ttl r w r1 w1 status st data retcode Hc Hds Hr Hst Hm Hretry ];
    intros Hne; try congruence;
    try (cbn [request trace stored headers];
         change (retries_made [AxiosCall url (config_for method r1)]) with 0%nat;
         rewrite world_at_0; exact (attach_ds_signature _ _ _ _ _ Hds)).
  cbn [request trace]. rewrite retries_made_retry, retries_made_cons_call.
  rewrite (IH Hne), (world_at_retry _ _ _ _ _ _ Hds).
  pose proof (attach_ds_signature _ _ _ _ _ Hds) as Hh. attach_facts.
  cbn [retrying ds headers]. rewrite Hds0, Hh.
  destruct (ds r); [|reflexivity]. apply CookieFacts.set_set.
Qed.

(** A run starts with an exchange unless the cache answers. *)
Lemma sends_first_event h url method ttl r w e x :
  sends h url method ttl r w e x ->
  if truthy (Cache.get h (cache r) (cache_key url method r) (now w))
  then e = Hit /\ request x = r /\ trace x = [Log cached_line]
  else e <> Hit /\
       exists rest,
         trace x = AxiosCall url (config_for method (fst (attach_ds h r w))) :: rest.
Proof.
  intros Hs.
  destruct (truthy (Cache.get h (cache r) (cache_key url method r) (now w))) eqn:Hc.
  - inversion Hs; subst; try congruence. now repeat split.
  - split.
    + intros ->. destruct (sends_hit_inv _ _ _ _ _ _ _ _ Hs eq_refl). congruence.
    + inversion Hs; subst; try congruence;
        match goal with H : attach_ds _ _ _ = _ |- _ => rewrite H end;
        cbn [fst trace]; eauto.
Qed.

(** *** Retrying on -2016 *)

(** With [n] retries left and only -2016 answers, a cycle makes [n]
    retries and stores the answer to its last exchange. *)
Lemma busy_cycle h url method (n : nat) :
  forall ttl r w,
    retries r = 61 - Z.of_nat n ->
    truthy (Cache.get h (cache r) (cache_key url method r) (now w)) = false ->
    (forall i config, (i <= n)%nat -> busy (axios h (calls w + i) url config)) ->
    exists x,
      sends h url method ttl r w Stored x /\
      retries_made (trace x) = n /\ exchanges_made (trace x) = S n.
Proof.
  induction n as [|n IH]; intros ttl r w Hr Hmiss Hbusy;
    destruct (attach_ds h r w) as [r1 w1] eqn:Hds; attach_facts;
    destruct (Hbusy 0%nat (config_for method r1) ltac:(lia))
      as (status & st & data & Hreply & Hst & Hm);
    rewrite Nat.add_0_r, <- Hcalls in Hreply; apply ok_status_true in Hst.
  - eexists. split.
    { eapply sends_stored; eauto.
      unfold must_retry. cbn [is_number]. rewrite Hretries, Hr. reflexivity. }
    split; reflexivity.
  - destruct (IH None (retrying r1) (delay 1 (after_exchange h w1)))
      as (inner & Hin & Hret & Hex).
    + cbn [retrying retries]. lia.
    + unfold cache_key. cbn [retrying cache body params].
      rewrite Hcache, Hbody, Hparams.
      eapply miss_persists; [exact Hmiss|]. cbn. lia.
    + intros i config Hi. cbn [delay after_exchange calls].
      rewrite Hcalls. replace (S (calls w) + i)%nat with (calls w + S i)%nat by lia.
      apply Hbusy. lia.
    + eexists. split; [|split].
      * eapply sends_retry; eauto.
        unfold must_retry. cbn [is_number]. rewrite Hretries, Hr.
        apply andb_true_intro. split; [reflexivity|]. apply Z.leb_le. lia.
      * cbn [trace]. now rewrite retries_made_retry, retries_made_cons_call, Hret.
      * unfold exchanges_made in *. cbn [trace List.filter is_exchange List.length].
        now rewrite Hex.
Qed.

(** C1, amended.  When the cache misses and the answer to the exchange is
    a response of status 200 or 201 with retcode -2016 while the retry
    counter is at most 60, [send] increments the counter, waits one second
    and runs [send(url, method)] again, without the ttl; its outcome is
    that of the inner call.  A cycle that starts with the counter at 1 or
    more makes at most 60 retries.  Starting from a counter of 1 with only
    such answers it makes exactly 60 retries and 61 exchanges, and the
    answer to the 61st exchange is returned as it is; more generally a
    counter of [61 - n] leaves [n] retries, the retries of a cycle that
    ended in an error being counted with those of the next.  A response of
    any other status is not retried, whatever its retcode and whatever
    the counter: the status is tested first and [send] throws. *)
Theorem send_retries_on_2016 h url method ttl r w :
  (forall r1 w1,
      truthy (Cache.get h (cache r) (cache_key url method r) (now w)) = false ->
      attach_ds h r w = (r1, w1) ->
      busy (axios h (calls w1) url (config_for method r1)) ->
      retries r <= 60 ->
      exists inner,
        send h url method None (retrying r1) (delay 1 (after_exchange h w1))
          = Some inner /\
        retries (retrying r1) = retries r + 1 /\
        now (delay 1 (after_exchange h w1))
          = now w + Z.of_N (latency h (calls w)) + 1000 /\
        send h url method ttl r w =
          Some {| result := result inner; request := request inner;
                  world := world inner;
                  trace := AxiosCall url (config_for method r1) :: Delay 1
                             :: trace inner |}) /\
  (forall x,
      1 <= retries r -> send h url method ttl r w = Some x ->
      (retries_made (trace x) <= 60)%nat) /\
  (retries r = 1 ->
   truthy (Cache.get h (cache r) (cache_key url method r) (now w)) = false ->
   (forall n config, (n <= 60)%nat -> busy (axios h (calls w + n) url config)) ->
   exists x status statusText data,
     send h url method ttl r w = Some x /\
     retries_made (trace x) = 60%nat /\ exchanges_made (trace x) = 61%nat /\
     calls (world x) = (calls w + 61)%nat /\
     final_reply h x = Some (Resolved status statusText data) /\
     member data (lit "retcode") = Some (VNumber (Num (-2016))) /\
     result x = Return data) /\
  (forall n : nat,
      retries r = 61 - Z.of_nat n ->
      truthy (Cache.get h (cache r) (cache_key url method r) (now w)) = false ->
      (forall i config, (i <= n)%nat -> busy (axios h (calls w + i) url config)) ->
      exists x,
        send h url method ttl r w = Some x /\
        retries_made (trace x) = n /\ exchanges_made (trace x) = S n /\
        retries (request x) = 1) /\
  (forall r1 w1 status statusText data,
      truthy (Cache.get h (cache r) (cache_key url method r) (now w)) = false ->
      attach_ds h r w = (r1, w1) ->
      axios h (calls w1) url (config_for method r1) = Resolved status statusText data ->
      status <> 200 -> status <> 201 ->
      send h url method ttl r w =
        Some {| result := Throw (request_error (Number_toString (Num status)) statusText);
                request := r1; world := after_exchange h w1;
                trace := [AxiosCall url (config_for method r1)] |} /\
      retries r1 = retries r).
Proof.
  split; [|split; [|split; [|split]]].
  - intros r1 w1 Hmiss Hds (status & st & data & Hreply & Hst & Hm) Hle.
    attach_facts.
    destruct (send_total h url method None (retrying r1)
                (delay 1 (after_exchange h w1))) as [inner Hinner].
    exists inner. split; [exact Hinner|]. split; [cbn; lia|].
    split; [cbn; rewrite Hnow, Hcalls; lia|].
    apply send_sends in Hinner as [e He]. apply send_sends. exists e.
    eapply sends_retry; eauto.
    + now apply ok_status_true.
    + unfold must_retry. cbn [is_number]. rewrite Hretries.
      apply andb_true_intro. split; [reflexivity|]. now apply Z.leb_le.
  - intros x Hr Hx. apply send_sends in Hx as [e He].
    pose proof (sends_retries_bound _ _ _ _ _ _ _ _ He). lia.
  - intros Hr Hmiss Hbusy.
    destruct (busy_cycle h url method 60 ttl r w) as (x & Hx & Hret & Hex);
      [rewrite Hr; reflexivity | assumption | assumption |].
    pose proof (sends_exit _ _ _ _ _ _ _ _ Hx) as (reply & data & Hf & Ha & Hres & _).
    pose proof (sends_clock _ _ _ _ _ _ _ _ Hx) as [_ Hcalls]. rewrite Hex in Hcalls.
    destruct (sends_final_reply_index _ _ _ _ _ _ _ _ Hx) as [config Hidx];
      [discriminate|].
    rewrite Hcalls in Hidx.
    replace (Nat.pred (calls w + 61)) with (calls w + 60)%nat in Hidx by lia.
    assert (Hb : busy reply).
    { assert (reply = axios h (calls w + 60) url config) as -> by congruence.
      apply Hbusy. lia. }
    destruct (busy_answered _ Hb) as (data' & Ha' & Hm).
    assert (data = data') as <- by (eapply answered_data; eassumption).
    destruct Ha as (status & st & rc & -> & _).
    exists x, status, st, data. repeat split; try assumption.
    now apply send_sends; exists Stored.
  - intros n Hr Hmiss Hbusy.
    destruct (busy_cycle h url method n ttl r w Hr Hmiss Hbusy) as (x & Hx & Hret & Hex).
    pose proof (sends_exit _ _ _ _ _ _ _ _ Hx) as (? & ? & _ & _ & _ & _ & Hone & _).
    exists x. repeat split; try assumption. now apply send_sends; exists Stored.
  - intros r1 w1 status statusText data Hmiss Hds Hreply H200 H201.
    attach_facts. split; [|assumption].
    apply send_sends. exists Failed. eapply sends_status; eauto.
    now apply ok_status_false.
Qed.

(** The retry counter never falls below 1. *)
Lemma send_keeps_counter_positive h url method ttl r w x :
  send h url method ttl r w = Some x -> 1 <= retries r -> 1 <= retries (request x).
Proof.
  intros Hx Hr. apply send_sends in Hx as [e He].
  pose proof (sends_exit _ _ _ _ _ _ _ _ He) as Hspec.
  destruct e; cbn [exit_spec] in Hspec.
  - now destruct (sends_hit_inv _ _ _ _ _ _ _ _ He eq_refl) as [_ ->].
  - destruct Hspec as (? & ? & _ & _ & _ & _ & _ & _ & Hcount). lia.
  - destruct Hspec as (? & _ & _ & _ & _ & _ & Hcount). lia.
  - destruct Hspec as (? & ? & _ & _ & _ & _ & Hcount & _). lia.
Qed.


Lemma send_retries_on_2016_witness :
  retries (new None) = 1 /\
  exists x,
    send Examples.always_busy Examples.info_url GET (Some 300) (new None) Examples.start
      = Some x /\
    retries_made (trace x) = 60%nat /\ exchanges_made (trace x) = 61%nat /\
    result x = Return (Examples.envelope (-2016)).
Proof.
  split; [reflexivity|].
  destruct (send_retries_on_2016 Examples.always_busy Examples.info_url GET (Some 300)
              (new None) Examples.start) as (_ & _ & H61 & _).
  destruct H61 as (x & status & st & data & Hx & Hret & Hex & Hcalls & Hf & Hm & Hres).
  - reflexivity.
  - reflexivity.
  - intros n config Hn. exists 200, (lit "OK"), (Examples.envelope (-2016)).
    repeat split. now left.
  - exists x. repeat split; try assumption.
    unfold final_reply in Hf.
    destruct (List.last (trace x) (Log [])); try discriminate.
    cbn in Hf. injection Hf as Hs Ht Hd. subst data. exact Hres.
Defined.

(** C1, as stated, fails: a response with retcode -2016 whose status is
    202 is not retried, though the counter is at 1; [send] throws after
    the one exchange. *)
Lemma send_does_not_retry_on_202 :
  axios Examples.busy_accepted 0 Examples.info_url (config_for GET (new None))
  = Resolved 202 (lit "Accepted") (Examples.envelope (-2016)) /\
  member (Examples.envelope (-2016)) (lit "retcode") = Some (VNumber (Num (-2016))) /\
  retries (new None) = 1 /\
  exists x,
    send Examples.busy_accepted Examples.info_url GET None (new None) Examples.start
      = Some x /\
    result x = Throw (HoyolabError (lit "Request Error: [202] - Accepted")) /\
    retries_made (trace x) = 0%nat /\ exchanges_made (trace x) = 1%nat /\
    retries (request x) = 1.
Proof.
  split; [reflexivity|]. split; [reflexivity|]. split; [reflexivity|].
  eexists. split; [reflexivity|]. repeat split.
Qed.

(** *** Errors *)

Lemma request_eq (a b : t) :
  headers a = headers b -> body a = body b -> params a = params b ->
  cache a = cache b -> ds a = ds b -> retries a = retries b -> a = b.
Proof. destruct a, b; cbn; intros; subst; reflexivity. Qed.

(** C4, amended.  [send] throws exactly when the exchange it ended on was
    refused: axios rejected with an AxiosError, or the response had a status
    other than 200 and 201 (a 204 is refused too).  The error is the
    HoyolabError "Request Error: [code] - message" built from the code and
    message of the AxiosError, or from the status and status text.  A
    refused exchange is never retried: every exchange that was followed by
    another one had been answered with retcode -2016.  Any other exception
    of the [try] block is swallowed and the envelope
    [{retcode: -9999, message: "", data: null}] is returned. *)
Theorem send_throws_iff_refused h url method ttl r w x :
  send h url method ttl r w = Some x ->
  ((exists err, result x = Throw err) <->
   (exists reply, final_reply h x = Some reply /\
                  (transport_failed reply \/ status_refused reply))) /\
  (forall reply,
      final_reply h x = Some reply ->
      transport_failed reply \/ status_refused reply ->
      exists err, error_of reply = Some err /\ result x = Throw err) /\
  (forall earlier reply,
      replies h (calls w) (trace x) = earlier ++ [reply] -> Forall busy earlier) /\
  (forall reply,
      final_reply h x = Some reply -> other_exception reply ->
      result x = Return swallowed /\
      swallowed = VObject [(lit "retcode", VNumber (Num (-9999)));
                           (lit "message", VString []);
                           (lit "data", VNull)]).
Proof.
  intros Hx. apply send_sends in Hx as [e He].
  pose proof (sends_exit _ _ _ _ _ _ _ _ He) as Hspec.
  pose proof (sends_exit_of_reply _ _ _ _ _ _ _ _ He) as [Hnone Hsome].
  assert (Hrefused : forall reply,
             final_reply h x = Some reply ->
             transport_failed reply \/ status_refused reply ->
             exists err, error_of reply = Some err /\ result x = Throw err).
  { intros reply Hf Hkind. destruct (Hsome _ Hf) as (Hfail & _).
    rewrite (Hfail Hkind) in Hspec.
    destruct Hspec as (reply' & err & Hf' & _ & Herr & Hres & _).
    exists err. split; [congruence | assumption]. }
  split; [split|split; [exact Hrefused|split]].
  - intros [err Herr]. destruct e; cbn [exit_spec] in Hspec.
    + destruct (sends_hit_inv _ _ _ _ _ _ _ _ He eq_refl) as [_ ->]. discriminate.
    + destruct Hspec as (reply & ? & Hf & Hkind & _). now exists reply.
    + destruct Hspec as (? & _ & _ & Hres & _). congruence.
    + destruct Hspec as (? & ? & _ & _ & Hres & _). congruence.
  - intros (reply & Hf & Hkind).
    destruct (Hrefused _ Hf Hkind) as (err & _ & Hres). now exists err.
  - intros earlier reply Hrep.
    destruct (exit_eq_dec e Hit) as [-> | Hne].
    + destruct (sends_hit_inv _ _ _ _ _ _ _ _ He eq_refl) as [_ ->].
      cbn in Hrep. now destruct earlier.
    + destruct (sends_replies _ _ _ _ _ _ _ _ He Hne)
        as (earlier' & reply' & Hrep' & Hbusy & _).
      rewrite Hrep in Hrep'. apply app_inj_tail in Hrep' as [-> _]. exact Hbusy.
  - intros reply Hf Hkind. split; [|reflexivity].
    destruct (Hsome _ Hf) as (_ & Hsw & _). rewrite (Hsw Hkind) in Hspec.
    now destruct Hspec as (? & _ & _ & Hres & _).
Qed.

Lemma send_throws_iff_refused_witness :
  exists x,
    send Examples.down Examples.info_url GET None (new None) Examples.start = Some x /\
    result x = Throw (request_error (lit "ECONNRESET") (lit "socket hang up")).
Proof.
  eexists. split; [reflexivity|].
  match goal with |- result ?x = _ =>
    destruct (proj1 (proj2 (send_throws_iff_refused Examples.down Examples.info_url GET None
                              (new None) Examples.start x eq_refl))
                (RejectedAxios (Some (lit "ECONNRESET")) (lit "socket hang up")))
      as (err & Herr & Hres)
  end.
  - reflexivity.
  - left. now eexists _, _.
  - injection Herr as <-. exact Hres.
Defined.

(** C4, as stated, fails: a 204 is a 2xx status and the transport did not
    fail, yet [send] throws. *)
Lemma send_throws_on_204 :
  axios Examples.no_content 0 Examples.info_url
    (config_for GET (new None)) = Resolved 204 (lit "No Content") (VString []) /\
  exists x,
    send Examples.no_content Examples.info_url GET None (new None) Examples.start
      = Some x /\
    result x = Throw (HoyolabError (lit "Request Error: [204] - No Content")).
Proof. split; [reflexivity|]. eexists. split; reflexivity. Qed.

(** *** What a call leaves behind *)

(** C3, amended.  Every [send] leaves the query parameters and every
    header other than DS as they were.  A [send] served from the cache
    changes nothing of the request.  A [send] that goes to the server
    leaves the headers as they were when signature mode is off; when it is
    on, the DS header ends up holding the token generated for the last
    attempt, from the clock and the random draws at the start of that
    attempt.  The body is emptied by the call that stores a response, be
    it at once or after retries - not on every path.  That call returns
    the response, resets the retry counter to 1 and caches the response
    under the key of the call; when no retry was made and the
    time-to-live ([ttl] seconds, 30 without a ttl) is positive, the entry
    runs out that many seconds later. *)
Theorem send_state_after h url method ttl r w x :
  send h url method ttl r w = Some x ->
  params (request x) = params r /\
  (forall k, k <> lit "DS" -> get (headers (request x)) k = get (headers r) k) /\
  (ds r = false -> headers (request x) = headers r) /\
  (truthy (Cache.get h (cache r) (cache_key url method r) (now w)) = true ->
   request x = r /\ trace x = [Log cached_line]) /\
  (truthy (Cache.get h (cache r) (cache_key url method r) (now w)) = false ->
   ds r = true ->
   headers (request x)
   = set (headers r) (lit "DS")
       (VString (fst (generateDS h (world_at h r w (retries_made (trace x))))))) /\
  (forall reply data,
      final_reply h x = Some reply -> answered reply data ->
      result x = Return data /\ body (request x) = [] /\ retries (request x) = 1 /\
      cache (request x) =
        Cache.set h (cache r) (cache_key url method r) data
          (effective_ttl ttl (trace x)) (now (world x)) /\
      (retries_made (trace x) = 0%nat -> 0 < Cache.ttl_or_default ttl ->
       Cache.nodeCache (cache (request x)) !! Cache.generateKey h (cache_key url method r)
       = Some {| NodeCache.val := data;
                 NodeCache.expires :=
                   now (world x) + Cache.ttl_or_default ttl * 1000 |})).
Proof.
  intros Hx. apply send_sends in Hx as [e He].
  pose proof (sends_exit _ _ _ _ _ _ _ _ He) as Hspec.
  pose proof (sends_exit_of_reply _ _ _ _ _ _ _ _ He) as [Hnone Hsome].
  destruct (sends_frame _ _ _ _ _ _ _ _ He) as (Hp & Hd & Hh & Hoff).
  pose proof (sends_first_event _ _ _ _ _ _ _ _ He) as Hfirst.
  repeat (split; [assumption|]).
  split.
  { intros Hhit. rewrite Hhit in Hfirst. tauto. }
  split.
  { intros Hmiss Hon. rewrite Hmiss in Hfirst. destruct Hfirst as [Hne _].
    rewrite (sends_signature _ _ _ _ _ _ _ _ He Hne). now rewrite Hon. }
  intros reply data Hf Ha. destruct (Hsome _ Hf) as (_ & _ & Hst).
  rewrite (Hst _ Ha) in Hspec.
  destruct Hspec as (reply' & data' & Hf' & Ha' & Hres & Hb & Hr & Hc).
  assert (reply' = reply) by congruence. subst reply'.
  assert (data' = data) by (eapply answered_data; eassumption). subst data'.
  repeat (split; [assumption|]).
  intros Hnoretry _. rewrite Hc. unfold effective_ttl. rewrite Hnoretry.
  unfold Cache.set. cbn [Cache.nodeCache].
  rewrite CacheFacts.set_lookup. now destruct ttl.
Qed.

Lemma send_state_after_witness :
  exists x,
    send (Examples.scripted (fun _ => Examples.ok 0)) Examples.info_url POST (Some 300)
      (setDs (setBody (new None) [(lit "role_id", VString (lit "601234567"))]) true)
      Examples.start
      = Some x /\
    result x = Return (Examples.envelope 0) /\
    body (request x) = [] /\ retries (request x) = 1 /\
    get (headers (request x)) (lit "DS")
    = VString (lit "1700000000,abcdef,salt=6s25p5ox5y14umn1p61aqyyvbvvl3lrt&t=1700000000&r=abcdef").
Proof.
  eexists. split; [reflexivity|].
  match goal with |- result ?x = _ /\ _ =>
    destruct (send_state_after (Examples.scripted (fun _ => Examples.ok 0))
                Examples.info_url POST (Some 300)
                (setDs (setBody (new None) [(lit "role_id", VString (lit "601234567"))])
                   true)
                Examples.start x eq_refl)
      as (_ & _ & _ & _ & Hsig & Hstore)
  end.
  destruct (Hstore (Examples.ok 0) (Examples.envelope 0)) as (Hres & Hb & Hr & _).
  - reflexivity.
  - exists 200, (lit "OK"), (VNumber (Num 0)). repeat split. now left.
  - repeat (split; [assumption|]). rewrite (Hsig eq_refl eq_refl). reflexivity.
Defined.

(** C3, as stated, fails: after a refused exchange the body is not empty. *)
Lemma send_keeps_body_on_error :
  exists x,
    send Examples.down Examples.info_url POST None
      (setBody (new None) [(lit "role_id", VString (lit "601234567"))]) Examples.start
      = Some x /\
    result x = Throw (request_error (lit "ECONNRESET") (lit "socket hang up")) /\
    body (request x) = [(lit "role_id", VString (lit "601234567"))].
Proof. eexists. split; [reflexivity|]. split; reflexivity. Qed.

(** C10, amended.  A [send] that ends in an error - it throws, or its
    [catch] returns the -9999 envelope - performs none of the updates of
    the success path: the cache, the body and the query parameters are
    unchanged and the retry counter is not reset.  The counter keeps the
    increments of the retries made before the error.  Every header other
    than DS is unchanged; with signature mode off so is DS, with it on DS
    holds the token generated for the last attempt.  The request is
    unchanged as a whole exactly when the call made no retry and left the
    headers as they were, as it does when signature mode is off and no
    retry was made. *)
Theorem send_error_skips_updates h url method ttl r w x :
  send h url method ttl r w = Some x ->
  (exists err, result x = Throw err) \/
  (exists reply, final_reply h x = Some reply /\ other_exception reply) ->
  ((exists err, result x = Throw err) \/ result x = Return swallowed) /\
  cache (request x) = cache r /\
  body (request x) = body r /\
  params (request x) = params r /\
  retries (request x) = retries r + Z.of_nat (retries_made (trace x)) /\
  retries r <= retries (request x) /\
  (forall k, k <> lit "DS" -> get (headers (request x)) k = get (headers r) k) /\
  (ds r = false -> headers (request x) = headers r) /\
  (ds r = true ->
   headers (request x)
   = set (headers r) (lit "DS")
       (VString (fst (generateDS h (world_at h r w (retries_made (trace x))))))) /\
  (request x = r <->
   retries_made (trace x) = 0%nat /\ headers (request x) = headers r) /\
  (ds r = false -> retries_made (trace x) = 0%nat -> request x = r).
Proof.
  intros Hx Hend.
  apply send_sends in Hx as [e He].
  pose proof (sends_exit _ _ _ _ _ _ _ _ He) as Hspec.
  pose proof (sends_exit_of_reply _ _ _ _ _ _ _ _ He) as [Hnone Hsome].
  destruct (sends_frame _ _ _ _ _ _ _ _ He) as (Hp & Hd & Hh & Hoff).
  assert (Hfacts :
            ((exists err, result x = Throw err) \/ result x = Return swallowed) /\
            body (request x) = body r /\ cache (request x) = cache r /\
            retries (request x) = retries r + Z.of_nat (retries_made (trace x)) /\
            e <> Hit).
  { destruct Hend as [[err Herr] | (reply & Hf & Hkind)].
    - destruct e; cbn [exit_spec] in Hspec.
      + destruct (sends_hit_inv _ _ _ _ _ _ _ _ He eq_refl) as [_ ->]. discriminate.
      + destruct Hspec as (? & ? & _ & _ & _ & _ & Hb & Hc & Hr).
        repeat split; eauto; discriminate.
      + destruct Hspec as (? & _ & _ & Hres & _). congruence.
      + destruct Hspec as (? & ? & _ & _ & Hres & _). congruence.
    - destruct (Hsome _ Hf) as (_ & Hsw & _). rewrite (Hsw Hkind) in Hspec |- *.
      destruct Hspec as (? & _ & _ & Hres & Hb & Hc & Hr).
      repeat split; auto; discriminate. }
  destruct Hfacts as (Hres & Hb & Hc & Hr & Hne).
  assert (Hwhole : retries_made (trace x) = 0%nat -> headers (request x) = headers r ->
                   request x = r).
  { intros Hnone' Hsame. apply request_eq; auto. rewrite Hr, Hnone'. cbn. lia. }
  repeat (split; [assumption|]). split; [lia|]. split; [assumption|].
  split; [assumption|]. split.
  { intros Hon. rewrite (sends_signature _ _ _ _ _ _ _ _ He Hne). now rewrite Hon. }
  split.
  { split.
    - intros Heq. rewrite Heq in Hr |- *. split; [lia | reflexivity].
    - intros [Hnone' Hsame]. now apply Hwhole. }
  intros Hds Hnone'. apply Hwhole; auto.
Qed.

Lemma send_error_skips_updates_witness :
  exists x,
    send Examples.busy_then_down Examples.info_url GET None (setDs (new None) true)
      Examples.start
      = Some x /\
    cache (request x) = cache (new None) /\ body (request x) = body (new None) /\
    retries (request x) = 2 /\
    get (headers (request x)) (lit "DS")
    = VString (lit "1700000001,ghijkl,salt=6s25p5ox5y14umn1p61aqyyvbvvl3lrt&t=1700000001&r=ghijkl").
Proof.
  eexists. split; [reflexivity|].
  match goal with |- cache (request ?x) = _ /\ _ =>
    destruct (send_error_skips_updates Examples.busy_then_down Examples.info_url GET None
                (setDs (new None) true) Examples.start x eq_refl)
      as (_ & Hc & Hb & _ & Hr & _ & _ & _ & Hsig & _)
  end.
  - left. eexists. reflexivity.
  - split; [assumption|]. split; [assumption|]. split; [exact Hr|].
    rewrite (Hsig eq_refl). reflexivity.
Defined.

(** C10, as stated, fails: a call that retried once and then met a network
    failure throws, and leaves the retry counter at 2. *)
Lemma send_error_after_retry_changes_state :
  exists x,
    send Examples.busy_then_down Examples.info_url GET None (new None) Examples.start
      = Some x /\
    result x = Throw (request_error (lit "ECONNRESET") (lit "socket hang up")) /\
    retries (new None) = 1 /\ retries (request x) = 2 /\
    request x <> new None.
Proof.
  eexists. split; [reflexivity|]. repeat split. intros Heq.
  apply (f_equal retries) in Heq. discriminate.
Qed.

(** *** The cache *)

(** C2, amended.  Take a [send] with a positive time-to-live ([ttl]
    seconds, 30 without a ttl) that went to the server once - no cache
    hit, no retry - and stored a truthy response (every envelope object is
    one).  A following [send] with the same url, method, query parameters
    and body, on the cache the first call left, is served from the cache
    without any exchange as long as it starts within the time-to-live of
    the first call; once that time has passed it goes to the server
    again. *)
Theorem second_send_served_from_cache h url method ttl r w x reply data :
  send h url method ttl r w = Some x ->
  final_reply h x = Some reply -> answered reply data ->
  retries_made (trace x) = 0%nat ->
  truthy data = true ->
  0 < Cache.ttl_or_default ttl ->
  forall ttl2 r2 w2,
    body r2 = body r -> params r2 = params r -> cache r2 = cache (request x) ->
    now (world x) <= now w2 ->
    (now w2 <= now (world x) + Cache.ttl_or_default ttl * 1000 ->
     send h url method ttl2 r2 w2 =
       Some {| result := Return data; request := r2; world := w2;
               trace := [Log cached_line] |}) /\
    (now (world x) + Cache.ttl_or_default ttl * 1000 < now w2 ->
     exists x2 config tr,
       send h url method ttl2 r2 w2 = Some x2 /\
       trace x2 = AxiosCall url config :: tr /\
       (calls w2 < calls (world x2))%nat).
Proof.
  intros Hx Hf Ha Hnoretry Htruthy _ ttl2 r2 w2 Hbody Hparams Hcache Hlater.
  change (Cache.ttl_or_default ttl)
    with (match ttl with Some s => s | None => 30 end).
  apply send_sends in Hx as [e He].
  pose proof (sends_exit _ _ _ _ _ _ _ _ He) as Hspec.
  destruct (sends_exit_of_reply _ _ _ _ _ _ _ _ He) as [_ Hsome].
  destruct (Hsome _ Hf) as (_ & _ & Hst). rewrite (Hst _ Ha) in Hspec.
  destruct Hspec as (reply' & data' & Hf' & Ha' & _ & _ & _ & Hc).
  assert (reply' = reply) by congruence. subst reply'.
  assert (data' = data) by (eapply answered_data; eassumption). subst data'.
  unfold effective_ttl in Hc. rewrite Hnoretry in Hc.
  assert (Hget : forall t,
             Cache.get h (cache r2) (cache_key url method r2) t
             = if t <=? now (world x)
                        + match ttl with Some s => s | None => 30 end * 1000
               then data else VUndefined).
  { intros t. unfold cache_key. rewrite Hbody, Hparams, Hcache, Hc.
    unfold Cache.get, Cache.set. cbn [Cache.nodeCache].
    rewrite CacheFacts.get_set. now destruct ttl. }
  split.
  - intros Hin. apply send_sends. exists Hit.
    pose proof (sends_hit h url method ttl2 r2 w2) as Hhit.
    rewrite Hget in Hhit. destruct (Z.leb_spec (now w2)
      (now (world x) + match ttl with Some s => s | None => 30 end * 1000)); [|lia].
    now apply Hhit.
  - intros Hout.
    destruct (send_total h url method ttl2 r2 w2) as [x2 Hx2].
    assert (Hmiss : truthy (Cache.get h (cache r2) (cache_key url method r2) (now w2))
                    = false).
    { rewrite Hget. destruct (Z.leb_spec (now w2)
        (now (world x) + match ttl with Some s => s | None => 30 end * 1000));
        [lia | reflexivity]. }
    pose proof Hx2 as Hs. apply send_sends in Hs as [e2 He2].
    pose proof (sends_clock _ _ _ _ _ _ _ _ He2) as [_ Hcalls].
    assert (Htrace : exists config tr, trace x2 = AxiosCall url config :: tr).
    { inversion He2; subst; try congruence; cbn [trace]; eauto. }
    destruct Htrace as (config & tr & Htr).
    exists x2, config, tr. split; [exact Hx2|]. split; [exact Htr|].
    rewrite Hcalls, Htr. unfold exchanges_made. cbn. lia.
Qed.

Lemma second_send_served_from_cache_witness :
  exists x,
    send (Examples.scripted (fun _ => Examples.ok 0)) Examples.info_url GET (Some 300)
      (new None) Examples.start = Some x /\
    send (Examples.scripted (fun _ => Examples.ok 0)) Examples.info_url GET None
      (request x) (Examples.later 299000 (world x))
    = Some {| result := Return (Examples.envelope 0); request := request x;
              world := Examples.later 299000 (world x);
              trace := [Log cached_line] |}.
Proof.
  eexists. split; [reflexivity|].
  match goal with |- send _ _ _ _ (request ?x) _ = _ =>
    apply (fun A B C D P E F G H =>
             proj1 (second_send_served_from_cache
                      (Examples.scripted (fun _ => Examples.ok 0)) Examples.info_url GET
                      (Some 300) (new None) Examples.start x (Examples.ok 0)
                      (Examples.envelope 0) eq_refl A B C D P None (request x)
                      (Examples.later 299000 (world x)) E F G H))
  end.
  - reflexivity.
  - exists 200, (lit "OK"), (VNumber (Num 0)). repeat split. now left.
  - reflexivity.
  - reflexivity.
  - reflexivity.
  - reflexivity.
  - reflexivity.
  - reflexivity.
  - cbn. lia.
  - cbn. lia.
Defined.

(** C2, as stated, fails: a call with a ttl of 300 s that succeeds after
    one retry caches its response for 30 s only, so the same call made
    100 s later goes to the server. *)
Lemma retried_send_forgets_ttl :
  exists x1 x2,
    send Examples.busy_once Examples.info_url GET (Some 300) (new None) Examples.start
      = Some x1 /\
    result x1 = Return (Examples.envelope 0) /\
    body (request x1) = body (new None) /\ params (request x1) = params (new None) /\
    now (Examples.later 100000 (world x1)) <= now (world x1) + 300 * 1000 /\
    send Examples.busy_once Examples.info_url GET (Some 300) (request x1)
      (Examples.later 100000 (world x1)) = Some x2 /\
    exchanges_made (trace x2) = 1%nat /\
    calls (world x2) = S (calls (world x1)).
Proof.
  eexists _, _. split; [reflexivity|].
  split; [reflexivity|]. split; [reflexivity|]. split; [reflexivity|].
  split; [cbn; lia|]. split; [reflexivity|]. split; reflexivity.
Qed.

End RequestFacts.

(** ** Redeeming a code *)

Module RedeemFacts.
Import Js Request Redeem ObjFacts RequestFacts.





End RedeemFacts.

(** ** The region helpers of Honkai: Star Rail and Honkai Impact *)

Module RegionFacts.
Import Js NumberFacts.

(** X1.  [getHsrRegion] reads the leading decimal digit of a UID that is
    a safe integer (at most 2^53 - 1): 6 and 8 both give
    "prod_official_asia", 7 gives "prod_official_euro", 9 gives
    "prod_official_cht"; any other leading digit, a UID that is not
    positive and [NaN] throw the HoyolabError "Given UID ... is invalid !".
    No UID resolves to a value other than these three.  Beyond the safe
    integers the first character of the printed form decides: the double
    99999999999999991611392 prints as "1e+23" and is refused. *)
Theorem getHsrRegion_leading_digit :
  (forall (uid d : Z) (k : nat),
      1 <= d <= 9 ->
      d * 10 ^ Z.of_nat k <= uid < (d + 1) * 10 ^ Z.of_nat k ->
      uid <= max_safe_integer ->
      Hsr.getHsrRegion (Num uid) =
        if (d =? 6) || (d =? 8) then Return (lit "prod_official_asia")
        else if d =? 7 then Return (lit "prod_official_euro")
        else if d =? 9 then Return (lit "prod_official_cht")
        else Hsr.invalid_uid (Num uid)) /\
  (forall uid, uid <= 0 -> Hsr.getHsrRegion (Num uid) = Hsr.invalid_uid (Num uid)) /\
  Hsr.getHsrRegion NaN = Hsr.invalid_uid NaN /\
  (forall uid code,
      Hsr.getHsrRegion uid = Return code ->
      code = lit "prod_official_asia" \/ code = lit "prod_official_euro" \/
      code = lit "prod_official_cht") /\
  Hsr.getHsrRegion (Num 99999999999999991611392)
  = Throw (HoyolabError (lit "Given UID 1e+23 is invalid !")).
Proof.
  split; [|split; [|split; [|split]]]; [| | | |now vm_compute].
  - intros uid d k Hd Huid Hsafe. unfold Hsr.getHsrRegion, Hsr.invalid_uid.
    rewrite (server_region_of_uid uid d k Hd Huid Hsafe).
    assert (Hcases : d = 1 \/ d = 2 \/ d = 3 \/ d = 4 \/ d = 5 \/
                     d = 6 \/ d = 7 \/ d = 8 \/ d = 9) by lia.
    repeat (destruct Hcases as [-> | Hcases]; [reflexivity|]).
    subst. reflexivity.
  - intros uid Huid. unfold Hsr.getHsrRegion, Hsr.invalid_uid.
    destruct (server_region_of_nonpositive uid Huid) as [-> | ->]; reflexivity.
  - reflexivity.
  - intros uid code. unfold Hsr.getHsrRegion, Hsr.invalid_uid.
    destruct (Number_of_char _) as [|z]; [discriminate|].
    destruct z as [|p|p]; try discriminate.
    repeat (match goal with q : positive |- _ => destruct q end; try discriminate);
      intros [= <-]; auto.
Qed.

Lemma getHsrRegion_leading_digit_witness :
  (1 <= 8 <= 9) /\
  (8 * 10 ^ Z.of_nat 8 <= 801234567 < (8 + 1) * 10 ^ Z.of_nat 8) /\
  801234567 <= max_safe_integer /\
  Hsr.getHsrRegion (Num 801234567) = Return (lit "prod_official_asia").
Proof.
  split; [lia|]. split; [cbn; lia|]. split; [now vm_compute|].
  apply (proj1 getHsrRegion_leading_digit 801234567 8 8%nat);
    [lia | cbn; lia | now vm_compute].
Defined.

(** X2.  [getHi3Region] on an integer UID: strictly between 10^7 and
    10^8 it returns "overseas01", strictly between 10^8 and 2*10^8
    "usa01"; strictly between 2*10^8 and 3*10^8 it returns [undefined],
    because the key "EURO" it computes is not a member of [HonkaiRegion];
    everywhere else, the bounds 10^8 and 2*10^8 included, and for [NaN],
    it throws the HoyolabError "Given UID ... is invalid !", whose text
    holds the number as the engine prints it: all the digits of a safe
    integer, "1e+21" for 10^21.  It never returns "eur01". *)
Theorem getHi3Region_ranges :
  (forall uid, 10000000 < uid < 100000000 ->
               Honkai.getHi3Region (Num uid) = Return (VString (lit "overseas01"))) /\
  (forall uid, 100000000 < uid < 200000000 ->
               Honkai.getHi3Region (Num uid) = Return (VString (lit "usa01"))) /\
  (forall uid, 200000000 < uid < 300000000 ->
               Honkai.getHi3Region (Num uid) = Return VUndefined) /\
  (forall uid, uid <= 10000000 \/ uid = 100000000 \/ uid = 200000000 \/
               300000000 <= uid ->
               Honkai.getHi3Region (Num uid) = Honkai.invalid_uid (Num uid)) /\
  Honkai.getHi3Region NaN = Honkai.invalid_uid NaN /\
  (forall uid, Honkai.getHi3Region uid
               <> Return (VString (Honkai.region_code Honkai.EUROPE))) /\
  (forall uid, 0 <= uid <= max_safe_integer ->
               Honkai.invalid_uid (Num uid)
               = Throw (HoyolabError
                          (lit "Given UID " ++ digits_of (digit_budget uid) uid
                           ++ lit " is invalid !"))) /\
  Honkai.getHi3Region (Num 300000000)
  = Throw (HoyolabError (lit "Given UID 300000000 is invalid !")) /\
  Honkai.getHi3Region (Num (10 ^ 21))
  = Throw (HoyolabError (lit "Given UID 1e+21 is invalid !")).
Proof.
  assert (Hcmp : forall uid lo hi,
             gt (Num uid) (Num lo) && lt (Num uid) (Num hi)
             = (lo <? uid) && (uid <? hi)) by reflexivity.
  split; [|split; [|split; [|split; [|split; [|split; [|split; [|split]]]]]]];
    [| | | | | | |now vm_compute|now vm_compute].
  - intros uid H. unfold Honkai.getHi3Region. rewrite Hcmp.
    replace ((10000000 <? uid) && (uid <? 100000000)) with true by lia.
    reflexivity.
  - intros uid H. unfold Honkai.getHi3Region. rewrite !Hcmp.
    replace ((10000000 <? uid) && (uid <? 100000000)) with false by lia.
    replace ((100000000 <? uid) && (uid <? 200000000)) with true by lia.
    reflexivity.
  - intros uid H. unfold Honkai.getHi3Region. rewrite !Hcmp.
    replace ((10000000 <? uid) && (uid <? 100000000)) with false by lia.
    replace ((100000000 <? uid) && (uid <? 200000000)) with false by lia.
    replace ((200000000 <? uid) && (uid <? 300000000)) with true by lia.
    reflexivity.
  - intros uid H. unfold Honkai.getHi3Region. rewrite !Hcmp.
    replace ((10000000 <? uid) && (uid <? 100000000)) with false by lia.
    replace ((100000000 <? uid) && (uid <? 200000000)) with false by lia.
    replace ((200000000 <? uid) && (uid <? 300000000)) with false by lia.
    reflexivity.
  - reflexivity.
  - intros uid. unfold Honkai.getHi3Region, Honkai.invalid_uid.
    destruct (_ && _); [vm_compute; discriminate|].
    destruct (_ && _); [vm_compute; discriminate|].
    destruct (_ && _); [vm_compute; discriminate|].
    discriminate.
  - intros uid Huid. unfold Honkai.invalid_uid.
    now rewrite Number_toString_safe.
Qed.

Lemma getHi3Region_ranges_witness :
  Honkai.getHi3Region (Num 250000000) = Return VUndefined /\
  Honkai.getHi3Region (Num 100000000) = Honkai.invalid_uid (Num 100000000) /\
  Honkai.invalid_uid (Num 100000000)
  = Throw (HoyolabError (lit "Given UID 100000000 is invalid !")).
Proof.
  split; [|split].
  - apply (proj1 (proj2 (proj2 getHi3Region_ranges)) 250000000). lia.
  - apply (proj1 (proj2 (proj2 (proj2 getHi3Region_ranges))) 100000000). lia.
  - apply (proj1 (proj2 (proj2 (proj2 (proj2 (proj2 (proj2 getHi3Region_ranges))))))
             100000000).
    now vm_compute.
Defined.

End RegionFacts.

(** ** Languages and identifiers *)

Module NameFacts.
Import Js Cookie StringFacts.

(** X3.  [Language.parseLang] normalises: its result is always a value of
    [LanguageEnum]; a string of the enum is returned as it is; anything
    else (a string outside the enum, the empty string, null, undefined, a
    value that is not a string) gives "en-us"; and parsing the result
    again changes nothing. *)
Theorem parseLang_normalises (lang : value) :
  In (Language.parseLang lang) Language.LanguageEnum /\
  (forall l, lang = VString l -> In l Language.LanguageEnum ->
             Language.parseLang lang = l) /\
  ((forall l, lang = VString l -> ~ In l Language.LanguageEnum) ->
   Language.parseLang lang = Language.ENGLISH) /\
  Language.parseLang (VString (Language.parseLang lang)) = Language.parseLang lang.
Proof.
  assert (Hin := CookieFacts.parseLang_in_enum lang).
  split; [exact Hin|]. split; [|split].
  - intros l -> Hl. now apply CookieFacts.language_plain.
  - intros Hout. unfold Language.parseLang.
    destruct (negb (truthy lang)); [reflexivity|].
    destruct lang; try reflexivity.
    destruct (List.find _ _) as [m|] eqn:E; [|reflexivity].
    apply find_some in E as [Hm Heq]. apply ObjFacts.str_eqb_eq in Heq. subst m.
    now destruct (Hout s eq_refl).
  - now apply CookieFacts.language_plain.
Qed.

Lemma parseLang_normalises_witness :
  Language.parseLang (VString (lit "ja-jp")) = lit "ja-jp".
Proof.
  apply (proj1 (proj2 (parseLang_normalises (VString (lit "ja-jp")))) (lit "ja-jp")).
  - reflexivity.
  - unfold Language.LanguageEnum. cbn [List.map In]. do 8 right. left. reflexivity.
Defined.

End NameFacts.

(** ** More on cookies: names, unknown entries, the parsed object *)

Module CookieMoreFacts.
Import Js Cookie ObjFacts StringFacts CookieFacts.

Lemma snake_char (c : N) :
  is_lower c = true \/ is_digit c = true ->
  is_upper c = false /\ c <> 32%N /\ c <> 95%N /\ to_lower c = c.
Proof.
  intros H.
  assert (Hup : is_upper c = false).
  { unfold is_lower, is_digit, is_upper in *.
    destruct H as [H | H]; apply andb_true_iff in H as [H1 H2];
      apply N.leb_le in H1; apply N.leb_le in H2;
      apply andb_false_iff; [right | left]; apply N.leb_gt; lia. }
  split; [exact Hup|]. unfold to_lower. rewrite Hup.
  repeat split; intros ->; destruct H as [H | H]; vm_compute in H; discriminate H.
Qed.

Lemma capital_char (c : N) :
  is_lower c = true ->
  is_upper (to_upper c) = true /\ to_upper c <> 32%N /\ to_upper c <> 95%N /\
  to_lower (to_upper c) = c.
Proof.
  intros H. unfold to_upper. rewrite H.
  unfold is_lower in H. apply andb_true_iff in H as [H1 H2].
  apply N.leb_le in H1. apply N.leb_le in H2.
  assert (Hup : is_upper (c - 32) = true).
  { unfold is_upper. apply andb_true_iff. split; apply N.leb_le; lia. }
  split; [exact Hup|]. unfold to_lower. rewrite Hup. repeat split; lia.
Qed.

Lemma join_cons (sep w : jsstring) (ws : list jsstring) :
  join sep (w :: ws) = w ++ List.concat (List.map (app sep) ws).
Proof.
  revert w. induction ws as [|w' ws IH]; intros w.
  - cbn. now rewrite app_nil_r.
  - change (join sep (w :: w' :: ws)) with (w ++ sep ++ join sep (w' :: ws)).
    rewrite IH. cbn [List.map List.concat]. now rewrite <- app_assoc.
Qed.

Lemma split_join_words (sep : N) (ws : list jsstring) : forall w,
  Forall (Forall (fun c => c <> sep)) (w :: ws) ->
  split sep (join [sep] (w :: ws)) = w :: ws.
Proof.
  induction ws as [|w' ws IH]; intros w H.
  - cbn [join]. apply split_none. now inversion H.
  - change (join [sep] (w :: w' :: ws)) with (w ++ sep :: join [sep] (w' :: ws)).
    inversion H; subst. rewrite split_app by assumption. now rewrite IH.
Qed.

(** The words of a snake-case identifier, and the same words capitalised,
    hold neither "_" nor " ". *)
Lemma snake_word_clean (w : jsstring) :
  snake_word w ->
  Forall (fun c => c <> 95%N) w /\ Forall (fun c => c <> 32%N) w /\
  List.map to_lower w = w /\
  List.flat_map (fun c => if is_upper c then [32%N; c] else [c]) w = w.
Proof.
  induction 1 as [|c w Hc Hw (IH1 & IH2 & IH3 & IH4)]; [repeat split; constructor|].
  destruct (snake_char c Hc) as (Hup & H32 & H95 & Hlow).
  repeat split; try (constructor; assumption).
  - cbn [List.map]. now rewrite Hlow, IH3.
  - cbn [List.flat_map]. now rewrite Hup, IH4.
Qed.

Lemma capitalize_clean (w : jsstring) :
  snake_word w -> starts_lower w = true ->
  Forall (fun c => c <> 95%N) (capitalize w) /\
  Forall (fun c => c <> 32%N) (capitalize w) /\
  List.map to_lower (capitalize w) = w /\
  List.flat_map (fun c => if is_upper c then [32%N; c] else [c]) (capitalize w)
  = 32%N :: capitalize w.
Proof.
  intros Hw Hs. destruct w as [|c w]; [discriminate|]. cbn in Hs.
  inversion Hw as [|? ? _ Hrest]; subst.
  destruct (snake_word_clean w Hrest) as (H95 & H32 & Hlow & Hflat).
  destruct (capital_char c Hs) as (Hup & Hc32 & Hc95 & Hback).
  cbn [capitalize]. repeat split; try (constructor; assumption).
  - cbn [List.map]. now rewrite Hback, Hlow.
  - cbn [List.flat_map]. now rewrite Hup, Hflat.
Qed.

Lemma lower_join (ws : list jsstring) : forall w,
  List.map to_lower (join [95%N] (w :: ws))
  = join [95%N] (List.map (List.map to_lower) (w :: ws)).
Proof.
  induction ws as [|w' ws IH]; intros w; [reflexivity|].
  change (join [95%N] (w :: w' :: ws)) with (w ++ 95%N :: join [95%N] (w' :: ws)).
  rewrite List.map_app. cbn [List.map]. rewrite IH. reflexivity.
Qed.

Lemma snake_word_check (w : jsstring) :
  List.forallb (fun c => is_lower c || is_digit c) w = true -> snake_word w.
Proof.
  intros H. apply Forall_forall. intros c Hc.
  apply (proj1 (List.forallb_forall _ _) H) in Hc. now apply orb_prop in Hc.
Qed.

(** X4.  On a snake-case identifier, that is words of ASCII lower-case
    letters and digits joined by single underscores, each word after the
    first starting with a letter, [toCamelCase] drops the underscores and
    capitalises the words after the first, and [toSnakeCase] takes the
    result back to the identifier. *)
Theorem toSnakeCase_toCamelCase (first : jsstring) (others : list jsstring) :
  snake_word first ->
  Forall (fun w => snake_word w /\ starts_lower w = true) others ->
  toCamelCase (join [95%N] (first :: others))
  = first ++ List.concat (List.map capitalize others) /\
  toSnakeCase (toCamelCase (join [95%N] (first :: others)))
  = join [95%N] (first :: others).
Proof.
  intros Hfirst Hothers.
  destruct (snake_word_clean first Hfirst) as (F95 & F32 & Flow & Fflat).
  assert (Hcaps : Forall (fun w => Forall (fun c => c <> 95%N) w) others /\
                  Forall (fun w => Forall (fun c => c <> 32%N) w)
                         (List.map capitalize others) /\
                  List.map (List.map to_lower) (List.map capitalize others) = others /\
                  List.flat_map (fun c => if is_upper c then [32%N; c] else [c])
                    (List.concat (List.map capitalize others))
                  = List.concat (List.map (app [32%N]) (List.map capitalize others))).
  { clear -Hothers. induction Hothers as [|w ws [Hw Hs] _ (I1 & I2 & I3 & I4)];
      [repeat split; constructor|].
    destruct (snake_word_clean w Hw) as (W95 & _).
    destruct (capitalize_clean w Hw Hs) as (_ & C32 & Clow & Cflat).
    repeat split; try (constructor; assumption).
    - cbn [List.map]. now rewrite Clow, I3.
    - cbn [List.map List.concat]. rewrite List.flat_map_app, Cflat, I4. reflexivity. }
  destruct Hcaps as (O95 & C32 & Clow & Cflat).
  assert (Hcamel : toCamelCase (join [95%N] (first :: others))
                   = first ++ List.concat (List.map capitalize others)).
  { unfold toCamelCase. rewrite split_join_words by (constructor; assumption).
    rewrite join_cons. f_equal. f_equal. clear.
    induction (List.map capitalize others) as [|w ws IH]; [reflexivity|].
    cbn [List.map]. rewrite IH. reflexivity. }
  split; [exact Hcamel|]. rewrite Hcamel. unfold toSnakeCase.
  rewrite List.flat_map_app, Fflat, Cflat, <- join_cons.
  rewrite split_join_words by (constructor; assumption).
  rewrite lower_join. cbn [List.map]. now rewrite Flow, Clow.
Qed.

Lemma toSnakeCase_toCamelCase_witness :
  toSnakeCase (toCamelCase (lit "cookie_token_v2")) = lit "cookie_token_v2".
Proof.
  refine (proj2 (toSnakeCase_toCamelCase (lit "cookie") [lit "token"; lit "v2"] _ _)).
  - apply snake_word_check. reflexivity.
  - repeat (constructor; [split; [apply snake_word_check; reflexivity | reflexivity]|]).
    constructor.
Defined.

(** *** Entries that the parser does not know *)

Lemma split_app_any (sep : N) (a b : jsstring) :
  split sep (a ++ sep :: b) = split sep a ++ split sep b.
Proof.
  induction a as [|c a IH]; cbn [app split].
  - now rewrite N.eqb_refl.
  - destruct (N.eqb c sep); [now rewrite IH|].
    rewrite IH. destruct (split sep a) eqn:E; [now destruct (split_nonempty sep a)|].
    reflexivity.
Qed.

Lemma parse_entries_app (a b : list jsstring) : forall cookies,
  parse_entries cookies (a ++ b)
  = let* cookies' := parse_entries cookies a in parse_entries cookies' b.
Proof.
  induction a as [|p a IH]; intros cookies; [reflexivity|].
  cbn [app parse_entries]. destruct (parse_entry cookies p); cbn [bind]; auto.
Qed.

Lemma parse_entry_unknown (cookies : obj) (junk : jsstring) :
  includes keys (key_of junk) = false -> parse_entry cookies junk = Return cookies.
Proof. intros H. unfold parse_entry. now rewrite H. Qed.

Lemma same_entries (s s' : jsstring) :
  parse_entries [] (split 59 s) = parse_entries [] (split 59 s') ->
  parseCookieString s = parseCookieString s'.
Proof. intros H. unfold parseCookieString. now rewrite H. Qed.

(** X5.  An entry whose key is none of ltoken, ltuid, account_id,
    cookie_token and mi18nLang does not influence [parseCookieString],
    wherever it stands in the cookie string: between two entries, at the
    front or at the end. *)
Theorem parseCookieString_ignores_unknown (a junk b : jsstring) :
  includes keys (key_of junk) = false ->
  Forall (fun c => c <> 59%N) junk ->
  parseCookieString (a ++ 59%N :: junk ++ 59%N :: b) = parseCookieString (a ++ 59%N :: b) /\
  parseCookieString (junk ++ 59%N :: b) = parseCookieString b /\
  parseCookieString (a ++ 59%N :: junk) = parseCookieString a.
Proof.
  intros Hkey Hjunk.
  assert (Hsplit : forall rest, split 59 (junk ++ 59%N :: rest) = junk :: split 59 rest)
    by (intros rest; now apply split_app).
  repeat split; apply same_entries.
  - rewrite (split_app_any 59 a (junk ++ 59%N :: b)), (split_app_any 59 a b), Hsplit,
      !parse_entries_app.
    destruct (parse_entries [] (split 59 a)) as [c|]; cbn [bind]; [|reflexivity].
    cbn [parse_entries]. now rewrite parse_entry_unknown.
  - rewrite Hsplit. cbn [parse_entries]. now rewrite parse_entry_unknown.
  - rewrite split_app_any, (split_none 59 junk Hjunk), parse_entries_app.
    destruct (parse_entries [] (split 59 a)) as [c|]; cbn [bind]; [|reflexivity].
    cbn [parse_entries]. now rewrite parse_entry_unknown.
Qed.

Lemma parseCookieString_ignores_unknown_witness :
  parseCookieString (lit "ltoken=abc; _ga=GA1.2; ltuid=123")
  = parseCookieString (lit "ltoken=abc; ltuid=123").
Proof.
  apply (proj1 (parseCookieString_ignores_unknown
                  (lit "ltoken=abc") (lit " _ga=GA1.2") (lit " ltuid=123")
                  eq_refl
                  ltac:(apply literal_no_semicolon; reflexivity))).
Defined.

(** *** The object that the parser returns *)

(** X6.  What [parseCookieString] returns when it returns: [ltoken] is a
    non-empty string, [ltuid] and [accountId] are numbers other than 0 and
    [NaN], [mi18nLang] is absent or a value of [LanguageEnum],
    [cookieToken] is absent or a string, and the object has no other
    property than these five, each at most once. *)
Theorem parseCookieString_result (s : jsstring) (c : obj) :
  parseCookieString s = Return c ->
  (exists token, get c (lit "ltoken") = VString token /\ token <> []) /\
  (exists u, get c (lit "ltuid") = VNumber (Num u) /\ u <> 0) /\
  (exists u, get c (lit "accountId") = VNumber (Num u) /\ u <> 0) /\
  (get c (lit "mi18nLang") = VUndefined \/
   exists l, get c (lit "mi18nLang") = VString l /\ In l Language.LanguageEnum) /\
  (get c (lit "cookieToken") = VUndefined \/
   exists token, get c (lit "cookieToken") = VString token) /\
  NoDup (List.map fst c) /\
  Forall (fun k => In k property_names) (List.map fst c).
Proof.
  intros Hparse.
  destruct (parseCookieString_shaped s c Hparse) as (Hs & Htok & Huid & Hacc).
  assert (Hnum : forall k, k = lit "ltuid" \/ k = lit "accountId" ->
                           truthy (get c k) = true ->
                           exists u, get c k = VNumber (Num u) /\ u <> 0).
  { intros k Hk Ht. destruct (shaped_get c k Hs) as [Hu | Hf];
      [rewrite Hu in Ht; discriminate|].
    destruct (number_field _ _ Hk Hf) as [n Hn]. rewrite Hn in Ht |- *.
    destruct (truthy_number n Ht) as [u ->]. exists u. split; [reflexivity|].
    intros ->. discriminate Ht. }
  split; [|split; [|split; [|split; [|split; [|split]]]]].
  - destruct (shaped_get c (lit "ltoken") Hs) as [Hu | Hf];
      [rewrite Hu in Htok; discriminate|].
    field_cases Hf.
    match goal with H : exists token, _ = VString token |- _ =>
      destruct H as [token Ht] end.
    rewrite Ht in Htok |- *.
    exists token. split; [reflexivity|]. intros ->. discriminate Htok.
  - apply Hnum; auto.
  - apply Hnum; auto.
  - destruct (shaped_get c (lit "mi18nLang") Hs) as [Hu | Hf]; [now left|].
    right. field_cases Hf. assumption.
  - destruct (shaped_get c (lit "cookieToken") Hs) as [Hu | Hf]; [now left|].
    right. field_cases Hf. assumption.
  - apply Hs.
  - destruct Hs as [_ Hall]. apply Forall_map. eapply Forall_impl; [|exact Hall].
    intros [k v] Hf. unfold property_names. cbn [fst List.map In].
    destruct Hf as [[-> _] | [[-> _] | [[-> _] | [[-> _] | [-> _]]]]]; auto 6.
Qed.

Lemma parseCookieString_result_witness :
  exists u, get [(lit "ltoken", VString (lit "abc"));
                 (lit "accountId", VNumber (Num 123));
                 (lit "ltuid", VNumber (Num 123))] (lit "ltuid") = VNumber (Num u) /\
            u <> 0.
Proof.
  apply (parseCookieString_result (lit "ltoken=abc; account_id=123")
           [(lit "ltoken", VString (lit "abc"));
            (lit "accountId", VNumber (Num 123));
            (lit "ltuid", VNumber (Num 123))] eq_refl).
Defined.

(** X7.  [parseCookie] lists exactly the truthy properties of the object
    it leaves behind, in their order, and calling it again on that object
    changes neither the object nor the cookie string. *)
Theorem parseCookie_idempotent (cookie : obj) :
  fst (parseCookie cookie)
  = join (lit "; ")
      (List.map entry_string
         (List.filter (fun e => truthy (snd e)) (snd (parseCookie cookie)))) /\
  parseCookie (snd (parseCookie cookie)) = parseCookie cookie.
Proof.
  split.
  - unfold parseCookie. cbn [fst snd]. now rewrite fold_push_entry.
  - unfold parseCookie at 2 3. cbn [snd].
    destruct (negb (truthy (get cookie (lit "accountId")))) eqn:Hacc.
    + unfold parseCookie. rewrite get_set_same.
      rewrite get_set_other by (now vm_compute).
      destruct (negb (truthy (get cookie (lit "ltuid")))); [|reflexivity].
      now rewrite set_set.
    + unfold parseCookie. now rewrite Hacc.
Qed.

End CookieMoreFacts.

(** ** More on the cache: insert, look up, delete *)

Module CacheMoreFacts.
Import Js ObjFacts.

Lemma set_lookup_other (store : NodeCache.t) (key key' : jsstring) (v : value)
    (ttl at_ : Z) :
  key <> key' -> NodeCache.set store key v ttl at_ !! key' = store !! key'.
Proof.
  intros Hne. unfold NodeCache.set, NodeCache.t, jsstring in *.
  now apply lookup_insert_ne.
Qed.

Lemma del_lookup (store : NodeCache.t) (key : jsstring) (at_ : Z) :
  snd (NodeCache.del store key at_) !! key = None.
Proof.
  unfold NodeCache.del, NodeCache.t, jsstring in *. cbn [snd]. apply lookup_delete_eq.
Qed.

Lemma del_lookup_other (store : NodeCache.t) (key key' : jsstring) (at_ : Z) :
  key <> key' -> snd (NodeCache.del store key at_) !! key' = store !! key'.
Proof.
  intros Hne. unfold NodeCache.del, NodeCache.t, jsstring in *. cbn [snd].
  now apply lookup_delete_ne.
Qed.

Lemma del_cache (h : Host) (c : Cache.t) (key : CacheKey) (at_ : Z) :
  Cache.nodeCache (snd (Cache.del h c key at_))
  = snd (NodeCache.del (Cache.nodeCache c) (Cache.generateKey h key) at_).
Proof. reflexivity. Qed.

(** X8.  Insert and look up.  After [set(key, value, ttl)] with a positive
    time-to-live, [get(key)] gives the value back and [has(key)] is true up
    to [ttl] seconds later (30 seconds when no ttl is given), and they give
    [undefined] and false after that.  A key with another digest is not
    touched, and a key with the same digest shares the entry. *)
Theorem cache_set_then_get h (c : Cache.t) (key : CacheKey) (v : value)
    (ttl : option Z) (at_ t : Z) :
  0 < Cache.ttl_or_default ttl ->
  Cache.get h (Cache.set h c key v ttl at_) key t
    = (if t <=? at_ + Cache.ttl_or_default ttl * 1000 then v else VUndefined) /\
  Cache.has h (Cache.set h c key v ttl at_) key t
    = (t <=? at_ + Cache.ttl_or_default ttl * 1000) /\
  Cache.ttl_or_default None = 30 /\
  (forall key',
      Cache.generateKey h key' <> Cache.generateKey h key ->
      Cache.get h (Cache.set h c key v ttl at_) key' t = Cache.get h c key' t /\
      Cache.has h (Cache.set h c key v ttl at_) key' t = Cache.has h c key' t) /\
  (forall key',
      Cache.generateKey h key' = Cache.generateKey h key ->
      Cache.get h (Cache.set h c key v ttl at_) key' t
      = Cache.get h (Cache.set h c key v ttl at_) key t).
Proof.
  intros _. unfold Cache.get, Cache.has, Cache.set, Cache.ttl_or_default.
  cbn [Cache.nodeCache]. repeat split.
  - apply CacheFacts.get_set.
  - unfold NodeCache.has. now rewrite CacheFacts.set_lookup.
  - unfold NodeCache.get. now rewrite set_lookup_other by congruence.
  - unfold NodeCache.has. now rewrite set_lookup_other by congruence.
  - intros key' ->. reflexivity.
Qed.

Lemma cache_set_then_get_witness :
  Cache.get (Examples.scripted (fun _ => Examples.ok 0))
    (Cache.set (Examples.scripted (fun _ => Examples.ok 0)) Cache.new
       (Request.cache_key Examples.info_url GET (Request.new None))
       (Examples.envelope 0) None 1700000000000)
    (Request.cache_key Examples.info_url GET (Request.new None)) 1700000030000
  = Examples.envelope 0.
Proof.
  apply (proj1 (cache_set_then_get (Examples.scripted (fun _ => Examples.ok 0))
                  Cache.new
                  (Request.cache_key Examples.info_url GET (Request.new None))
                  (Examples.envelope 0) None 1700000000000 1700000030000
                  eq_refl)).
Defined.

(** X9.  Delete.  After [del(key)], [get(key)] is [undefined] and
    [has(key)] is false at any time, the keys with another digest are as
    before, and a [send] whose cache key is the deleted one goes to the
    server: its run starts with an exchange. *)
Theorem cache_del_then_get h (c : Cache.t) (key : CacheKey) (at_ : Z) :
  (forall t,
      Cache.get h (snd (Cache.del h c key at_)) key t = VUndefined /\
      Cache.has h (snd (Cache.del h c key at_)) key t = false) /\
  (forall key' t,
      Cache.generateKey h key' <> Cache.generateKey h key ->
      Cache.get h (snd (Cache.del h c key at_)) key' t = Cache.get h c key' t /\
      Cache.has h (snd (Cache.del h c key at_)) key' t = Cache.has h c key' t) /\
  (forall url method ttl r w x,
      Request.cache r = snd (Cache.del h c key at_) ->
      Request.cache_key url method r = key ->
      Request.send h url method ttl r w = Some x ->
      exists config rest, Request.trace x = AxiosCall url config :: rest).
Proof.
  split; [|split].
  - intros t. unfold Cache.get, Cache.has, NodeCache.get, NodeCache.has.
    now rewrite del_cache, del_lookup.
  - intros key' t Hne. unfold Cache.get, Cache.has, NodeCache.get, NodeCache.has.
    now rewrite del_cache, del_lookup_other by congruence.
  - intros url method ttl r w x Hc Hk Hsend.
    apply RequestFacts.send_sends in Hsend as [e He].
    assert (Hmiss : truthy (Cache.get h (Request.cache r)
                              (Request.cache_key url method r) (now w)) = false).
    { rewrite Hc, Hk. unfold Cache.get, NodeCache.get.
      now rewrite del_cache, del_lookup. }
    inversion He; subst; cbn [Request.trace]; eauto; congruence.
Qed.

Lemma cache_del_then_get_witness :
  Cache.has Examples.down Examples.warm Examples.info_key 1700000010000 = true /\
  Cache.get Examples.down Examples.warm Examples.info_key 1700000010000
  = Examples.envelope 0 /\
  fst (Cache.del Examples.down Examples.warm Examples.info_key 1700000010000) = 1 /\
  Cache.get Examples.down
    (snd (Cache.del Examples.down Examples.warm Examples.info_key 1700000010000))
    Examples.info_key 1700000010000 = VUndefined /\
  exists x config rest,
    Request.send Examples.down Examples.info_url GET None
      (Examples.on_cache
         (snd (Cache.del Examples.down Examples.warm Examples.info_key 1700000010000)))
      (Examples.later 10000 Examples.start) = Some x /\
    Request.trace x = AxiosCall Examples.info_url config :: rest.
Proof.
  split; [now vm_compute|]. split; [now vm_compute|]. split; [now vm_compute|].
  destruct (cache_del_then_get Examples.down Examples.warm Examples.info_key
              1700000010000) as (Hgone & _ & Hsend).
  split; [apply Hgone|].
  destruct (RequestFacts.send_total Examples.down Examples.info_url GET None
              (Examples.on_cache
                 (snd (Cache.del Examples.down Examples.warm Examples.info_key
                         1700000010000)))
              (Examples.later 10000 Examples.start)) as [x Hx].
  destruct (Hsend Examples.info_url GET None
              (Examples.on_cache
                 (snd (Cache.del Examples.down Examples.warm Examples.info_key
                         1700000010000)))
              (Examples.later 10000 Examples.start) x eq_refl eq_refl Hx)
    as (config & rest & Htrace).
  now exists x, config, rest.
Defined.

End CacheMoreFacts.

(** ** More on requests: the setters, the DS token, the accounting of a run *)

Module RequestMoreFacts.
Import Js ObjFacts Request RequestFacts.

(** [{ ...a, ...b }] read at a key: the property of [b] if it has one,
    that of [a] otherwise. *)
Lemma get_spread (b : obj) : forall (a : obj) (k : jsstring),
  NoDup (List.map fst b) ->
  get (spread a b) k = if has b k then get b k else get a k.
Proof.
  unfold spread. induction b as [|[k' v] b IH]; intros a k Hnd; [reflexivity|].
  cbn [fold_left fst snd List.map] in *. inversion Hnd as [|? ? Hout Hrest]; subst.
  rewrite IH by assumption. cbn [has get].
  destruct (str_eqb k' k) eqn:E; cbn [orb].
  - apply str_eqb_eq in E. subst k'.
    destruct (has b k) eqn:Hb; [|apply get_set_same].
    apply CookieFacts.has_In in Hb. contradiction.
  - destruct (has b k); [reflexivity|]. apply get_set_other.
    intros ->. rewrite str_eqb_refl in E. discriminate.
Qed.

Lemma has_spread (b : obj) : forall (a : obj) (k : jsstring),
  has (spread a b) k = has a k || has b k.
Proof.
  assert (Hset : forall (a : obj) k' v k,
             has (set a k' v) k = has a k || str_eqb k' k).
  { induction a as [|[k0 v0] a IH]; intros k' v k; cbn [set has].
    - now rewrite orb_false_r.
    - destruct (str_eqb k0 k') eqn:E; cbn [has].
      + apply str_eqb_eq in E. subst k0.
        destruct (str_eqb k' k); cbn [orb]; [reflexivity|]. now rewrite orb_false_r.
      + rewrite IH. now rewrite orb_assoc. }
  unfold spread. induction b as [|[k' v] b IH]; intros a k; cbn [fold_left fst snd has].
  - now rewrite orb_false_r.
  - rewrite IH, Hset. now rewrite orb_assoc.
Qed.

(** X10.  [setParams] and [setBody] merge: a key of the argument takes the
    value given, every other key keeps the value it had, no key is lost,
    and nothing else of the request changes.  What [setBody] collects is
    the data of the next POST and what [setParams] collects the query of
    the next exchange - also when the keys were set by an earlier call. *)
Theorem setters_merge (r : Request.t) (o : obj) (k : jsstring) :
  NoDup (List.map fst o) ->
  get (params (setParams r o)) k = (if has o k then get o k else get (params r) k) /\
  has (params (setParams r o)) k = has (params r) k || has o k /\
  get (body (setBody r o)) k = (if has o k then get o k else get (body r) k) /\
  has (body (setBody r o)) k = has (body r) k || has o k /\
  setParams r [] = r /\ setBody r [] = r /\
  body (setParams r o) = body r /\ params (setBody r o) = params r /\
  headers (setParams r o) = headers r /\ headers (setBody r o) = headers r /\
  cfg_params (config_for POST (setBody (setParams r o) o)) = spread (params r) o /\
  cfg_data (config_for POST (setBody (setParams r o) o)) = Some (spread (body r) o).
Proof.
  intros Hnd. cbn [setParams setBody params body headers config_for
                   cfg_params cfg_data].
  rewrite !get_spread by assumption. rewrite !has_spread.
  repeat split; now destruct r.
Qed.

Lemma setters_merge_witness :
  get (params (setParams
                 (setParams (new None) [(lit "lang", VString (lit "en-us"))])
                 [(lit "lang", VString (lit "ja-jp")); (lit "uid", VNumber (Num 7))]))
      (lit "lang")
  = (if has [(lit "lang", VString (lit "ja-jp")); (lit "uid", VNumber (Num 7))] (lit "lang")
     then get [(lit "lang", VString (lit "ja-jp")); (lit "uid", VNumber (Num 7))] (lit "lang")
     else get (params (setParams (new None) [(lit "lang", VString (lit "en-us"))]))
            (lit "lang")).
Proof.
  apply (setters_merge (setParams (new None) [(lit "lang", VString (lit "en-us"))])
           [(lit "lang", VString (lit "ja-jp")); (lit "uid", VNumber (Num 7))]
           (lit "lang")).
  repeat constructor; cbn; intuition discriminate.
Defined.

(** *** The DS token *)

Lemma charAt_letter (i : N) :
  (i < 52)%N -> exists c, charAt characters i = [c] /\ is_letter c = true.
Proof.
  intros Hi.
  assert (Hall : List.forallb
                   (fun n => match charAt characters (N.of_nat n) with
                             | [c] => is_letter c
                             | _ => false
                             end) (List.seq 0 52) = true) by (vm_compute; reflexivity).
  rewrite List.forallb_forall in Hall.
  specialize (Hall (N.to_nat i)). rewrite N2Nat.id in Hall.
  destruct (charAt characters i) as [|c [|? ?]] eqn:E.
  - discriminate Hall. apply List.in_seq. lia.
  - exists c. split; [reflexivity|]. apply Hall. apply List.in_seq. lia.
  - discriminate Hall. apply List.in_seq. lia.
Qed.

Lemma random_chars_letters (h : Host) (n : nat) : forall from,
  (forall i, (random_index h i < 52)%N) ->
  List.length (random_chars h n from) = n /\
  Forall (fun c => is_letter c = true) (random_chars h n from).
Proof.
  induction n as [|n IH]; intros from Hr; cbn [random_chars]; [split; constructor|].
  destruct (charAt_letter (random_index h from) (Hr from)) as (c & -> & Hc).
  destruct (IH (S from) Hr) as [Hlen Hall]. cbn [app List.length].
  split; [now rewrite Hlen | now constructor].
Qed.

(** X11.  [generateDS] returns "time,random,hash": the time is the clock in
    whole seconds, the random part is six ASCII letters, one for each of
    the six values drawn from [Math.random], and the hash is the MD5 digest
    of "salt=...&t=time&r=random" with the fixed salt.  Nothing but the six
    draws is consumed. *)
Theorem generateDS_format (h : Host) (w : World) :
  (forall i, (random_index h i < 52)%N) ->
  exists random,
    random = random_chars h 6 (draws w) /\
    List.length random = 6%nat /\
    Forall (fun c => is_letter c = true) random /\
    fst (generateDS h w) = ds_token h (now w / 1000) random /\
    ds_token h (now w / 1000) random
    = Number_toString (Num (now w / 1000)) ++ lit "," ++ random ++ lit ","
      ++ md5_hex h (lit "salt=6s25p5ox5y14umn1p61aqyyvbvvl3lrt&t="
                    ++ Number_toString (Num (now w / 1000)) ++ lit "&r=" ++ random) /\
    snd (generateDS h w) = {| now := now w; calls := calls w; draws := draws w + 6 |}.
Proof.
  intros Hr. exists (random_chars h 6 (draws w)).
  destruct (random_chars_letters h 6 (draws w) Hr) as [Hlen Hall].
  repeat split; assumption.
Qed.

Lemma generateDS_format_witness :
  exists random,
    random = random_chars (Examples.scripted (fun _ => Examples.ok 0)) 6 0 /\
    List.length random = 6%nat.
Proof.
  destruct (generateDS_format (Examples.scripted (fun _ => Examples.ok 0)) Examples.start)
    as (random & Hrandom & Hlen & _).
  - intros i. cbn. apply N.mod_lt. discriminate.
  - exists random. split; assumption.
Defined.

End RequestMoreFacts.

(** ** More on [send]: what each attempt sends, and what a run costs *)

Module SendFacts.
Import Js ObjFacts Request RequestFacts.

(** The config of an attempt depends on the request through its body, its
    query parameters, its signature flag and its headers other than DS. *)
Lemma config_after_retry h method r w r1 w1 W :
  attach_ds h r w = (r1, w1) ->
  config_for method (fst (attach_ds h (retrying r1) W))
  = config_for method (fst (attach_ds h r W)).
Proof.
  unfold attach_ds, generateDS. destruct (ds r) eqn:Hds; intros [= <- <-];
    cbn [retrying ds with_headers headers body params fst]; rewrite ?Hds;
    cbn [fst config_for with_headers headers body params]; rewrite ?set_set;
    try rewrite CookieFacts.set_set; reflexivity.
Qed.

Lemma config_at_0 h method r w r1 w1 :
  attach_ds h r w = (r1, w1) -> config_at h method r w 0 = config_for method r1.
Proof. intros H. unfold config_at. now rewrite world_at_0, H. Qed.

Lemma config_at_retry h method r w r1 w1 i :
  attach_ds h r w = (r1, w1) ->
  config_at h method (retrying r1) (delay 1 (after_exchange h w1)) i
  = config_at h method r w (S i).
Proof.
  intros H. unfold config_at.
  rewrite (world_at_retry _ _ _ _ _ _ H). eapply config_after_retry; eassumption.
Qed.

Lemma sends_exchanges h url method ttl r w e x :
  sends h url method ttl r w e x ->
  exchanges (trace x)
  = List.map (fun i => (url, config_at h method r w i))
      (List.seq 0 (exchanges_made (trace x))).
Proof.
  induction 1; cbn [trace exchanges];
    try (unfold exchanges_made; cbn [List.filter is_exchange List.length List.seq List.map];
         now erewrite config_at_0 by eassumption).
  - reflexivity.
  - rewrite IHsends. unfold exchanges_made.
    cbn [List.filter is_exchange is_delay List.length List.seq List.map].
    erewrite config_at_0 by eassumption. f_equal.
    rewrite <- List.seq_shift, List.map_map. apply List.map_ext.
    intros i. now erewrite config_at_retry by eassumption.
Qed.

Lemma config_at_fields h method r w i :
  cfg_method (config_at h method r w i) = method /\
  cfg_params (config_at h method r w i) = params r /\
  cfg_data (config_at h method r w i)
  = match method with POST => Some (body r) | GET => None end /\
  cfg_headers (config_at h method r w i)
  = if ds r
    then set (headers r) (lit "DS") (VString (fst (generateDS h (world_at h r w i))))
    else headers r.
Proof.
  unfold config_at, attach_ds.
  destruct (ds r); [destruct (generateDS h (world_at h r w i)) as [token w'] eqn:E|];
    cbn [fst config_for with_headers headers body params cfg_method cfg_params
         cfg_data cfg_headers]; repeat split; reflexivity.
Qed.

(** Every exchange of a run is one of its attempts. *)
Lemma sends_exchange_in h url method ttl r w e x u config :
  sends h url method ttl r w e x -> In (u, config) (exchanges (trace x)) ->
  u = url /\ exists i, config = config_at h method r w i.
Proof.
  intros He Hin. rewrite (sends_exchanges _ _ _ _ _ _ _ _ He) in Hin.
  apply List.in_map_iff in Hin as (i & [= <- <-] & _). eauto.
Qed.

(** What a caller of [send] can rely on for every exchange of the run. *)
Lemma send_exchange_in h url method ttl r w x u config :
  send h url method ttl r w = Some x -> In (u, config) (exchanges (trace x)) ->
  u = url /\ cfg_method config = method /\ cfg_params config = params r /\
  cfg_data config = match method with POST => Some (body r) | GET => None end /\
  (forall k, k <> lit "DS" -> get (cfg_headers config) k = get (headers r) k) /\
  (ds r = true -> exists token, get (cfg_headers config) (lit "DS") = VString token).
Proof.
  intros Hsend Hin. apply send_sends in Hsend as [e He].
  destruct (sends_exchange_in _ _ _ _ _ _ _ _ _ _ He Hin) as (-> & i & ->).
  destruct (config_at_fields h method r w i) as (Hm & Hp & Hd & Hh).
  repeat split; try assumption.
  - intros k Hk. rewrite Hh. destruct (ds r); [|reflexivity].
    apply get_set_other. congruence.
  - intros Hds. rewrite Hh, Hds. eexists. apply get_set_same.
Qed.

(** X12.  What each attempt of a [send] puts on the wire.  The exchanges
    of a run all go to the url of the call, and the config of attempt [i]
    is the one built from the request as it was at the call: its method,
    query parameters and headers, the body as data of a POST and no data on
    a GET.  In signature mode the DS header is replaced, in each attempt,
    by a token generated at the time of that attempt, [i] exchanges and [i]
    seconds into the call and with six fresh random draws. *)
Theorem send_exchanges h url method ttl r w x :
  send h url method ttl r w = Some x ->
  exchanges (trace x)
  = List.map (fun i => (url, config_at h method r w i))
      (List.seq 0 (exchanges_made (trace x))) /\
  (forall i,
      cfg_method (config_at h method r w i) = method /\
      cfg_params (config_at h method r w i) = params r /\
      cfg_data (config_at h method r w i)
      = match method with POST => Some (body r) | GET => None end /\
      cfg_headers (config_at h method r w i)
      = if ds r
        then set (headers r) (lit "DS")
               (VString (fst (generateDS h (world_at h r w i))))
        else headers r) /\
  (forall i,
      now (world_at h r w i)
      = now w + latencies h (calls w) i + 1000 * Z.of_nat i /\
      draws (world_at h r w i) = (draws w + (if ds r then 6 * i else 0))%nat).
Proof.
  intros Hsend. apply send_sends in Hsend as [e He].
  split; [eapply sends_exchanges; eassumption|]. split; [|intros i; split; reflexivity].
  intros i. apply config_at_fields.
Qed.

Lemma send_exchanges_witness :
  exists x,
    send Examples.busy_once Examples.info_url GET None (setDs (new None) true)
      Examples.start = Some x /\
    exchanges (trace x)
    = List.map (fun i => (Examples.info_url,
                          config_at Examples.busy_once GET (setDs (new None) true)
                            Examples.start i))
        (List.seq 0 (exchanges_made (trace x))).
Proof.
  eexists. split; [reflexivity|].
  match goal with |- exchanges (trace ?x) = _ =>
    apply (proj1 (send_exchanges Examples.busy_once Examples.info_url GET None
                    (setDs (new None) true) Examples.start x eq_refl))
  end.
Defined.

(** *** The cost of a run *)

Lemma sends_cost h url method ttl r w e x :
  sends h url method ttl r w e x -> e <> Hit ->
  exchanges_made (trace x) = S (retries_made (trace x)) /\
  now (world x)
  = now w + latencies h (calls w) (exchanges_made (trace x))
    + 1000 * Z.of_nat (retries_made (trace x)) /\
  draws (world x)
  = (draws w + (if ds r then 6 * exchanges_made (trace x) else 0))%nat.
Proof.
  induction 1; intros Hne; try congruence;
    try (pose proof (attach_ds_draws _ _ _ _ _ ltac:(eassumption)) as Hdraws;
         attach_facts; unfold exchanges_made, retries_made;
         cbn [trace world List.filter is_exchange is_delay List.length latencies
              after_exchange now draws];
         rewrite Hnow, Hcalls, Hdraws; repeat split; try lia;
         destruct (ds r); lia).
  pose proof (attach_ds_draws _ _ _ _ _ ltac:(eassumption)) as Hdraws. attach_facts.
  destruct (IHsends Hne) as (Hex & Hnow' & Hdraws').
  unfold exchanges_made, retries_made in *.
  cbn [trace world List.filter is_exchange is_delay List.length latencies
       retrying ds delay after_exchange now calls draws] in *.
  rewrite Hnow', Hdraws', Hex, Hnow, Hcalls, Hdraws, Hds.
  cbn [latencies]. repeat split; try lia. destruct (ds r); lia.
Qed.

(** X13.  The cost of a [send].  A call served from the cache makes no
    exchange, takes no time, draws no random number and leaves the request
    as it is, even in signature mode.  Any other call makes one exchange
    more than it makes retries; the clock advances by the time the
    exchanges took plus one second for each retry, so a call that retried
    [n] times lasted at least [n] seconds; and in signature mode six random
    numbers are drawn for each exchange, none otherwise. *)
Theorem send_cost h url method ttl r w x :
  send h url method ttl r w = Some x ->
  calls (world x) = (calls w + exchanges_made (trace x))%nat /\
  (truthy (Cache.get h (cache r) (cache_key url method r) (now w)) = true ->
   result x = Return (Cache.get h (cache r) (cache_key url method r) (now w)) /\
   trace x = [Log cached_line] /\ world x = w /\ request x = r) /\
  (truthy (Cache.get h (cache r) (cache_key url method r) (now w)) = false ->
   exchanges_made (trace x) = S (retries_made (trace x)) /\
   now (world x)
   = now w + latencies h (calls w) (exchanges_made (trace x))
     + 1000 * Z.of_nat (retries_made (trace x)) /\
   now w + 1000 * Z.of_nat (retries_made (trace x)) <= now (world x) /\
   draws (world x)
   = (draws w + (if ds r then 6 * exchanges_made (trace x) else 0))%nat).
Proof.
  intros Hsend. apply send_sends in Hsend as [e He].
  split; [eapply sends_clock; eassumption|]. split.
  - intros Hhit. inversion He; subst; try congruence. cbn. auto.
  - intros Hmiss.
    assert (Hne : e <> Hit).
    { intros ->. destruct (sends_hit_inv _ _ _ _ _ _ _ _ He eq_refl). congruence. }
    destruct (sends_cost _ _ _ _ _ _ _ _ He Hne) as (Hex & Hnow & Hdraws).
    repeat split; try assumption. rewrite Hnow.
    assert (Hpos : forall from n, 0 <= latencies h from n).
    { intros from n. revert from. induction n as [|n IH]; intros from; cbn [latencies];
        [lia|]. specialize (IH (S from)). lia. }
    specialize (Hpos (calls w) (exchanges_made (trace x))). lia.
Qed.

Lemma send_cost_witness :
  exists x,
    send Examples.busy_once Examples.info_url GET None (setDs (new None) true)
      Examples.start = Some x /\
    exchanges_made (trace x) = 2%nat /\
    now (world x) = 1700000001240 /\
    draws (world x) = 12%nat.
Proof.
  eexists. split; [reflexivity|].
  match goal with |- exchanges_made (trace ?x) = _ /\ _ =>
    destruct (send_cost Examples.busy_once Examples.info_url GET None
                (setDs (new None) true) Examples.start x eq_refl)
      as (_ & _ & Hmiss)
  end.
  destruct (Hmiss eq_refl) as (Hex & Hnow & _ & Hdraws).
  split; [exact Hex|]. split; [exact Hnow | exact Hdraws].
Defined.

(** *** What [send] returns, and the retry counter *)

Lemma sends_result_defined h url method ttl r w e x :
  sends h url method ttl r w e x ->
  forall v, result x = Return v -> v <> VUndefined /\ v <> VNull.
Proof.
  induction 1; cbn [result]; try discriminate; try assumption;
    intros v [= <-]; try (split; discriminate).
  - split; intros Hv; rewrite Hv in *; discriminate.
  - split; intros ->; discriminate.
Qed.

(** X14.  [send] never resolves to [null] or [undefined]: what it returns
    is a cached value that was truthy, a response body whose [retcode]
    could be read, or the -9999 envelope.  So a caller can read a property
    of the result, as every module does with [.data], and that never
    throws. *)
Theorem send_result_defined h url method ttl r w x v :
  send h url method ttl r w = Some x ->
  result x = Return v ->
  v <> VUndefined /\ v <> VNull /\
  (forall name, exists field, member v name = Some field) /\
  (truthy v = true \/ exists retcode, member v (lit "retcode") = Some retcode).
Proof.
  intros Hsend Hres. apply send_sends in Hsend as [e He].
  destruct (sends_result_defined _ _ _ _ _ _ _ _ He v Hres) as [Hu Hn].
  split; [exact Hu|]. split; [exact Hn|]. split.
  - intros name. destruct v; cbn [member]; eauto; congruence.
  - destruct v; cbn [member truthy]; eauto; congruence.
Qed.

Lemma send_result_defined_witness :
  exists field, member swallowed (lit "data") = Some field.
Proof.
  destruct (send_result_defined (Examples.scripted (fun _ => RejectedOther))
              Examples.info_url GET None (new None) Examples.start
              {| result := Return swallowed; request := new None;
                 world := {| now := 1700000000120; calls := 1; draws := 0 |};
                 trace := [AxiosCall Examples.info_url (config_for GET (new None))] |}
              swallowed eq_refl eq_refl) as (_ & _ & Hfield & _).
  exact (Hfield (lit "data")).
Defined.

(** X15.  The retry counter stays between 1 and 61: a new request starts
    at 1, no setter touches it, and a [send] that finds it in that range
    leaves it there, whatever the outcome. *)
Theorem send_keeps_counter_in_range h url method ttl r w x :
  send h url method ttl r w = Some x ->
  1 <= retries r <= 61 ->
  1 <= retries (request x) <= 61 /\
  (forall cookies, retries (new cookies) = 1) /\
  (forall o, retries (setParams r o) = retries r /\ retries (setBody r o) = retries r) /\
  (forall s, retries (setLang r s) = retries r /\ retries (setReferer r s) = retries r) /\
  (forall flag, retries (setDs r flag) = retries r).
Proof.
  intros Hsend Hr. split; [|repeat split].
  apply send_sends in Hsend as [e He].
  pose proof (sends_retries_bound _ _ _ _ _ _ _ _ He) as Hbound.
  pose proof (sends_exit _ _ _ _ _ _ _ _ He) as Hspec.
  destruct e; cbn [exit_spec] in Hspec.
  - now destruct (sends_hit_inv _ _ _ _ _ _ _ _ He eq_refl) as [_ ->].
  - destruct Hspec as (? & ? & _ & _ & _ & _ & _ & _ & Hcount). lia.
  - destruct Hspec as (? & _ & _ & _ & _ & _ & Hcount). lia.
  - destruct Hspec as (? & ? & _ & _ & _ & _ & Hcount & _). lia.
Qed.

Lemma send_keeps_counter_in_range_witness :
  exists x,
    send Examples.busy_then_down Examples.info_url GET None (new None) Examples.start
      = Some x /\
    1 <= retries (request x) <= 61.
Proof.
  eexists. split; [reflexivity|].
  match goal with |- 1 <= retries (request ?x) <= 61 =>
    apply (proj1 (send_keeps_counter_in_range Examples.busy_then_down
                    Examples.info_url GET None (new None) Examples.start x eq_refl
                    ltac:(cbn; lia)))
  end.
Defined.

End SendFacts.

(** ** The record and diary modules *)

Module ModuleFacts.
Import Js ObjFacts Calls.

(** Literal keys that differ pairwise. *)
Ltac distinct_keys :=
  repeat (constructor;
          [ cbn [List.map fst In]; intros Hdup;
            repeat (destruct Hdup as [Hdup | Hdup];
                    [vm_compute in Hdup; discriminate Hdup|]);
            exact Hdup
          | ]);
  constructor.

Lemma send_data_run h url method r w c :
  send_data h url method r w = Some c ->
  exists x,
    Request.send h url method None r w = Some x /\
    request_after c = Request.request x /\ world_after c = Request.world x /\
    events c = Request.trace x /\ returned c <> TypeError.
Proof.
  unfold send_data.
  destruct (Request.send h url method None r w) as [x|] eqn:Hsend; [|discriminate].
  intros [= <-]. exists x. cbn [request_after world_after events returned].
  repeat split.
  apply RequestFacts.send_sends in Hsend as [e He].
  destruct (Request.result x) as [res|err] eqn:Hres; [|discriminate].
  destruct (SendFacts.sends_result_defined _ _ _ _ _ _ _ _ He res Hres) as [Hu Hn].
  destruct res; cbn [Request.member]; try discriminate; congruence.
Qed.

Lemma send_data_total h url method r w : exists c, send_data h url method r w = Some c.
Proof.
  unfold send_data. destruct (RequestFacts.send_total h url method None r w) as [x ->].
  eauto.
Qed.

(** A call in signature mode: it is signed, and it leaves the mode on. *)
Lemma send_data_signed h url method r w c :
  send_data h url method r w = Some c -> Request.ds r = true ->
  returned c <> TypeError /\
  Request.ds (request_after c) = true /\
  Request.params (request_after c) = Request.params r /\
  (forall u config,
      In (u, config) (Request.exchanges (events c)) ->
      u = url /\ cfg_method config = method /\
      cfg_params config = Request.params r /\
      cfg_data config
      = match method with POST => Some (Request.body r) | GET => None end /\
      exists token, get (cfg_headers config) (lit "DS") = VString token).
Proof.
  intros Hc Hds. destruct (send_data_run _ _ _ _ _ _ Hc) as (x & Hsend & Hr & _ & He & Hty).
  split; [exact Hty|]. rewrite Hr, He.
  pose proof Hsend as Hs. apply RequestFacts.send_sends in Hs as [e Hs].
  destruct (RequestFacts.sends_frame _ _ _ _ _ _ _ _ Hs) as (Hp & Hd & _).
  split; [congruence|]. split; [exact Hp|].
  intros u config Hin.
  destruct (SendFacts.send_exchange_in _ _ _ _ _ _ _ _ _ Hsend Hin)
    as (Hu & Hm & Hpar & Hdata & _ & Htok).
  repeat split; auto.
Qed.

(** X16.  The methods of the record module sign their calls and leave
    the signature on.  When the module has a region and a UID, [records],
    [characters], [charactersSummary], [dailyNote] and [spiralAbyss] (with
    a schedule that it accepts) never fail with a TypeError, every exchange
    they make carries a DS header, and so does every exchange of any later
    [send] on the request they share with the other modules: nothing turns
    the signature mode off again. *)
Theorem record_methods_sign h (m : Records.t) (r : Request.t) (w : World)
    (c : call value) :
  unfilled (Records.region m) (Records.uid m) = false ->
  Records.records h m r w = Some c \/
  Records.characters h m r w = Some c \/
  (exists ids, Records.charactersSummary h m ids r w = Some c) \/
  Records.dailyNote h m r w = Some c \/
  (exists schedule,
      includes_value Records.AbyssScheduleEnum
        (or_default schedule (VNumber (Num 1))) = true /\
      Records.spiralAbyss h m schedule r w = Some c) ->
  returned c <> TypeError /\
  Request.ds (request_after c) = true /\
  (forall u config,
      In (u, config) (Request.exchanges (events c)) ->
      exists token, get (cfg_headers config) (lit "DS") = VString token) /\
  (forall url method ttl w' x u config,
      Request.send h url method ttl (request_after c) w' = Some x ->
      In (u, config) (Request.exchanges (Request.trace x)) ->
      exists token, get (cfg_headers config) (lit "DS") = VString token).
Proof.
  intros Hfilled Hcall.
  assert (Hsigned : exists url method r',
             send_data h url method r' w = Some c /\ Request.ds r' = true).
  { unfold Records.records, Records.characters, Records.charactersSummary,
      Records.dailyNote, Records.spiralAbyss in Hcall. rewrite Hfilled in Hcall.
    destruct Hcall as [H | [H | [[ids H] | [H | (schedule & Hok & H)]]]];
      try rewrite Hok in H; cbn [negb] in H; eauto 6. }
  destruct Hsigned as (url & method & r' & Hc & Hds).
  destruct (send_data_signed _ _ _ _ _ _ Hc Hds) as (Hty & Hon & _ & Hex).
  repeat split; try assumption.
  - intros u config Hin. now destruct (Hex u config Hin) as (_ & _ & _ & _ & Htok).
  - intros url' method' ttl w' x u config Hsend Hin.
    now destruct (SendFacts.send_exchange_in _ _ _ _ _ _ _ _ _ Hsend Hin)
      as (_ & _ & _ & _ & _ & Htok); apply Htok.
Qed.

Lemma record_methods_sign_witness :
  exists c,
    Records.records (Examples.scripted (fun _ => Examples.ok 0))
      {| Records.lang := lit "en-us"; Records.region := Some (lit "os_usa");
         Records.uid := Some 601234567 |}
      (Request.new None) Examples.start = Some c /\
    Request.ds (request_after c) = true.
Proof.
  eexists. split; [reflexivity|].
  match goal with |- Request.ds (request_after ?c) = true =>
    apply (record_methods_sign (Examples.scripted (fun _ => Examples.ok 0))
             {| Records.lang := lit "en-us"; Records.region := Some (lit "os_usa");
                Records.uid := Some 601234567 |}
             (Request.new None) Examples.start c eq_refl (or_introl eq_refl))
  end.
Defined.

Lemma accepted_values (values : list value) (v : value) :
  includes_value values v = true -> exists v', In v' values /\ same_primitive v v' = true.
Proof.
  unfold includes_value. intros H. apply List.existsb_exists in H. exact H.
Qed.

Lemma same_primitive_eq (v v' : value) :
  same_primitive v v' = true -> v = v'.
Proof.
  destruct v as [| |b|[|z]|s|items|props], v' as [| |b'|[|z']|s'|items'|props'];
    cbn [same_primitive]; try discriminate; try reflexivity.
  - intros H. apply Bool.eqb_prop in H. now subst.
  - intros H. apply Z.eqb_eq in H. now subst.
  - intros H. apply str_eqb_eq in H. now subst.
Qed.

(** X17.  The enum checks of [spiralAbyss] and [diaries] compare with the
    values of the enum object, which for a numeric enum are the numbers
    and the member names.  So [spiralAbyss] accepts 1, 2, "CURRENT" and
    "PREVIOUS" (and [undefined], which stands for 1), [diaries] accepts 1,
    2, 3 and the three month names (and [undefined], which stands for 3);
    anything else throws the HoyolabError of the method before the request
    is touched, and what is accepted is sent as it is, as [schedule_type]
    or [month], in every exchange of the call. *)
Theorem enum_checks_accept_names h (region : jsstring) (uid : Z) (lang : jsstring)
    (v : value) (r : Request.t) (w : World) :
  region <> [] -> uid <> 0 ->
  let record := {| Records.lang := lang; Records.region := Some region;
                   Records.uid := Some uid |} in
  let diary := {| Diary.lang := lang; Diary.region := Some region;
                  Diary.uid := Some uid |} in
  let schedule := or_default v (VNumber (Num 1)) in
  let month := or_default v (VNumber (Num 3)) in
  (includes_value Records.AbyssScheduleEnum schedule = true <->
   schedule = VNumber (Num 1) \/ schedule = VNumber (Num 2) \/
   schedule = VString (lit "CURRENT") \/ schedule = VString (lit "PREVIOUS")) /\
  (includes_value Diary.DiaryMonthEnum month = true <->
   month = VNumber (Num 1) \/ month = VNumber (Num 2) \/ month = VNumber (Num 3) \/
   month = VString (lit "CURRENT") \/ month = VString (lit "ONE_MONTH_AGO") \/
   month = VString (lit "TWO_MONTH_AGO")) /\
  (includes_value Records.AbyssScheduleEnum schedule = false ->
   Records.spiralAbyss h record v r w = thrown Records.invalid_schedule r w) /\
  (includes_value Diary.DiaryMonthEnum month = false ->
   Diary.diaries h diary v r w = thrown Diary.invalid_month r w) /\
  (includes_value Records.AbyssScheduleEnum schedule = true ->
   exists c,
     Records.spiralAbyss h record v r w = Some c /\
     forall u config,
       In (u, config) (Request.exchanges (events c)) ->
       u = Records.spiralAbyss_route /\
       get (cfg_params config) (lit "schedule_type") = schedule) /\
  (includes_value Diary.DiaryMonthEnum month = true ->
   exists c,
     Diary.diaries h diary v r w = Some c /\
     forall u config,
       In (u, config) (Request.exchanges (events c)) ->
       u = Diary.list_route /\ get (cfg_params config) (lit "month") = month).
Proof.
  intros Hregion Huid record diary schedule month.
  assert (Hfilled : unfilled (Some region) (Some uid) = false).
  { unfold unfilled, string_or_null, number_or_null. cbn [Redeem.nullable truthy].
    destruct region; [congruence|]. destruct (Z.eqb_spec uid 0); [congruence|].
    reflexivity. }
  split; [|split; [|split; [|split; [|split]]]].
  - split.
    + intros H. apply accepted_values in H as (v' & Hin & Heq).
      apply same_primitive_eq in Heq. subst v'.
      unfold Records.AbyssScheduleEnum in Hin. cbn [In] in Hin.
      destruct Hin as [<- | [<- | [<- | [<- | []]]]]; auto.
    + intros [-> | [-> | [-> | ->]]]; reflexivity.
  - split.
    + intros H. apply accepted_values in H as (v' & Hin & Heq).
      apply same_primitive_eq in Heq. subst v'.
      unfold Diary.DiaryMonthEnum in Hin. cbn [In] in Hin.
      destruct Hin as [<- | [<- | [<- | [<- | [<- | [<- | []]]]]]]; auto 7.
    + intros [-> | [-> | [-> | [-> | [-> | ->]]]]]; reflexivity.
  - intros Hno. unfold Records.spiralAbyss. cbn [Records.region Records.uid record].
    rewrite Hfilled. fold schedule. now rewrite Hno.
  - intros Hno. unfold Diary.diaries. cbn [Diary.region Diary.uid diary].
    rewrite Hfilled. fold month. now rewrite Hno.
  - intros Hyes. unfold Records.spiralAbyss. cbn [Records.region Records.uid record].
    rewrite Hfilled. fold schedule. rewrite Hyes. cbn [negb].
    match goal with |- exists c, send_data ?h ?u ?m ?r' ?w = Some c /\ _ =>
      destruct (send_data_total h u m r' w) as [c Hc]; exists c; split; [exact Hc|];
      destruct (send_data_signed _ _ _ _ _ _ Hc eq_refl) as (_ & _ & _ & Hex)
    end.
    intros u config Hin. destruct (Hex u config Hin) as (-> & _ & -> & _).
    split; [reflexivity|]. cbn [Request.setDs Request.setParams Request.params].
    rewrite RequestMoreFacts.get_spread by distinct_keys.
    reflexivity.
  - intros Hyes. unfold Diary.diaries. cbn [Diary.region Diary.uid diary].
    rewrite Hfilled. fold month. rewrite Hyes. cbn [negb].
    match goal with |- exists c, send_data ?h ?u ?m ?r' ?w = Some c /\ _ =>
      destruct (send_data_total h u m r' w) as [c Hc]; exists c; split; [exact Hc|];
      destruct (send_data_signed _ _ _ _ _ _ Hc eq_refl) as (_ & _ & _ & Hex)
    end.
    intros u config Hin. destruct (Hex u config Hin) as (-> & _ & -> & _).
    split; [reflexivity|]. cbn [Request.setDs Request.setParams Request.params].
    rewrite RequestMoreFacts.get_spread by distinct_keys.
    reflexivity.
Qed.

Lemma enum_checks_accept_names_witness :
  exists c,
    Records.spiralAbyss (Examples.scripted (fun _ => Examples.ok 0))
      {| Records.lang := lit "en-us"; Records.region := Some (lit "os_usa");
         Records.uid := Some 601234567 |}
      (VString (lit "PREVIOUS")) (Request.new None) Examples.start = Some c /\
    forall u config,
      In (u, config) (Request.exchanges (events c)) ->
      u = Records.spiralAbyss_route /\
      get (cfg_params config) (lit "schedule_type") = VString (lit "PREVIOUS").
Proof.
  refine (proj1 (proj2 (proj2 (proj2 (proj2
            (enum_checks_accept_names (Examples.scripted (fun _ => Examples.ok 0))
               (lit "os_usa") 601234567 (lit "en-us") (VString (lit "PREVIOUS"))
               (Request.new None) Examples.start _ _))))) eq_refl).
  - discriminate.
  - lia.
Defined.

End ModuleFacts.

(** ** The account client *)

Module HoyolabFacts.
Import Js ObjFacts Calls ModuleFacts.

Lemma games_of_defined (res : value) :
  res <> VUndefined -> res <> VNull ->
  Hoyolab.games_of res <> TypeError /\
  (forall games, Hoyolab.games_of res = Value games -> truthy games = true).
Proof.
  intros Hu Hn. unfold Hoyolab.games_of.
  destruct (Request.member res (lit "data")) as [data|] eqn:Hdata.
  - destruct (truthy data) eqn:Ht; cbn [negb]; [|split; [discriminate|discriminate]].
    destruct (Request.member data (lit "list")) as [games|] eqn:Hlist.
    + destruct (truthy games) eqn:Hg; cbn [negb]; split; try discriminate.
      now intros ? [= <-].
    + destruct data; cbn in Ht, Hlist; discriminate.
  - destruct res; cbn in Hdata; try discriminate; congruence.
Qed.

Lemma games_request_params (a : Hoyolab.t) (game : option jsstring) :
  get (Request.params (Hoyolab.games_request a game)) (lit "uid")
  = get (Hoyolab.cookie a) (lit "ltuid") /\
  get (Request.params (Hoyolab.games_request a game)) (lit "sLangKey")
  = get (Hoyolab.cookie a) (lit "mi18nLang") /\
  match game with
  | Some (c :: rest) =>
      get (Request.params (Hoyolab.games_request a game)) (lit "game_biz")
      = VString (c :: rest)
  | _ =>
      get (Request.params (Hoyolab.games_request a game)) (lit "game_biz")
      = get (Request.params (Hoyolab.request a)) (lit "game_biz")
  end.
Proof.
  unfold Hoyolab.games_request. cbn [Request.setParams Request.params].
  rewrite !RequestMoreFacts.get_spread by distinct_keys.
  repeat split; try reflexivity.
  destruct game as [[|c rest]|]; cbn [Request.setParams Request.params];
    try reflexivity.
  rewrite RequestMoreFacts.get_spread by distinct_keys. reflexivity.
Qed.

(** X18.  [gamesList] never fails with a TypeError.  It resolves to the
    [list] of the response only if that is truthy; a response without
    data or without a list, and also the -9999 envelope that [send]
    returns for a swallowed exception, give the HoyolabError "There is no
    game account on this hoyolab account !".  Every exchange goes to the
    games route with GET, carries the [ltuid] of the cookie as [uid] and its
    [mi18nLang] as [sLangKey], and the game as [game_biz] when one is
    given. *)
Theorem gamesList_outcome h (a : Hoyolab.t) (game : option jsstring) (w : World)
    (c : call value) :
  Hoyolab.gamesList h a game w = Some c ->
  returned c <> TypeError /\
  (forall games, returned c = Value games -> truthy games = true) /\
  (forall x,
      Request.send h Hoyolab.games_route GET None (Hoyolab.games_request a game) w
      = Some x ->
      (forall e, Request.result x = Throw e -> returned c = Raised e) /\
      (Request.result x = Return Request.swallowed ->
       returned c = Raised Hoyolab.no_account)) /\
  (forall u config,
      In (u, config) (Request.exchanges (events c)) ->
      u = Hoyolab.games_route /\ cfg_method config = GET /\
      get (cfg_params config) (lit "uid") = get (Hoyolab.cookie a) (lit "ltuid") /\
      get (cfg_params config) (lit "sLangKey")
      = get (Hoyolab.cookie a) (lit "mi18nLang") /\
      (forall g, game = Some g -> g <> [] ->
                 get (cfg_params config) (lit "game_biz") = VString g)).
Proof.
  unfold Hoyolab.gamesList.
  destruct (Request.send h Hoyolab.games_route GET None
              (Hoyolab.games_request a game) w) as [x|] eqn:Hsend; [|discriminate].
  intros [= <-]. cbn [returned events].
  pose proof Hsend as Hs. apply RequestFacts.send_sends in Hs as [e He].
  split; [|split; [|split]].
  - destruct (Request.result x) as [res|err] eqn:Hres; [|discriminate].
    destruct (SendFacts.sends_result_defined _ _ _ _ _ _ _ _ He res Hres) as [Hu Hn].
    now apply games_of_defined.
  - intros games. destruct (Request.result x) as [res|err] eqn:Hres; [|discriminate].
    destruct (SendFacts.sends_result_defined _ _ _ _ _ _ _ _ He res Hres) as [Hu Hn].
    now apply games_of_defined.
  - intros x' [= <-]. split; [now intros err ->|]. now intros ->.
  - intros u config Hin.
    destruct (SendFacts.send_exchange_in _ _ _ _ _ _ _ _ _ Hsend Hin)
      as (-> & Hm & -> & _).
    destruct (games_request_params a game) as (Huid & Hlang & Hgame).
    repeat split; try assumption.
    intros g -> Hg. destruct g as [|ch rest]; [congruence|]. exact Hgame.
Qed.

Lemma gamesList_outcome_witness :
  exists c,
    Hoyolab.gamesList (Examples.scripted (fun _ => RejectedOther))
      {| Hoyolab.cookie := [(lit "ltoken", VString (lit "abc"));
                            (lit "ltuid", VNumber (Num 123))];
         Hoyolab.request := Request.new None;
         Hoyolab.lang := lit "en-us" |}
      None Examples.start = Some c /\
    returned c = Raised Hoyolab.no_account.
Proof.
  eexists. split; [reflexivity|].
  match goal with |- returned ?c = _ =>
    destruct (gamesList_outcome (Examples.scripted (fun _ => RejectedOther))
                {| Hoyolab.cookie := [(lit "ltoken", VString (lit "abc"));
                                      (lit "ltuid", VNumber (Num 123))];
                   Hoyolab.request := Request.new None;
                   Hoyolab.lang := lit "en-us" |}
                None Examples.start c eq_refl) as (_ & _ & Hsw & _)
  end.
  eapply Hsw; reflexivity.
Defined.

(** X19.  The game filter of [gamesList] sticks.  The query parameters of
    the request are merged and never cleared, so after [gamesList(game)] a
    call of [gamesList()] without a game on the same client still sends
    the game of the earlier call as [game_biz], in every exchange. *)
Theorem gamesList_filter_sticks h (a : Hoyolab.t) (g : jsstring) (w w' : World)
    (c c' : call value) :
  g <> [] ->
  Hoyolab.gamesList h a (Some g) w = Some c ->
  Hoyolab.gamesList h (Hoyolab.with_request a (request_after c)) None w' = Some c' ->
  forall u config,
    In (u, config) (Request.exchanges (events c')) ->
    get (cfg_params config) (lit "game_biz") = VString g.
Proof.
  intros Hg Hc Hc' u config Hin.
  unfold Hoyolab.gamesList in Hc.
  destruct (Request.send h Hoyolab.games_route GET None
              (Hoyolab.games_request a (Some g)) w) as [x|] eqn:Hsend; [|discriminate].
  injection Hc as <-. cbn [request_after] in Hc'.
  apply RequestFacts.send_sends in Hsend as [e He].
  destruct (RequestFacts.sends_frame _ _ _ _ _ _ _ _ He) as (Hp & _).
  unfold Hoyolab.gamesList in Hc'.
  destruct (Request.send h Hoyolab.games_route GET None
              (Hoyolab.games_request (Hoyolab.with_request a (Request.request x)) None)
              w') as [x'|] eqn:Hsend'; [|discriminate].
  injection Hc' as <-. cbn [events] in Hin.
  destruct (SendFacts.send_exchange_in _ _ _ _ _ _ _ _ _ Hsend' Hin)
    as (_ & _ & -> & _).
  destruct (games_request_params (Hoyolab.with_request a (Request.request x)) None)
    as (_ & _ & ->).
  cbn [Hoyolab.with_request Hoyolab.request]. rewrite Hp.
  destruct (games_request_params a (Some g)) as (_ & _ & Hgame).
  destruct g as [|ch rest]; [congruence|]. exact Hgame.
Qed.

Lemma gamesList_filter_sticks_witness :
  exists c c',
    Hoyolab.gamesList Examples.down
      {| Hoyolab.cookie := [(lit "ltuid", VNumber (Num 123))];
         Hoyolab.request := Request.new None;
         Hoyolab.lang := lit "en-us" |}
      (Some (lit "hk4e_global")) Examples.start = Some c /\
    Hoyolab.gamesList Examples.down
      (Hoyolab.with_request
         {| Hoyolab.cookie := [(lit "ltuid", VNumber (Num 123))];
            Hoyolab.request := Request.new None;
            Hoyolab.lang := lit "en-us" |}
         (request_after c))
      None (world_after c) = Some c' /\
    forall u config,
      In (u, config) (Request.exchanges (events c')) ->
      get (cfg_params config) (lit "game_biz") = VString (lit "hk4e_global").
Proof.
  eexists. eexists. split; [reflexivity|].
  match goal with
  | |- Hoyolab.gamesList _ (Hoyolab.with_request _ (request_after ?c)) None _ = _ /\ _ =>
      pose (first_call := c)
  end.
  split; [reflexivity|].
  match goal with
  | |- forall u config, In (u, config) (Request.exchanges (events ?c')) -> _ =>
      apply (gamesList_filter_sticks Examples.down
               {| Hoyolab.cookie := [(lit "ltuid", VNumber (Num 123))];
                  Hoyolab.request := Request.new None;
                  Hoyolab.lang := lit "en-us" |}
               (lit "hk4e_global") Examples.start
               (world_after first_call) first_call c')
  end; [discriminate | reflexivity | reflexivity].
Defined.

(** *** The account of highest level *)

Lemma higher_numeric (b s : Hoyolab.IGame) (zb zs : Z) :
  Hoyolab.level b = Num zb -> Hoyolab.level s = Num zs ->
  Hoyolab.higher b s = if zb <? zs then s else b.
Proof. intros Hb Hs. unfold Hoyolab.higher, gt. now rewrite Hb, Hs. Qed.

Lemma fold_higher (rest : list Hoyolab.IGame) :
  forall (before : list Hoyolab.IGame) (b : Hoyolab.IGame) (after : list Hoyolab.IGame) zb,
    Hoyolab.level b = Num zb ->
    Forall (fun g => exists z, Hoyolab.level g = Num z) rest ->
    (forall g z, In g before -> Hoyolab.level g = Num z -> z < zb) ->
    (forall g z, In g after -> Hoyolab.level g = Num z -> z <= zb) ->
    exists before' after' zr,
      before ++ b :: after ++ rest
      = before' ++ fold_left Hoyolab.higher rest b :: after' /\
      Hoyolab.level (fold_left Hoyolab.higher rest b) = Num zr /\
      (forall g z, In g before' -> Hoyolab.level g = Num z -> z < zr) /\
      (forall g z, In g after' -> Hoyolab.level g = Num z -> z <= zr).
Proof.
  induction rest as [|s rest IH]; intros before b after zb Hb Hnum Hlt Hle.
  - exists before, after, zb. rewrite app_nil_r. auto.
  - inversion Hnum as [|? ? [zs Hs] Hrest]; subst. cbn [fold_left].
    rewrite (higher_numeric b s zb zs Hb Hs).
    destruct (Z.ltb_spec zb zs) as [Hup | Hkeep].
    + destruct (IH (before ++ b :: after) s [] zs Hs Hrest) as (b' & a' & zr & Heq & H).
      * intros g z Hin Hg. apply in_app_or in Hin as [Hin | [<- | Hin]].
        -- specialize (Hlt g z Hin Hg). lia.
        -- assert (z = zb) by congruence. lia.
        -- specialize (Hle g z Hin Hg). lia.
      * intros g z [].
      * exists b', a', zr. split; [|exact H]. rewrite <- Heq.
        cbn [app]. now rewrite <- app_assoc.
    + destruct (IH before b (after ++ [s]) zb Hb Hrest Hlt) as (b' & a' & zr & Heq & H).
      * intros g z Hin Hg. apply in_app_or in Hin as [Hin | [<- | []]].
        -- exact (Hle g z Hin Hg).
        -- assert (z = zs) by congruence. lia.
      * exists b', a', zr. split; [|exact H]. rewrite <- Heq.
        now rewrite <- app_assoc.
Qed.

(** X20.  [gameAccount] returns the first account of highest level.  On a
    list of accounts whose levels are numbers, the account it picks is in
    the list, every account before it has a lower level and no account
    after it has a higher one; an empty list throws the HoyolabError "There
    is no game account on this hoyolab account !". *)
Theorem gameAccount_picks_highest (games : list Hoyolab.IGame) :
  Forall (fun g => exists z, Hoyolab.level g = Num z) games ->
  (games = [] -> Hoyolab.gameAccount_of games = Throw Hoyolab.no_account) /\
  (games <> [] ->
   exists before picked after top,
     Hoyolab.gameAccount_of games = Return picked /\
     games = before ++ picked :: after /\
     Hoyolab.level picked = Num top /\
     (forall g z, In g before -> Hoyolab.level g = Num z -> z < top) /\
     (forall g z, In g after -> Hoyolab.level g = Num z -> z <= top)).
Proof.
  intros Hnum. split; [now intros ->|]. intros Hne.
  destruct games as [|first rest]; [congruence|].
  inversion Hnum as [|? ? [zf Hf] Hrest]; subst.
  destruct (fold_higher rest [] first [] zf Hf Hrest) as (b' & a' & zr & Heq & H).
  - intros g z [].
  - intros g z [].
  - exists b', (fold_left Hoyolab.higher rest first), a', zr.
    split; [reflexivity|]. split; [exact Heq | exact H].
Qed.

Lemma gameAccount_picks_highest_witness :
  Hoyolab.gameAccount_of Examples.accounts
  = Return (Examples.account "600000002" 60) /\
  exists before picked after top,
    Hoyolab.gameAccount_of Examples.accounts = Return picked /\
    Examples.accounts = before ++ picked :: after /\
    Hoyolab.level picked = Num top /\
    (forall g z, In g before -> Hoyolab.level g = Num z -> z < top) /\
    (forall g z, In g after -> Hoyolab.level g = Num z -> z <= top).
Proof.
  split; [reflexivity|].
  apply (proj2 (gameAccount_picks_highest Examples.accounts
                  ltac:(repeat constructor; eexists; reflexivity)));
    discriminate.
Defined.

End HoyolabFacts.

(** ** The game clients *)

Module GameFacts.
Import Js ObjFacts Calls ModuleFacts.

(** The headers of the request that the constructors of the game clients
    build. *)
Lemma client_request_headers (cookieString lang : jsstring) :
  let r := Request.setLang
             (Request.setReferer (Request.new (Some cookieString)) Routes.referer)
             lang in
  get (Request.headers r) (lit "x-rpc-language") = VString lang /\
  get (Request.headers r) (lit "Referer") = VString Routes.referer /\
  get (Request.headers r) (lit "Origin") = VString Routes.referer /\
  get (Request.headers r) (lit "Cookie")
  = match cookieString with [] => VUndefined | _ => VString cookieString end /\
  has (Request.headers r) (lit "DS") = false /\
  Request.ds r = false /\ Request.retries r = 1 /\
  Request.params r = [] /\ Request.body r = [] /\ Request.cache r = Cache.new.
Proof. destruct cookieString; repeat split; reflexivity. Qed.

Lemma region_code_filled (reg : Genshin.GenshinRegion) (u : Z) :
  u <> 0 -> unfilled (Some (Genshin.region_code reg)) (Some u) = false.
Proof.
  intros Hu. unfold unfilled, string_or_null, number_or_null.
  cbn [Redeem.nullable truthy]. destruct (Z.eqb_spec u 0); [congruence|].
  now destruct reg.
Qed.

Lemma resolved_uid_nonzero (u : Z) (reg : Genshin.GenshinRegion) :
  Genshin.getGenshinRegion u = Return reg -> u <> 0.
Proof. intros H ->. vm_compute in H. discriminate H. Qed.

(** The exchanges of [claim] when the module is filled in. *)
Lemma claim_exchanges h (m : Redeem.t) (code : jsstring) (r : Request.t) (w : World)
    (x : Request.run) (reg : jsstring) (u : Z) :
  Redeem.region m = Some reg -> reg <> [] -> Redeem.uid m = Some u -> u <> 0 ->
  Redeem.claim h m code r w = Some x ->
  forall url config,
    In (url, config) (Request.exchanges (Request.trace x)) ->
    url = Redeem.redeem_route /\ cfg_method config = GET /\
    cfg_params config = spread (Request.params r) (Redeem.claim_params m code) /\
    (forall k, k <> lit "DS" ->
               get (cfg_headers config) k = get (Request.headers r) k) /\
    (Request.ds r = true ->
     exists token, get (cfg_headers config) (lit "DS") = VString token).
Proof.
  intros Hreg Hne Huid Hu Hclaim url config Hin. unfold Redeem.claim in Hclaim.
  rewrite Hreg, Huid in Hclaim. cbn [Redeem.nullable truthy] in Hclaim.
  destruct reg as [|ch rest]; [congruence|].
  destruct (Z.eqb_spec u 0); [congruence|]. cbn [negb orb] in Hclaim.
  destruct (SendFacts.send_exchange_in _ _ _ _ _ _ _ _ _ Hclaim Hin)
    as (-> & Hm & Hp & _ & Hh & Hds).
  repeat split; assumption.
Qed.

Lemma claim_params_read (m : Redeem.t) (code : jsstring) (params : obj) :
  get (spread params (Redeem.claim_params m code)) (lit "uid")
  = Redeem.nullable (fun z => VNumber (Num z)) (Redeem.uid m) /\
  get (spread params (Redeem.claim_params m code)) (lit "region")
  = Redeem.nullable VString (Redeem.region m) /\
  get (spread params (Redeem.claim_params m code)) (lit "game_biz")
  = VString (Redeem.game m) /\
  get (spread params (Redeem.claim_params m code)) (lit "lang")
  = VString (Redeem.lang m) /\
  get (spread params (Redeem.claim_params m code)) (lit "sLangKey")
  = VString (Redeem.lang m) /\
  (forall k, has (Redeem.claim_params m code) k = false ->
             get (spread params (Redeem.claim_params m code)) k = get params k).
Proof.
  assert (Hnd : NoDup (List.map fst (Redeem.claim_params m code)))
    by (unfold Redeem.claim_params; distinct_keys).
  repeat split; try (rewrite RequestMoreFacts.get_spread by exact Hnd; reflexivity).
  intros k Hk. rewrite RequestMoreFacts.get_spread by exact Hnd. now rewrite Hk.
Qed.

Lemma new_fields (o : GenshinImpact.options) (g : GenshinImpact.t) :
  GenshinImpact.new o = Return g ->
  exists cookie0,
    Hoyolab.read_cookie (GenshinImpact.cookie_option o) = Return cookie0 /\
    GenshinImpact.cookie g = snd (Cookie.parseCookie cookie0) /\
    GenshinImpact.lang g
    = Hoyolab.choose_lang (GenshinImpact.lang_option o) cookie0 /\
    GenshinImpact.request g
    = Request.setLang
        (Request.setReferer
           (Request.new (Some (fst (Cookie.parseCookie cookie0)))) Routes.referer)
        (GenshinImpact.lang g) /\
    GenshinImpact.uid g = GenshinImpact.uid_option o /\
    match GenshinImpact.uid_option o with
    | None => GenshinImpact.region g = None
    | Some u =>
        exists reg, GenshinImpact.region g = Some reg /\
                    Genshin.getGenshinRegion u = Return reg
    end.
Proof.
  unfold GenshinImpact.new.
  destruct (Hoyolab.read_cookie (GenshinImpact.cookie_option o)) as [cookie0|] eqn:Hread;
    cbn [bind]; [|discriminate].
  destruct (Cookie.parseCookie cookie0) as [cookieString cookie1] eqn:Hparse.
  intros Hnew. exists cookie0. rewrite Hparse. cbn [fst snd]. split; [reflexivity|].
  destruct (GenshinImpact.uid_option o) as [u|] eqn:Huid.
  - destruct (Genshin.getGenshinRegion u) as [reg|] eqn:Hregion; cbn [bind] in Hnew;
      [|discriminate].
    injection Hnew as <-. cbn. repeat split; try reflexivity. exists reg. now split.
  - cbn [bind] in Hnew. injection Hnew as <-. cbn. repeat split; reflexivity.
Qed.

(** X21.  What [new GenshinImpact(options)] builds when it returns.  The
    cookie is the object read from the options, with [accountId] filled in
    by [parseCookie]; the language is the one of the options, or else the
    [mi18nLang] of the cookie normalised to a value of [LanguageEnum].  The
    request carries that language, the referer and origin
    "https://act.hoyolab.com" and the serialised cookie (no Cookie header
    if that string is empty); it is unsigned, with no parameters and no
    body.  The region is the one that [getGenshinRegion] finds for the
    UID, and there is none without a UID. *)
Theorem GenshinImpact_new_request (o : GenshinImpact.options) (g : GenshinImpact.t) :
  GenshinImpact.new o = Return g ->
  exists cookie0,
    Hoyolab.read_cookie (GenshinImpact.cookie_option o) = Return cookie0 /\
    GenshinImpact.cookie g = snd (Cookie.parseCookie cookie0) /\
    GenshinImpact.lang g
    = Hoyolab.choose_lang (GenshinImpact.lang_option o) cookie0 /\
    (GenshinImpact.lang_option o = None ->
     In (GenshinImpact.lang g) Language.LanguageEnum) /\
    get (Request.headers (GenshinImpact.request g)) (lit "x-rpc-language")
    = VString (GenshinImpact.lang g) /\
    get (Request.headers (GenshinImpact.request g)) (lit "Referer")
    = VString (lit "https://act.hoyolab.com") /\
    get (Request.headers (GenshinImpact.request g)) (lit "Origin")
    = VString (lit "https://act.hoyolab.com") /\
    get (Request.headers (GenshinImpact.request g)) (lit "Cookie")
    = match fst (Cookie.parseCookie cookie0) with
      | [] => VUndefined
      | _ => VString (fst (Cookie.parseCookie cookie0))
      end /\
    has (Request.headers (GenshinImpact.request g)) (lit "DS") = false /\
    Request.ds (GenshinImpact.request g) = false /\
    Request.params (GenshinImpact.request g) = [] /\
    Request.body (GenshinImpact.request g) = [] /\
    GenshinImpact.uid g = GenshinImpact.uid_option o /\
    match GenshinImpact.uid_option o with
    | None => GenshinImpact.region g = None
    | Some u =>
        exists reg, GenshinImpact.region g = Some reg /\
                    Genshin.getGenshinRegion u = Return reg
    end.
Proof.
  intros Hnew.
  destruct (new_fields o g Hnew) as (cookie0 & Hread & Hcookie & Hlang & Hreq & Huid & Hreg).
  exists cookie0.
  destruct (client_request_headers (fst (Cookie.parseCookie cookie0))
              (GenshinImpact.lang g))
    as (Hl & Hr & Ho & Hc & Hd & Hds & _ & Hp & Hb & _).
  cbn zeta in *. rewrite <- Hreq in *.
  repeat (split; [assumption || reflexivity || idtac|]); try assumption.
  intros Hnone. rewrite Hlang, Hnone. apply CookieFacts.parseLang_in_enum.
Qed.

Lemma GenshinImpact_new_request_witness :
  exists g,
    GenshinImpact.new
      {| GenshinImpact.cookie_option :=
           Hoyolab.CookieObject [(lit "ltoken", VString (lit "abc"));
                                 (lit "ltuid", VNumber (Num 123));
                                 (lit "mi18nLang", VString (lit "ja-jp"))];
         GenshinImpact.lang_option := None;
         GenshinImpact.uid_option := Some 801234567 |} = Return g /\
    get (Request.headers (GenshinImpact.request g)) (lit "Cookie")
    = VString (lit "ltoken=abc; ltuid=123; mi18nLang=ja-jp; account_id=123") /\
    get (Request.headers (GenshinImpact.request g)) (lit "x-rpc-language")
    = VString (lit "ja-jp") /\
    GenshinImpact.region g = Some Genshin.ASIA.
Proof.
  eexists. split; [reflexivity|].
  match goal with |- get (Request.headers (GenshinImpact.request ?g)) _ = _ /\ _ =>
    destruct (GenshinImpact_new_request
                {| GenshinImpact.cookie_option :=
                     Hoyolab.CookieObject [(lit "ltoken", VString (lit "abc"));
                                           (lit "ltuid", VNumber (Num 123));
                                           (lit "mi18nLang", VString (lit "ja-jp"))];
                   GenshinImpact.lang_option := None;
                   GenshinImpact.uid_option := Some 801234567 |} g eq_refl)
      as (cookie0 & Hread & _ & Hlang & _ & Hl & _ & _ & Hc & _ & _ & _ & _ & _ & Hreg)
  end.
  injection Hread as <-. destruct Hreg as (reg & Hreg & Hfound).
  injection Hfound as <-.
  split; [exact Hc|]. split; [exact Hl | exact Hreg].
Defined.

Lemma all_falsy_get (c : obj) (k : jsstring) :
  Forall (fun e => truthy (snd e) = false) c -> truthy (get c k) = false.
Proof.
  induction 1 as [|[k' v] c Hv _ IH]; [reflexivity|]. cbn [get].
  now destruct (str_eqb k' k).
Qed.

(** X22.  When the constructor of the Genshin client throws.  It throws
    exactly what reading the cookie throws - that is what
    [parseCookieString] throws on a cookie string - or else what
    [getGenshinRegion] throws on the UID given.  A cookie given as an
    object is not checked at all: without a UID the constructor accepts
    any object, and if none of its properties is truthy the request is
    built without a Cookie header. *)
Theorem GenshinImpact_new_throws (o : GenshinImpact.options) :
  (forall e,
      GenshinImpact.new o = Throw e <->
      Hoyolab.read_cookie (GenshinImpact.cookie_option o) = Throw e \/
      ((exists cookie0,
           Hoyolab.read_cookie (GenshinImpact.cookie_option o) = Return cookie0) /\
       exists u, GenshinImpact.uid_option o = Some u /\
                 Genshin.getGenshinRegion u = Throw e)) /\
  (forall c,
      GenshinImpact.cookie_option o = Hoyolab.CookieObject c ->
      GenshinImpact.uid_option o = None ->
      exists g,
        GenshinImpact.new o = Return g /\
        (Forall (fun e => truthy (snd e) = false) c ->
         has (Request.headers (GenshinImpact.request g)) (lit "Cookie") = false)).
Proof.
  split.
  - intros e. unfold GenshinImpact.new.
    destruct (Hoyolab.read_cookie (GenshinImpact.cookie_option o)) as [cookie0|err];
      cbn [bind].
    + destruct (Cookie.parseCookie cookie0) as [cookieString cookie1].
      destruct (GenshinImpact.uid_option o) as [u|].
      * destruct (Genshin.getGenshinRegion u) as [reg|err] eqn:Hreg; cbn [bind].
        -- split; [discriminate|]. intros [H | (_ & u' & [= <-] & H)]; congruence.
        -- split.
           ++ intros [= <-]. right. eauto.
           ++ intros [H | (_ & u' & [= <-] & H)]; congruence.
      * cbn [bind]. split; [discriminate|].
        intros [H | (_ & u' & H & _)]; discriminate.
    + split; [intros [= <-]; now left|].
      intros [[= <-] | ([c H] & _)]; [reflexivity | discriminate].
  - intros c Hc Hu. unfold GenshinImpact.new. rewrite Hc, Hu.
    cbn [Hoyolab.read_cookie bind].
    destruct (Cookie.parseCookie c) as [cookieString cookie1] eqn:Hparse.
    cbn [bind]. eexists. split; [reflexivity|].
    intros Hfalsy. cbn [GenshinImpact.request].
    assert (Hempty : cookieString = []).
    { unfold Cookie.parseCookie in Hparse. injection Hparse as <- _.
      rewrite CookieFacts.fold_push_entry. cbn [app].
      rewrite (all_falsy_get c (lit "accountId") Hfalsy). cbn [negb].
      assert (Hnone : forall c' : obj,
                 Forall (fun e => truthy (snd e) = false) c' ->
                 List.filter (fun e => truthy (snd e)) c' = []).
      { induction 1 as [|[k v] c' Hv _ IH]; [reflexivity|].
        cbn [List.filter snd] in *. now rewrite Hv. }
      rewrite Hnone; [reflexivity|].
      apply CookieFacts.set_Forall; [assumption|].
      cbn [snd]. now apply all_falsy_get. }
    rewrite Hempty. reflexivity.
Qed.

Lemma GenshinImpact_new_throws_witness :
  exists g,
    GenshinImpact.new
      {| GenshinImpact.cookie_option := Hoyolab.CookieObject [(lit "ltoken", VNull)];
         GenshinImpact.lang_option := None;
         GenshinImpact.uid_option := None |} = Return g /\
    has (Request.headers (GenshinImpact.request g)) (lit "Cookie") = false.
Proof.
  destruct (proj2 (GenshinImpact_new_throws
                     {| GenshinImpact.cookie_option :=
                          Hoyolab.CookieObject [(lit "ltoken", VNull)];
                        GenshinImpact.lang_option := None;
                        GenshinImpact.uid_option := None |})
              [(lit "ltoken", VNull)] eq_refl eq_refl) as (g & Hg & Hno).
  exists g. split; [exact Hg|]. apply Hno. repeat constructor.
Defined.

(** X23.  A Genshin client built without a UID has no region, and every
    method that needs the account refuses to run: [redeemCode],
    [records], [characters], [charactersSummary], [spiralAbyss],
    [dailyNote] and [diaries] throw the HoyolabError "UID parameter is
    missing or failed to be filled" without an exchange and without
    touching the request. *)
Theorem client_without_uid_refuses (o : GenshinImpact.options) (g : GenshinImpact.t)
    h (w : World) (code : jsstring) (ids schedule month : value) :
  GenshinImpact.new o = Return g ->
  GenshinImpact.uid_option o = None ->
  GenshinImpact.region g = None /\
  GenshinImpact.redeemCode h g code w
  = Some {| Request.result := Throw Redeem.missing_uid;
            Request.request := GenshinImpact.request g;
            Request.world := w; Request.trace := [] |} /\
  GenshinImpact.records h g w = thrown Redeem.missing_uid (GenshinImpact.request g) w /\
  GenshinImpact.characters h g w
  = thrown Redeem.missing_uid (GenshinImpact.request g) w /\
  GenshinImpact.charactersSummary h g ids w
  = thrown Redeem.missing_uid (GenshinImpact.request g) w /\
  GenshinImpact.spiralAbyss h g schedule w
  = thrown Redeem.missing_uid (GenshinImpact.request g) w /\
  GenshinImpact.dailyNote h g w
  = thrown Redeem.missing_uid (GenshinImpact.request g) w /\
  GenshinImpact.diaries h g month w
  = thrown Redeem.missing_uid (GenshinImpact.request g) w.
Proof.
  intros Hnew Hnone.
  destruct (new_fields o g Hnew) as (cookie0 & _ & _ & _ & _ & Huid & Hreg).
  rewrite Hnone in Huid, Hreg.
  assert (Hr : unfilled (option_map Genshin.region_code (GenshinImpact.region g))
                 (GenshinImpact.uid g) = true) by (now rewrite Hreg, Huid).
  split; [exact Hreg|].
  unfold GenshinImpact.redeemCode, GenshinImpact.records, GenshinImpact.characters,
    GenshinImpact.charactersSummary, GenshinImpact.spiralAbyss,
    GenshinImpact.dailyNote, GenshinImpact.diaries,
    Redeem.claim, Records.records, Records.characters, Records.charactersSummary,
    Records.spiralAbyss, Records.dailyNote, Diary.diaries.
  cbn [GenshinImpact.redeem GenshinImpact.record GenshinImpact.diary
       Redeem.region Redeem.uid Records.region Records.uid Diary.region Diary.uid].
  rewrite Hr. unfold unfilled, string_or_null, number_or_null in Hr. rewrite Hr.
  repeat split.
Qed.

Lemma client_without_uid_refuses_witness :
  exists g,
    GenshinImpact.new
      {| GenshinImpact.cookie_option :=
           Hoyolab.CookieObject [(lit "ltoken", VString (lit "abc"));
                                 (lit "ltuid", VNumber (Num 123))];
         GenshinImpact.lang_option := None;
         GenshinImpact.uid_option := None |} = Return g /\
    GenshinImpact.redeemCode Examples.down g (lit "GENSHINGIFT") Examples.start
    = Some {| Request.result := Throw Redeem.missing_uid;
              Request.request := GenshinImpact.request g;
              Request.world := Examples.start; Request.trace := [] |}.
Proof.
  eexists. split; [reflexivity|].
  match goal with |- GenshinImpact.redeemCode _ ?g _ _ = _ =>
    apply (proj1 (proj2 (client_without_uid_refuses
                           {| GenshinImpact.cookie_option :=
                                Hoyolab.CookieObject
                                  [(lit "ltoken", VString (lit "abc"));
                                   (lit "ltuid", VNumber (Num 123))];
                              GenshinImpact.lang_option := None;
                              GenshinImpact.uid_option := None |}
                           g Examples.down Examples.start (lit "GENSHINGIFT")
                           VUndefined VUndefined VUndefined eq_refl eq_refl)))
  end.
Defined.

(** X24.  [redeemCode] of a Genshin client built with a UID.  The region
    is the one of the UID, and every exchange of the call goes to the
    redeem route with GET and carries the account in its query: the UID as
    [uid], the code of the region as [region], "hk4e_global" as
    [game_biz] and the language of the client as [lang] and [sLangKey];
    its headers carry that language too. *)
Theorem redeemCode_sends_account (o : GenshinImpact.options) (g : GenshinImpact.t)
    (u : Z) h (code : jsstring) (w : World) (x : Request.run) :
  GenshinImpact.new o = Return g ->
  GenshinImpact.uid_option o = Some u ->
  GenshinImpact.redeemCode h g code w = Some x ->
  exists reg,
    Genshin.getGenshinRegion u = Return reg /\
    GenshinImpact.region g = Some reg /\
    forall url config,
      In (url, config) (Request.exchanges (Request.trace x)) ->
      url = Redeem.redeem_route /\ cfg_method config = GET /\
      get (cfg_params config) (lit "uid") = VNumber (Num u) /\
      get (cfg_params config) (lit "region") = VString (Genshin.region_code reg) /\
      get (cfg_params config) (lit "game_biz") = VString (lit "hk4e_global") /\
      get (cfg_params config) (lit "lang") = VString (GenshinImpact.lang g) /\
      get (cfg_params config) (lit "sLangKey") = VString (GenshinImpact.lang g) /\
      get (cfg_headers config) (lit "x-rpc-language") = VString (GenshinImpact.lang g).
Proof.
  intros Hnew Huid Hredeem.
  destruct (new_fields o g Hnew) as (cookie0 & _ & _ & _ & Hreq & Hu & Hreg).
  rewrite Huid in Hu, Hreg. destruct Hreg as (reg & Hregion & Hfound).
  exists reg. split; [exact Hfound|]. split; [exact Hregion|].
  intros url config Hin. unfold GenshinImpact.redeemCode in Hredeem.
  pose proof (resolved_uid_nonzero u reg Hfound) as Hnz.
  assert (Hr1 : Redeem.region (GenshinImpact.redeem g)
                = Some (Genshin.region_code reg))
    by (cbn [GenshinImpact.redeem Redeem.region]; now rewrite Hregion).
  assert (Hne : Genshin.region_code reg <> []) by (now destruct reg).
  destruct (claim_exchanges h (GenshinImpact.redeem g) code (GenshinImpact.request g)
              w x (Genshin.region_code reg) u Hr1 Hne Hu Hnz Hredeem url config Hin)
    as (-> & Hm & Hp & Hh & _).
  destruct (claim_params_read (GenshinImpact.redeem g) code
              (Request.params (GenshinImpact.request g)))
    as (H1 & H2 & H3 & H4 & H5 & _).
  rewrite Hr1 in H2. cbn [GenshinImpact.redeem Redeem.uid Redeem.game Redeem.lang] in *.
  rewrite Hu in H1. cbn [Redeem.nullable] in H1, H2.
  rewrite Hp. repeat split; try assumption.
  rewrite Hh by (vm_compute; discriminate). rewrite Hreq.
  apply (client_request_headers (fst (Cookie.parseCookie cookie0))
           (GenshinImpact.lang g)).
Qed.

Lemma redeemCode_sends_account_witness :
  exists g x reg,
    GenshinImpact.new
      {| GenshinImpact.cookie_option :=
           Hoyolab.CookieObject [(lit "ltoken", VString (lit "abc"));
                                 (lit "ltuid", VNumber (Num 123))];
         GenshinImpact.lang_option := Some (lit "ja-jp");
         GenshinImpact.uid_option := Some 801234567 |} = Return g /\
    GenshinImpact.redeemCode Examples.down g (lit "GENSHINGIFT") Examples.start
    = Some x /\
    Genshin.getGenshinRegion 801234567 = Return reg /\
    GenshinImpact.region g = Some reg.
Proof.
  eexists. eexists.
  match goal with |- exists reg, ?new = Return ?g /\ ?redeem = Some ?x /\ _ =>
    assert (Hnew : new = Return g) by reflexivity;
    assert (Hredeem : redeem = Some x) by reflexivity;
    destruct (redeemCode_sends_account _ g 801234567 _ _ _ x Hnew eq_refl Hredeem)
      as (reg & Hreg & Hregion & _);
    exists reg; split; [exact Hnew|]; split; [exact Hredeem|];
    split; [exact Hreg | exact Hregion]
  end.
Defined.

(** X25.  Parameters and signature leak from one module to the next.  The
    modules of a client share one request, whose query parameters are
    merged and never cleared and whose signature mode is never turned
    off.  So after [records()] on a Genshin client, every exchange of a
    following [redeemCode] still carries the [server] and [role_id] that
    [records] had put in the query, and a DS header. *)
Theorem records_then_redeemCode h (g : GenshinImpact.t) (u : Z)
    (reg : Genshin.GenshinRegion) (w w' : World) (c : call value)
    (code : jsstring) (x : Request.run) :
  GenshinImpact.uid g = Some u -> u <> 0 -> GenshinImpact.region g = Some reg ->
  GenshinImpact.records h g w = Some c ->
  GenshinImpact.redeemCode h (GenshinImpact.with_request g (request_after c)) code w'
  = Some x ->
  forall url config,
    In (url, config) (Request.exchanges (Request.trace x)) ->
    get (cfg_params config) (lit "server") = VString (Genshin.region_code reg) /\
    get (cfg_params config) (lit "role_id") = VNumber (Num u) /\
    exists token, get (cfg_headers config) (lit "DS") = VString token.
Proof.
  intros Huid Hu Hreg Hrecords Hredeem url config Hin.
  unfold GenshinImpact.records, Records.records in Hrecords.
  cbn [GenshinImpact.record Records.region Records.uid Records.lang] in Hrecords.
  rewrite Hreg, Huid in Hrecords. cbn [option_map] in Hrecords.
  rewrite (region_code_filled reg u Hu) in Hrecords.
  destruct (send_data_signed _ _ _ _ _ _ Hrecords eq_refl) as (_ & Hds & Hpar & _).
  unfold GenshinImpact.redeemCode in Hredeem.
  assert (Hr1 : Redeem.region
                  (GenshinImpact.redeem (GenshinImpact.with_request g (request_after c)))
                = Some (Genshin.region_code reg))
    by (cbn [GenshinImpact.redeem GenshinImpact.with_request GenshinImpact.region
             Redeem.region]; now rewrite Hreg).
  assert (Hne : Genshin.region_code reg <> []) by (now destruct reg).
  destruct (claim_exchanges h
              (GenshinImpact.redeem (GenshinImpact.with_request g (request_after c)))
              code (request_after c) w' x (Genshin.region_code reg) u
              Hr1 Hne Huid Hu Hredeem url config Hin)
    as (_ & _ & Hp & _ & Htok).
  rewrite Hp.
  match goal with |- context [spread _ (Redeem.claim_params ?m code)] =>
    destruct (claim_params_read m code (Request.params (request_after c)))
      as (_ & _ & _ & _ & _ & Hother)
  end.
  rewrite !Hother by reflexivity. rewrite Hpar.
  cbn [Request.setDs Request.setParams Request.params].
  rewrite !RequestMoreFacts.get_spread by distinct_keys.
  repeat split; try reflexivity. apply Htok. exact Hds.
Qed.

Lemma records_then_redeemCode_witness :
  exists c x,
    GenshinImpact.records Examples.down
      {| GenshinImpact.cookie := [(lit "ltuid", VNumber (Num 123))];
         GenshinImpact.request := Request.new None;
         GenshinImpact.uid := Some 801234567;
         GenshinImpact.region := Some Genshin.ASIA;
         GenshinImpact.lang := lit "en-us" |} Examples.start = Some c /\
    GenshinImpact.redeemCode Examples.down
      (GenshinImpact.with_request
         {| GenshinImpact.cookie := [(lit "ltuid", VNumber (Num 123))];
            GenshinImpact.request := Request.new None;
            GenshinImpact.uid := Some 801234567;
            GenshinImpact.region := Some Genshin.ASIA;
            GenshinImpact.lang := lit "en-us" |}
         (request_after c))
      (lit "GENSHINGIFT") (world_after c) = Some x /\
    forall url config,
      In (url, config) (Request.exchanges (Request.trace x)) ->
      get (cfg_params config) (lit "server") = VString (lit "os_asia") /\
      get (cfg_params config) (lit "role_id") = VNumber (Num 801234567) /\
      exists token, get (cfg_headers config) (lit "DS") = VString token.
Proof.
  eexists. eexists. split; [reflexivity|].
  match goal with
  | |- GenshinImpact.redeemCode _ (GenshinImpact.with_request _ (request_after ?c))
         _ _ = _ /\ _ => pose (first_call := c)
  end.
  split; [reflexivity|].
  match goal with
  | |- forall url config, In (url, config) (Request.exchanges (Request.trace ?x)) -> _ =>
      apply (records_then_redeemCode Examples.down
               {| GenshinImpact.cookie := [(lit "ltuid", VNumber (Num 123))];
                  GenshinImpact.request := Request.new None;
                  GenshinImpact.uid := Some 801234567;
                  GenshinImpact.region := Some Genshin.ASIA;
                  GenshinImpact.lang := lit "en-us" |}
               801234567 Genshin.ASIA Examples.start (world_after first_call)
               first_call (lit "GENSHINGIFT") x)
  end; [reflexivity | lia | reflexivity | reflexivity | reflexivity].
Defined.

(** X26.  A European account of Honkai Impact cannot redeem.  For a UID
    strictly between 2*10^8 and 3*10^8 [getHi3Region] looks up the key
    "EURO", which the enum does not have, so the client is built with the
    region [undefined] and [redeemCode] always throws the HoyolabError "UID
    parameter is missing or failed to be filled", without an exchange.  A
    UID strictly between 10^7 and 10^8 gives the region "overseas01". *)
Theorem HonkaiImpact_europe_cannot_redeem (o : HonkaiImpact.options)
    (g : HonkaiImpact.t) (u : Z) :
  HonkaiImpact.new o = Return g ->
  HonkaiImpact.uid_option o = Some u ->
  (200000000 < u < 300000000 ->
   HonkaiImpact.region g = VUndefined /\
   forall h code w,
     HonkaiImpact.redeemCode h g code w
     = Some {| Request.result := Throw Redeem.missing_uid;
               Request.request := HonkaiImpact.request g;
               Request.world := w; Request.trace := [] |}) /\
  (10000000 < u < 100000000 ->
   HonkaiImpact.region g = VString (lit "overseas01") /\
   Redeem.region (HonkaiImpact.redeem g) = Some (lit "overseas01")).
Proof.
  intros Hnew Huid. unfold HonkaiImpact.new in Hnew.
  destruct (Hoyolab.read_cookie (HonkaiImpact.cookie_option o)) as [cookie0|];
    cbn [bind] in Hnew; [|discriminate].
  destruct (Cookie.parseCookie cookie0) as [cookieString cookie1].
  rewrite Huid in Hnew.
  assert (Hcmp : forall lo hi,
             gt (Num u) (Num lo) && lt (Num u) (Num hi) = (lo <? u) && (u <? hi))
    by reflexivity.
  split; intros Hrange; unfold Honkai.getHi3Region in Hnew; rewrite !Hcmp in Hnew.
  - replace ((10000000 <? u) && (u <? 100000000)) with false in Hnew by lia.
    replace ((100000000 <? u) && (u <? 200000000)) with false in Hnew by lia.
    replace ((200000000 <? u) && (u <? 300000000)) with true in Hnew by lia.
    cbn [bind] in Hnew. injection Hnew as <-. split; reflexivity.
  - replace ((10000000 <? u) && (u <? 100000000)) with true in Hnew by lia.
    cbn [bind] in Hnew. injection Hnew as <-. split; reflexivity.
Qed.

Lemma HonkaiImpact_europe_cannot_redeem_witness :
  exists g,
    HonkaiImpact.new
      {| HonkaiImpact.cookie_option :=
           Hoyolab.CookieObject [(lit "ltoken", VString (lit "abc"));
                                 (lit "ltuid", VNumber (Num 123))];
         HonkaiImpact.lang_option := None;
         HonkaiImpact.uid_option := Some 250000000 |} = Return g /\
    HonkaiImpact.region g = VUndefined.
Proof.
  eexists. split; [reflexivity|].
  match goal with |- HonkaiImpact.region ?g = _ =>
    apply (proj1 (HonkaiImpact_europe_cannot_redeem
                    {| HonkaiImpact.cookie_option :=
                         Hoyolab.CookieObject [(lit "ltoken", VString (lit "abc"));
                                               (lit "ltuid", VNumber (Num 123))];
                       HonkaiImpact.lang_option := None;
                       HonkaiImpact.uid_option := Some 250000000 |}
                    g 250000000 eq_refl eq_refl))
  end.
  lia.
Defined.

End GameFacts.

(** ** The account client and the Star Rail client, end to end *)

Module SessionFacts.
Import Js ObjFacts Calls ModuleFacts.

Lemma join_nonempty (sep p : jsstring) (rest : list jsstring) :
  p <> [] -> join sep (p :: rest) <> [].
Proof.
  intros Hp. destruct p as [|ch p]; [congruence|].
  destruct rest; cbn [join app]; discriminate.
Qed.

(** A cookie object with a truthy [ltoken] never serialises to the empty
    string. *)
Lemma parseCookie_nonempty (cookie : obj) :
  truthy (get cookie (lit "ltoken")) = true -> fst (Cookie.parseCookie cookie) <> [].
Proof.
  intros Htok. unfold Cookie.parseCookie. cbn [fst].
  rewrite CookieFacts.fold_push_entry. cbn [app].
  set (cookie' := if negb (truthy (get cookie (lit "accountId")))
                  then set cookie (lit "accountId") (get cookie (lit "ltuid"))
                  else cookie).
  assert (Htok' : truthy (get cookie' (lit "ltoken")) = true).
  { subst cookie'. destruct (negb _); [|exact Htok].
    rewrite get_set_other by (vm_compute; discriminate). exact Htok. }
  apply CookieFacts.truthy_entry in Htok'.
  destruct (List.filter _ cookie') as [|[k v] rest]; [destruct Htok'|].
  cbn [List.map]. apply join_nonempty. unfold Cookie.entry_string.
  destruct (Cookie.includes _ k); [destruct (Cookie.toSnakeCase k)|destruct k];
    discriminate.
Qed.

(** X27.  The account client, end to end.  A [Hoyolab] client built from
    a cookie string sends, in every exchange of [gamesList], the cookie
    serialised again by [parseCookie] as Cookie header - never an empty
    one -, the language of the client as "x-rpc-language" header and the
    [ltuid] of the cookie, a number other than 0, as [uid]. *)
Theorem Hoyolab_gamesList_sends_cookie (s : jsstring) (lang : option jsstring)
    (a : Hoyolab.t) h (game : option jsstring) (w : World) (c : call value) :
  Hoyolab.new {| Hoyolab.cookie_option := Hoyolab.CookieString s;
                 Hoyolab.lang_option := lang |} = Return a ->
  Hoyolab.gamesList h a game w = Some c ->
  exists cookie1 u,
    Cookie.parseCookieString s = Return cookie1 /\
    get cookie1 (lit "ltuid") = VNumber (Num u) /\ u <> 0 /\
    fst (Cookie.parseCookie cookie1) <> [] /\
    forall url config,
      In (url, config) (Request.exchanges (events c)) ->
      get (cfg_params config) (lit "uid") = VNumber (Num u) /\
      get (cfg_headers config) (lit "Cookie")
      = VString (fst (Cookie.parseCookie cookie1)) /\
      get (cfg_headers config) (lit "x-rpc-language") = VString (Hoyolab.lang a).
Proof.
  intros Hnew Hlist. unfold Hoyolab.new in Hnew.
  cbn [Hoyolab.cookie_option Hoyolab.lang_option Hoyolab.read_cookie] in Hnew.
  destruct (Cookie.parseCookieString s) as [cookie1|] eqn:Hparse; cbn [bind] in Hnew;
    [|discriminate].
  destruct (CookieFacts.parseCookieString_shaped s cookie1 Hparse)
    as (Hshape & Htok & Huid & _).
  destruct (CookieFacts.shaped_get cookie1 (lit "ltuid") Hshape) as [Hundef | Hfield];
    [rewrite Hundef in Huid; discriminate|].
  destruct (CookieFacts.number_field _ _ (or_introl eq_refl) Hfield) as [n Hn].
  rewrite Hn in Huid. destruct (CookieFacts.truthy_number n Huid) as [u ->].
  pose proof (parseCookie_nonempty cookie1 Htok) as Hne.
  exists cookie1, u. split; [reflexivity|]. split; [exact Hn|].
  split; [intros ->; discriminate Huid|]. split; [exact Hne|].
  destruct (Cookie.parseCookie cookie1) as [cookieString cookie2] eqn:Hser.
  injection Hnew as <-. cbn [fst] in *.
  intros url config Hin.
  unfold Hoyolab.gamesList in Hlist.
  destruct (Request.send h Hoyolab.games_route GET None _ w) as [x|] eqn:Hsend;
    [|discriminate].
  injection Hlist as <-. cbn [events] in Hin.
  destruct (SendFacts.send_exchange_in _ _ _ _ _ _ _ _ _ Hsend Hin)
    as (_ & _ & Hp & _ & Hh & _).
  match type of Hsend with
  | Request.send _ _ _ _ (Hoyolab.games_request ?a0 _) _ = _ =>
      destruct (HoyolabFacts.games_request_params a0 game) as (Hu & _ & _)
  end.
  rewrite Hp, Hu. cbn [Hoyolab.cookie Hoyolab.lang].
  assert (Hcookie2 : get cookie2 (lit "ltuid") = VNumber (Num u)).
  { unfold Cookie.parseCookie in Hser. injection Hser as _ <-.
    destruct (negb _); [|exact Hn].
    rewrite get_set_other by (vm_compute; discriminate). exact Hn. }
  split; [exact Hcookie2|].
  rewrite !Hh by (vm_compute; discriminate).
  assert (Hsame : forall r,
             Request.headers (Hoyolab.games_request
                                {| Hoyolab.cookie := cookie2; Hoyolab.request := r;
                                   Hoyolab.lang := Hoyolab.choose_lang lang cookie1 |}
                                game)
             = Request.headers r).
  { intros r. unfold Hoyolab.games_request. cbn [Hoyolab.request].
    now destruct game as [[|ch rest]|]. }
  rewrite Hsame.
  destruct cookieString as [|ch rest]; [congruence|]. split; reflexivity.
Qed.

Lemma Hoyolab_gamesList_sends_cookie_witness :
  exists a c cookie1 u,
    Hoyolab.new {| Hoyolab.cookie_option := Hoyolab.CookieString (lit "ltoken=a;ltuid=7");
                   Hoyolab.lang_option := Some (lit "en-us") |} = Return a /\
    Hoyolab.gamesList Examples.down a None Examples.start = Some c /\
    Cookie.parseCookieString (lit "ltoken=a;ltuid=7") = Return cookie1 /\
    get cookie1 (lit "ltuid") = VNumber (Num u) /\ u <> 0.
Proof.
  eexists. eexists.
  match goal with |- exists cookie1 u, ?new = Return ?a /\ ?list = Some ?c /\ _ =>
    assert (Hnew : new = Return a) by reflexivity;
    assert (Hlist : list = Some c) by reflexivity;
    destruct (Hoyolab_gamesList_sends_cookie _ _ a _ _ _ c Hnew Hlist)
      as (cookie1 & u & Hparse & Hu & Hnz & _);
    exists cookie1, u; split; [exact Hnew|]; split; [exact Hlist|];
    split; [exact Hparse|]; split; [exact Hu | exact Hnz]
  end.
Defined.

Lemma hsr_new_fields (o : HonkaiStarRail.options) (g : HonkaiStarRail.t) :
  HonkaiStarRail.new o = Return g ->
  exists cookie0,
    Hoyolab.read_cookie (HonkaiStarRail.cookie_option o) = Return cookie0 /\
    HonkaiStarRail.lang g
    = Hoyolab.choose_lang (HonkaiStarRail.lang_option o) cookie0 /\
    HonkaiStarRail.request g
    = Request.setLang
        (Request.setReferer
           (Request.new (Some (fst (Cookie.parseCookie cookie0)))) Routes.referer)
        (HonkaiStarRail.lang g) /\
    HonkaiStarRail.uid g = HonkaiStarRail.uid_option o /\
    match HonkaiStarRail.uid_option o with
    | None => HonkaiStarRail.region g = None
    | Some u =>
        exists code, HonkaiStarRail.region g = Some code /\
                     Hsr.getHsrRegion (Num u) = Return code
    end.
Proof.
  unfold HonkaiStarRail.new.
  destruct (Hoyolab.read_cookie (HonkaiStarRail.cookie_option o)) as [cookie0|] eqn:Hread;
    cbn [bind]; [|discriminate].
  destruct (Cookie.parseCookie cookie0) as [cookieString cookie1] eqn:Hparse.
  intros Hnew. exists cookie0. rewrite Hparse. cbn [fst snd]. split; [reflexivity|].
  destruct (HonkaiStarRail.uid_option o) as [u|] eqn:Huid.
  - destruct (Hsr.getHsrRegion (Num u)) as [code|] eqn:Hregion; cbn [bind] in Hnew;
      [|discriminate].
    injection Hnew as <-. cbn. repeat split; try reflexivity. exists code. now split.
  - cbn [bind] in Hnew. injection Hnew as <-. cbn. repeat split; reflexivity.
Qed.

(** X28.  [redeemCode] of a Star Rail client built with a UID.  The
    constructor succeeds only for a UID that [getHsrRegion] resolves, to
    one of "prod_official_asia", "prod_official_euro" and
    "prod_official_cht"; every exchange of [redeemCode] then goes to the
    redeem route and carries the UID as [uid], that value as [region] and
    "hkrpg_global" as [game_biz]. *)
Theorem HonkaiStarRail_redeemCode (o : HonkaiStarRail.options) (g : HonkaiStarRail.t)
    (u : Z) h (code : jsstring) (w : World) (x : Request.run) :
  HonkaiStarRail.new o = Return g ->
  HonkaiStarRail.uid_option o = Some u ->
  HonkaiStarRail.redeemCode h g code w = Some x ->
  exists server,
    Hsr.getHsrRegion (Num u) = Return server /\
    HonkaiStarRail.region g = Some server /\
    (server = lit "prod_official_asia" \/ server = lit "prod_official_euro" \/
     server = lit "prod_official_cht") /\
    forall url config,
      In (url, config) (Request.exchanges (Request.trace x)) ->
      url = Redeem.redeem_route /\
      get (cfg_params config) (lit "uid") = VNumber (Num u) /\
      get (cfg_params config) (lit "region") = VString server /\
      get (cfg_params config) (lit "game_biz") = VString (lit "hkrpg_global").
Proof.
  intros Hnew Huid Hredeem.
  destruct (hsr_new_fields o g Hnew) as (cookie0 & _ & _ & Hreq & Hu & Hreg).
  rewrite Huid in Hu, Hreg. destruct Hreg as (server & Hregion & Hfound).
  assert (Hkinds : server = lit "prod_official_asia" \/
                   server = lit "prod_official_euro" \/
                   server = lit "prod_official_cht").
  { revert Hfound. unfold Hsr.getHsrRegion, Hsr.invalid_uid.
    destruct (Number_of_char _) as [|z]; [discriminate|].
    destruct z as [|p|p]; try discriminate.
    repeat (match goal with q : positive |- _ => destruct q end; try discriminate);
      intros [= <-]; auto. }
  assert (Hnz : u <> 0).
  { intros ->. vm_compute in Hfound. discriminate Hfound. }
  assert (Hne : server <> []).
  { destruct Hkinds as [-> | [-> | ->]]; discriminate. }
  exists server. split; [exact Hfound|]. split; [exact Hregion|]. split; [exact Hkinds|].
  intros url config Hin. unfold HonkaiStarRail.redeemCode in Hredeem.
  assert (Hr1 : Redeem.region (HonkaiStarRail.redeem g) = Some server)
    by (cbn [HonkaiStarRail.redeem Redeem.region]; exact Hregion).
  destruct (GameFacts.claim_exchanges h (HonkaiStarRail.redeem g) code
              (HonkaiStarRail.request g) w x server u Hr1 Hne Hu Hnz Hredeem
              url config Hin) as (-> & _ & Hp & _).
  destruct (GameFacts.claim_params_read (HonkaiStarRail.redeem g) code
              (Request.params (HonkaiStarRail.request g)))
    as (H1 & H2 & H3 & _).
  rewrite Hr1 in H2. cbn [HonkaiStarRail.redeem Redeem.uid Redeem.game] in *.
  rewrite Hu in H1. cbn [Redeem.nullable] in H1, H2.
  rewrite Hp. repeat split; assumption.
Qed.

Lemma HonkaiStarRail_redeemCode_witness :
  exists g x server,
    HonkaiStarRail.new
      {| HonkaiStarRail.cookie_option :=
           Hoyolab.CookieObject [(lit "ltoken", VString (lit "abc"));
                                 (lit "ltuid", VNumber (Num 123))];
         HonkaiStarRail.lang_option := None;
         HonkaiStarRail.uid_option := Some 601234567 |} = Return g /\
    HonkaiStarRail.redeemCode Examples.down g (lit "STARRAILGIFT") Examples.start
    = Some x /\
    Hsr.getHsrRegion (Num 601234567) = Return server /\
    HonkaiStarRail.region g = Some server.
Proof.
  eexists. eexists.
  match goal with |- exists server, ?new = Return ?g /\ ?redeem = Some ?x /\ _ =>
    assert (Hnew : new = Return g) by reflexivity;
    assert (Hredeem : redeem = Some x) by reflexivity;
    destruct (HonkaiStarRail_redeemCode _ g 601234567 _ _ _ x Hnew eq_refl Hredeem)
      as (server & Hfound & Hregion & _);
    exists server; split; [exact Hnew|]; split; [exact Hredeem|];
    split; [exact Hfound | exact Hregion]
  end.
Defined.

End SessionFacts.
